(** * Dual-pane file manager: the copy / move engine of [file_mgmt4.py]

    A shallow embedding of the transfer code of the dual-pane file manager
    ([Pane._set_progress], [Pane._reset_progress], [Pane.get_selected_paths],
    [Pane._parse_entry_to_name], [Pane.list_all],
    [Pane.update_list_with_progress] and [DualPaneFileManager._copy_files],
    [_move_files], [_copy_with_progress], [_collect_all_files]) together
    with the properties its specification states about it.

    The program is a Tk application working on the machine's file system.
    - The file system is a tree of named nodes: regular files with their
      bytes, directories with their entries in listing order, and special
      nodes (sockets).  Exceptions of the file-system calls come from the
      shape of the tree: a missing path, a directory or a file in the
      way, a socket.  Permissions, links, device files and pipes, times
      and other processes changing the tree are not part of the model,
      nor are paths with a component [..].
    - The two panes and the file system form the world the methods act
      on.  Of a pane the model keeps its directory, the rows selected in
      its list box, and the value and maximum of its progress bar; the
      text and colours of the widgets are left out.
    - A method is a computation in a state-and-exception monad over the
      world: a Python exception leaves in place what was done before it,
      as in the program.  The calls that reach the user or that the
      properties count (progress updates, message boxes, [copystat],
      [unlink]) are logged in the order they are made.
    - Numbers shown by the progress bar are rationals; the program uses
      Python floats for the fraction of a file copied.
    - Beyond the transfer code the development covers the rows of the
      listings ([list_all], [sort_files_size]) and how they are parsed
      back, navigation ([go_up], [_on_double_click]), [clear_pane] and
      [delete_selected_with_confirm], with properties read off the
      code. *)

From Stdlib Require Import List String Ascii Bool Arith ZArith NArith QArith Lia.
From Stdlib.Strings Require Import Byte.
From Stdlib Require Decimal DecimalString.
Import ListNotations.
Close Scope Q_scope.
Open Scope string_scope.
Open Scope list_scope.

Set Warnings "-register-all".

(** ** Python exceptions raised by the modelled calls *)

Inductive exn :=
| FileNotFoundError
| NotADirectoryError
| IsADirectoryError
| FileExistsError
| PermissionError
| OSError
| ValueError.

Definition exn_str (e : exn) : string :=
  match e with
  | FileNotFoundError => "FileNotFoundError"
  | NotADirectoryError => "NotADirectoryError"
  | IsADirectoryError => "IsADirectoryError"
  | FileExistsError => "FileExistsError"
  | PermissionError => "PermissionError"
  | OSError => "OSError"
  | ValueError => "ValueError"
  end.

(** ** Paths ([pathlib.Path])

    An absolute path is the list of its components below the root, the
    root first: [/a/Foo/x.txt] is [["a"; "Foo"; "x.txt"]] and [/] is [[]].
    Components are directory-entry names: not empty, without a slash,
    and other than [.] and [..], which no directory lists. *)

Definition path := list string.

Module PurePath.

(** [p.name]: the last component, the empty string for the root. *)
Definition name (p : path) : string := last p "".

(** [p.parent]: the path without its last component; the root is its own
    parent. *)
Definition parent (p : path) : path := removelast p.

(** [p.relative_to(q)]: the components of [p] below [q]; [ValueError]
    when [q] is not an ancestor of [p] (or [p] itself). *)
Fixpoint relative_to (p q : path) {struct q} : exn + path :=
  match q with
  | [] => inr p
  | c :: q' =>
      match p with
      | [] => inl ValueError
      | d :: p' => if String.eqb d c then relative_to p' q' else inl ValueError
      end
  end.

(** What stands to the right of [/]: a string ([p.name]) or a relative
    path (the result of [relative_to]). *)
Inductive pathlike :=
| Str (s : string)
| Rel (parts : list string).

(** [d / x].  Joining the empty string or a single dot gives [d] back;
    any other string is taken as one component (the rows of the list box
    are names of directory entries).  The program would read a string
    with a slash as several components, and the operating system
    resolves a component [..] to the parent directory; a row can parse
    to [..] (the file name [.. - 5 bytes] does).  Such strings are not
    names of entries and the model does not follow them: it covers the
    rows that [entry_rows] describes. *)
Definition div (d : path) (x : pathlike) : path :=
  match x with
  | Str s => if String.eqb s "" || String.eqb s "." then d else d ++ [s]
  | Rel parts => d ++ parts
  end.

End PurePath.

(** ** The file system

    A node is a regular file with its bytes, a directory with its entries
    in the order [os.scandir] lists them, or a special node: an entry that
    exists and is neither a regular file nor a directory and cannot be
    opened for reading or writing, that is, a socket.  Device files,
    which [open] opens, and pipes, on which it waits, are not part of
    the model. *)

Inductive node :=
| File (content : list byte)
| Dir (entries : list (string * node))
| Special.

Module Posix.

Definition is_dir_node (n : node) : bool :=
  match n with Dir _ => true | _ => false end.

Definition is_file_node (n : node) : bool :=
  match n with File _ => true | _ => false end.

(** The entry called [name] of a directory listing. *)
Fixpoint assoc (name : string) (es : list (string * node)) : option node :=
  match es with
  | [] => None
  | (k, v) :: t => if String.eqb k name then Some v else assoc name t
  end.

(** Replace the entry [name], or add it at the end. *)
Fixpoint set_entry (name : string) (v : node) (es : list (string * node))
  : list (string * node) :=
  match es with
  | [] => [(name, v)]
  | (k, x) :: t =>
      if String.eqb k name then (k, v) :: t else (k, x) :: set_entry name v t
  end.

Fixpoint remove_entry (name : string) (es : list (string * node))
  : list (string * node) :=
  match es with
  | [] => []
  | (k, x) :: t =>
      if String.eqb k name then t else (k, x) :: remove_entry name t
  end.

(** [os.stat]: the node a path names below [n]. *)
Fixpoint stat (n : node) (p : path) : exn + node :=
  match p with
  | [] => inr n
  | c :: rest =>
      match n with
      | Dir es =>
          match assoc c es with
          | Some child => stat child rest
          | None => inl FileNotFoundError
          end
      | _ => inl NotADirectoryError
      end
  end.

(** The node at a path, when there is one. *)
Definition lookup (n : node) (p : path) : option node :=
  match stat n p with inr x => Some x | inl _ => None end.

(** [Path.exists], [Path.is_file], [Path.is_dir]: an error of [stat] is
    answered with [False]. *)
Definition exists_ (fs : node) (p : path) : bool :=
  match stat fs p with inr _ => true | inl _ => false end.

Definition is_file (fs : node) (p : path) : bool :=
  match stat fs p with inr n => is_file_node n | inl _ => false end.

Definition is_dir (fs : node) (p : path) : bool :=
  match stat fs p with inr n => is_dir_node n | inl _ => false end.

(** Change the entry a path names: [f] receives the node found there
    ([None] when the parent directory has no such entry) and answers with
    the node to store, with [None] to remove the entry, or with an
    error.  The parent must be an existing directory. *)
Fixpoint alter (f : option node -> exn + option node) (n : node) (p : path)
  {struct p} : exn + node :=
  match p with
  | [] =>
      match f (Some n) with
      | inl e => inl e
      | inr (Some n') => inr n'
      | inr None => inl PermissionError
      end
  | c :: rest =>
      match n with
      | Dir es =>
          match rest with
          | [] =>
              match f (assoc c es) with
              | inl e => inl e
              | inr (Some v) => inr (Dir (set_entry c v es))
              | inr None => inr (Dir (remove_entry c es))
              end
          | _ :: _ =>
              match assoc c es with
              | Some child =>
                  match alter f child rest with
                  | inl e => inl e
                  | inr child' => inr (Dir (set_entry c child' es))
                  end
              | None => inl FileNotFoundError
              end
          end
      | _ => inl NotADirectoryError
      end
  end.

(** [open(p, "rb")] succeeds on a regular file; on a directory and on a
    socket it raises. *)
Definition open_rb (fs : node) (p : path) : exn + unit :=
  match stat fs p with
  | inl e => inl e
  | inr (File _) => inr tt
  | inr (Dir _) => inl IsADirectoryError
  | inr Special => inl OSError
  end.

(** [open(p, "wb")]: an existing regular file is truncated, a missing
    one is created empty. *)
Definition open_wb (fs : node) (p : path) : exn + node :=
  alter (fun o =>
           match o with
           | None | Some (File _) => inr (Some (File []))
           | Some (Dir _) => inl IsADirectoryError
           | Some Special => inl OSError
           end) fs p.

(** [f.write(buf)] on a file opened for writing at [p]: the bytes are
    added at the end. *)
Definition write (fs : node) (p : path) (buf : list byte) : exn + node :=
  alter (fun o =>
           match o with
           | Some (File c) => inr (Some (File (c ++ buf)))
           | _ => inl OSError
           end) fs p.

(** [Path.unlink]: removes a regular file or a special node. *)
Definition unlink (fs : node) (p : path) : exn + node :=
  alter (fun o =>
           match o with
           | None => inl FileNotFoundError
           | Some (Dir _) => inl IsADirectoryError
           | Some _ => inr None
           end) fs p.

(** [Path.mkdir(parents=True, exist_ok=True)]: every missing directory
    on the way is created; a component that exists and is not a
    directory is an error. *)
Fixpoint mkdir_parents (n : node) (p : path) : exn + node :=
  match p with
  | [] =>
      match n with
      | Dir _ => inr n
      | _ => inl FileExistsError
      end
  | c :: rest =>
      match n with
      | Dir es =>
          let child :=
            match assoc c es with Some ch => ch | None => Dir [] end in
          match mkdir_parents child rest with
          | inl e => inl e
          | inr child' => inr (Dir (set_entry c child' es))
          end
      | _ => inl NotADirectoryError
      end
  end.

(** [os.path.getsize].  For a directory or a special node the program
    gets a number it never uses, because opening such a node for reading
    raises; the model answers [0]. *)
Definition getsize (fs : node) (p : path) : exn + nat :=
  match stat fs p with
  | inl e => inl e
  | inr (File c) => inr (List.length c)
  | inr _ => inr 0
  end.

(** The bytes of the regular file at [p]; nothing for anything else. *)
Definition content_of (fs : node) (p : path) : list byte :=
  match stat fs p with
  | inr (File c) => c
  | _ => []
  end.

(** [os.walk(top)], top down, flattened the way [_collect_all_files]
    uses it: for each directory visited, its entries that are not
    directories, as [root / f], and then its sub-directories in listing
    order. *)
Fixpoint walk_files (root : path) (n : node) {struct n} : list path :=
  match n with
  | Dir es =>
      map (fun e => root ++ [fst e])
          (filter (fun e => negb (is_dir_node (snd e))) es)
      ++ (fix sub (l : list (string * node)) : list path :=
            match l with
            | [] => []
            | (name, child) :: t => walk_files (root ++ [name]) child ++ sub t
            end) es
  | _ => []
  end.

Definition walk (fs : node) (top : path) : list path :=
  match stat fs top with
  | inr n => walk_files top n
  | inl _ => []
  end.

(** [os.scandir]: the entries of a directory. *)
Definition scandir (fs : node) (p : path) : exn + list (string * node) :=
  match stat fs p with
  | inl e => inl e
  | inr (Dir es) => inr es
  | inr _ => inl NotADirectoryError
  end.

(** A tree is well formed when no directory lists a name twice. *)
Fixpoint names_distinct (l : list string) : bool :=
  match l with
  | [] => true
  | x :: t => negb (existsb (String.eqb x) t) && names_distinct t
  end.

Fixpoint well_formed (n : node) {struct n} : bool :=
  match n with
  | Dir es =>
      names_distinct (map fst es)
      && (fix all (l : list (string * node)) : bool :=
            match l with
            | [] => true
            | (_, child) :: t => well_formed child && all t
            end) es
  | _ => true
  end.

End Posix.

(** ** Python's [max] and [min] on two numbers

    [max(a, b)] answers [b] only when [b > a], [min(a, b)] answers [b]
    only when [b < a]; otherwise the first argument is returned as it is. *)

Definition Qltb (a b : Q) : bool := negb (Qle_bool b a).

Definition py_max (a b : Q) : Q := if Qltb a b then b else a.
Definition py_min (a b : Q) : Q := if Qltb b a then b else a.

Definition Qnat (n : nat) : Q := inject_Z (Z.of_nat n).

(** ** Text of the list box

    [Pane._parse_entry_to_name] turns a row of the list box back into a
    file name: folders are shown with a trailing slash, the size view
    shows [name - N bytes]. *)

Module Text.

(** [s.rstrip(chars)] and [s.lstrip(chars)] for a set of characters. *)
Fixpoint rstrip (drop : ascii -> bool) (s : string) : string :=
  match s with
  | EmptyString => EmptyString
  | String c t =>
      match rstrip drop t with
      | EmptyString => if drop c then EmptyString else String c EmptyString
      | t' => String c t'
      end
  end.

Fixpoint lstrip (drop : ascii -> bool) (s : string) : string :=
  match s with
  | EmptyString => EmptyString
  | String c t => if drop c then lstrip drop t else s
  end.

(** White space, what [str.strip()] removes.  A character of the model
    is a code point below 256; among these Python takes as white space
    U+0009 to U+000D, U+001C to U+0020, U+0085 and U+00A0.  (Its other
    white-space characters, from U+1680 on, are no characters of the
    model.) *)
Definition is_space (c : ascii) : bool :=
  let n := nat_of_ascii c in
  ((9 <=? n)%nat && (n <=? 13)%nat) || ((28 <=? n)%nat && (n <=? 32)%nat)
  || (n =? 133)%nat || (n =? 160)%nat.

Definition strip (s : string) : string := lstrip is_space (rstrip is_space s).

(** [sep in s]. *)
Fixpoint contains (sep s : string) : bool :=
  String.prefix sep s
  || match s with
     | EmptyString => false
     | String _ t => contains sep t
     end.

(** [s.split(sep)] for a separator that is not empty: the separators
    are found from the left and do not overlap.  [skip] counts the
    characters of a separator just found that are still to be passed,
    [cur] is the piece being read. *)
Fixpoint split_from (sep : string) (skip : nat) (cur s : string) : list string :=
  match s with
  | EmptyString => [cur]
  | String c t =>
      match skip with
      | S k => split_from sep k cur t
      | O =>
          if String.prefix sep s
          then cur :: split_from sep (String.length sep - 1) EmptyString t
          else split_from sep 0 (cur ++ String c EmptyString) t
      end
  end.

Definition split (sep s : string) : list string := split_from sep 0 EmptyString s.

(** [s.endswith(suffix)]. *)
Definition endswith (s suffix : string) : bool :=
  let n := String.length s in
  let m := String.length suffix in
  (m <=? n)%nat && String.eqb (String.substring (n - m) m s) suffix.

End Text.

Definition _parse_entry_to_name (entry : string) : string :=
  let name := Text.rstrip (Ascii.eqb "/") entry in
  if Text.contains " - " name
     && Text.endswith (Text.strip (last (Text.split " - " name) "")) "bytes"
  then String.concat " - " (removelast (Text.split " - " name))
  else name.

(** ** The world: two panes over one file system *)

(** What the model keeps of a [Pane]: its directory, the rows selected in
    its list box ([listbox.get(i)] for [i] in [curselection()]), and the
    [value] and [maximum] of its progress bar. *)
Record Pane := mkPane {
  directory : option path;
  selection : list string;
  progress_value : Q;
  progress_maximum : Q
}.

Inductive pane_id := LeftPane | RightPane.

(** Calls that leave the process or that the properties below count, in
    the order they are made. *)
Inductive event :=
| SetProgress (pane : pane_id) (value maximum : Q)
| ShowInfo (title message : string)
| ShowError (title message : string)
| CopyStat (src dst : path)
| Unlinked (p : path)
| FlashSuccess (pane : pane_id).

Record World := mkWorld {
  fs : node;
  left_pane : Pane;
  right_pane : Pane;
  log : list event
}.

Definition pane_of (w : World) (i : pane_id) : Pane :=
  match i with LeftPane => left_pane w | RightPane => right_pane w end.

Definition with_pane (w : World) (i : pane_id) (p : Pane) : World :=
  match i with
  | LeftPane => mkWorld (fs w) p (right_pane w) (log w)
  | RightPane => mkWorld (fs w) (left_pane w) p (log w)
  end.

Definition with_fs (w : World) (f : node) : World :=
  mkWorld f (left_pane w) (right_pane w) (log w).

Definition with_event (w : World) (e : event) : World :=
  mkWorld (fs w) (left_pane w) (right_pane w) (log w ++ [e]).

(** ** Computations: state and exceptions

    A method takes the world and gives the world back together with its
    result or the exception it raised.  [OutOfFuel] is not a Python
    exception: it marks a loop of the model that was cut short, and
    [copy_loop_fuel] shows that the copy loop never is. *)

Inductive outcome (A : Type) :=
| Return (a : A)
| Raise (e : exn)
| OutOfFuel.
Arguments Return {A} a.
Arguments Raise {A} e.
Arguments OutOfFuel {A}.

Definition M (A : Type) : Type := World -> World * outcome A.

Definition ret {A} (a : A) : M A := fun w => (w, Return a).

Definition bind {A B} (m : M A) (k : A -> M B) : M B :=
  fun w =>
    match m w with
    | (w', Return a) => k a w'
    | (w', Raise e) => (w', Raise e)
    | (w', OutOfFuel) => (w', OutOfFuel)
    end.

Definition raise {A} (e : exn) : M A := fun w => (w, Raise e).

(** [try: m  except Exception as e: handler(e)]. *)
Definition try_except {A} (m : M A) (handler : exn -> M A) : M A :=
  fun w =>
    match m w with
    | (w', Raise e) => handler e w'
    | r => r
    end.

Declare Scope py_scope.
Delimit Scope py_scope with py.
Notation "x <- m ;; k" := (bind m (fun x => k))
  (at level 100, m at next level, right associativity) : py_scope.
Notation "m ;; k" := (bind m (fun _ => k))
  (at level 100, right associativity) : py_scope.
Open Scope py_scope.

Definition get_fs : M node := fun w => (w, Return (fs w)).
Definition get_pane (i : pane_id) : M Pane := fun w => (w, Return (pane_of w i)).
Definition emit (e : event) : M unit := fun w => (with_event w e, Return tt).

(** A call on the file system that changes it: the new tree is stored,
    an error is raised and leaves the tree as it was. *)
Definition fs_update (op : node -> exn + node) : M unit :=
  fun w =>
    match op (fs w) with
    | inr f => (with_fs w f, Return tt)
    | inl e => (w, Raise e)
    end.

(** A call on the file system that only reads. *)
Definition fs_read {A} (op : node -> exn + A) : M A :=
  fun w =>
    match op (fs w) with
    | inr a => (w, Return a)
    | inl e => (w, Raise e)
    end.

(** [for i, x in enumerate(l, start=i): body(i, x)]. *)
Fixpoint for_enumerate {A} (body : nat -> A -> M unit) (i : nat) (l : list A) : M unit :=
  match l with
  | [] => ret tt
  | x :: t => body i x ;; for_enumerate body (S i) t
  end.

(** ** [Pane]: progress bar, selection, listing *)

(** [Pane._set_progress].  The percentage label, a text computed from the
    two stored numbers, is not part of the model. *)
Definition _set_progress (self : pane_id) (value maximum : Q) : M unit :=
  fun w =>
    let p := pane_of w self in
    let maximum' := py_max 1%Q maximum in
    let value' := py_max 0%Q (py_min value maximum') in
    (with_event
       (with_pane w self (mkPane (directory p) (selection p) value' maximum'))
       (SetProgress self value maximum),
     Return tt).

(** [Pane._reset_progress]. *)
Definition _reset_progress (self : pane_id) : M unit :=
  p <- get_pane self ;;
  _set_progress self 0%Q (progress_maximum p).

(** [Pane.get_selected_paths]: the selected rows that name something
    existing in the pane's directory. *)
Definition get_selected_paths (self : pane_id) : M (list path) :=
  p <- get_pane self ;;
  match directory p with
  | None => ret []
  | Some d =>
      f <- get_fs ;;
      let names := map _parse_entry_to_name (selection p) in
      ret (filter (Posix.exists_ f)
                  (map (fun n => PurePath.div d (PurePath.Str n)) names))
  end.

(** [Pane._reset_list]: emptying the list box leaves nothing selected. *)
Definition _reset_list (self : pane_id) : M unit :=
  fun w =>
    let p := pane_of w self in
    (with_pane w self
       (mkPane (directory p) [] (progress_value p) (progress_maximum p)),
     Return tt).

(** [Pane.update_list_with_progress] for [total] rows: the rows themselves
    (their text, order and colour) are not part of the model, the progress
    bar is. *)
Definition update_list_with_progress (self : pane_id) (total : nat) : M unit :=
  _reset_list self ;;
  _set_progress self 0%Q (py_max 1%Q (Qnat total)) ;;
  for_enumerate
    (fun i (_ : unit) => _set_progress self (Qnat i) (py_max 1%Q (Qnat total)))
    1 (repeat tt total) ;;
  _reset_progress self.

Definition newline : string := String "010"%char EmptyString.

(** [Pane.list_all], which [Pane.list_contents] calls: one row for each
    entry of the directory; a directory that cannot be read is reported
    and listed as empty. *)
Definition list_all (self : pane_id) : M unit :=
  p <- get_pane self ;;
  match directory p with
  | None => ret tt
  | Some d =>
      total <- try_except
                 (es <- fs_read (fun f => Posix.scandir f d) ;;
                  ret (List.length es))
                 (fun e =>
                    emit (ShowError "List All"
                            ("Couldn't read directory:" ++ newline ++ exn_str e)) ;;
                    ret 0) ;;
      update_list_with_progress self total
  end.

Definition list_contents (self : pane_id) : M unit := list_all self.

(** [Pane.flash_success] shows the flash and schedules its end; the timer
    fires after the method that called it has returned. *)
Definition flash_success (self : pane_id) : M unit := emit (FlashSuccess self).

(** ** [DualPaneFileManager] *)

Definition get_opposite (pane : pane_id) : pane_id :=
  match pane with LeftPane => RightPane | RightPane => LeftPane end.

(** [DualPaneFileManager._collect_all_files]. *)
Definition _collect_all_files (f : node) (paths : list path) : list path :=
  flat_map
    (fun p =>
       if Posix.is_file f p then [p]
       else if Posix.is_dir f p then Posix.walk f p
       else [])
    paths.

(** The first [n] elements of a list, for a binary [n]. *)
Fixpoint take {A} (n : N) (l : list A) : list A :=
  match l with
  | [] => []
  | x :: t => if N.eqb n 0 then [] else x :: take (N.pred n) t
  end.

Definition chunk_size : N := 1024 * 1024.

(** [src_f.read(chunk_size)] with [copied] bytes read so far. *)
Definition read_chunk (f : node) (src_path : path) (copied : nat) : list byte :=
  take chunk_size (skipn copied (Posix.content_of f src_path)).

(** The [while True] loop of [_copy_with_progress]; it returns the final
    value of [copied]. *)
Fixpoint copy_loop (fuel : nat) (src_path dst_path : path) (pane : pane_id)
  (file_index total_files total_size copied : nat) {struct fuel} : M nat :=
  match fuel with
  | O => fun w => (w, OutOfFuel)
  | S fuel' =>
      f <- get_fs ;;
      let buf := read_chunk f src_path copied in
      match buf with
      | [] => ret copied
      | _ :: _ =>
          fs_update (fun f => Posix.write f dst_path buf) ;;
          let copied := copied + List.length buf in
          (if (0 <? total_size)%nat
           then _set_progress pane
                  (inject_Z (Z.of_nat file_index - 1)
                   + Qnat copied / Qnat total_size)%Q
                  (Qnat total_files)
           else _set_progress pane
                  (inject_Z (Z.of_nat file_index) - (1 # 2))%Q
                  (Qnat total_files)) ;;
          copy_loop fuel' src_path dst_path pane
            file_index total_files total_size copied
      end
  end.

(** [DualPaneFileManager._copy_with_progress].  Both files are opened
    before the first byte is read, the source first.  [shutil.copystat]
    copies times and permission bits, which the tree does not hold; the
    call is logged and its failure ignored, as in the program.  The
    method returns nothing; the model hands back the final value of
    [copied] for the properties to speak about. *)
Definition _copy_with_progress (src_path dst_path : path) (pane : pane_id)
  (file_index total_files : nat) : M nat :=
  total_size <- try_except (fs_read (fun f => Posix.getsize f src_path))
                           (fun _ => ret 0) ;;
  fs_read (fun f => Posix.open_rb f src_path) ;;
  fs_update (fun f => Posix.open_wb f dst_path) ;;
  f <- get_fs ;;
  copied <- copy_loop (S (List.length (Posix.content_of f src_path)))
              src_path dst_path pane file_index total_files total_size 0 ;;
  emit (CopyStat src_path dst_path) ;;
  _set_progress pane (Qnat file_index) (Qnat total_files) ;;
  ret copied.

(** The path of [p] below the destination directory:
[[
    if len(files) == 1 and files[0].is_dir():
        rel_path = p.relative_to(files[0].parent)
    else:
        rel_path = p.name
]] *)
Definition rel_path (f : node) (files : list path) (p : path)
  : exn + PurePath.pathlike :=
  match files with
  | [d] =>
      if Posix.is_dir f d
      then match PurePath.relative_to p (PurePath.parent d) with
           | inr r => inr (PurePath.Rel r)
           | inl e => inl e
           end
      else inr (PurePath.Str (PurePath.name p))
  | _ => inr (PurePath.Str (PurePath.name p))
  end.

Definition select_message : string :=
  "Select items and set a destination directory in the other pane.".

(** The body of the [for] loop of [_copy_files]. *)
Definition copy_entry (files : list path) (dst : pane_id) (dst_directory : path)
  (total_files : nat) (i : nat) (p : path) : M unit :=
  rel <- fs_read (fun f => rel_path f files p) ;;
  let target := PurePath.div dst_directory rel in
  fs_update (fun f => Posix.mkdir_parents f (PurePath.parent target)) ;;
  _copy_with_progress p target dst i total_files ;;
  ret tt.

(** [DualPaneFileManager._copy_files].  The directory of the destination
    pane, read at every turn of the loop in the program, is read once:
    nothing in the loop changes it. *)
Definition _copy_files (src dst : pane_id) : M unit :=
  files <- get_selected_paths src ;;
  d <- get_pane dst ;;
  match files, directory d with
  | [], _ | _, None => emit (ShowInfo "Copy" select_message)
  | _ :: _, Some dst_directory =>
      f <- get_fs ;;
      let all_files := _collect_all_files f files in
      _set_progress dst 0%Q (Qnat (List.length all_files)) ;;
      for_enumerate
        (copy_entry files dst dst_directory (List.length all_files))
        1 all_files ;;
      _reset_progress dst ;;
      list_contents dst ;;
      flash_success dst
  end.

(** The body of the [for] loop of [_move_files]. *)
Definition move_entry (files : list path) (dst : pane_id) (dst_directory : path)
  (total_files : nat) (i : nat) (p : path) : M unit :=
  rel <- fs_read (fun f => rel_path f files p) ;;
  let target := PurePath.div dst_directory rel in
  fs_update (fun f => Posix.mkdir_parents f (PurePath.parent target)) ;;
  _copy_with_progress p target dst i total_files ;;
  try_except
    (fs_update (fun f => Posix.unlink f p) ;; emit (Unlinked p))
    (fun e =>
       emit (ShowError "Move"
               ("Could not remove " ++ PurePath.name p ++ ": " ++ exn_str e))).

(** [DualPaneFileManager._move_files]. *)
Definition _move_files (src dst : pane_id) : M unit :=
  files <- get_selected_paths src ;;
  d <- get_pane dst ;;
  match files, directory d with
  | [], _ | _, None => emit (ShowInfo "Move" select_message)
  | _ :: _, Some dst_directory =>
      f <- get_fs ;;
      let all_files := _collect_all_files f files in
      _set_progress dst 0%Q (Qnat (List.length all_files)) ;;
      for_enumerate
        (move_entry files dst dst_directory (List.length all_files))
        1 all_files ;;
      _reset_progress dst ;;
      list_contents src ;;
      list_contents dst ;;
      flash_success dst
  end.

Definition copy_between (src : pane_id) : M unit := _copy_files src (get_opposite src).
Definition move_between (src : pane_id) : M unit := _move_files src (get_opposite src).

(** ** More of [Pane]: navigation, clearing, deleting

    The bell of [go_up] is a sound and [last_command] only serves the
    refresh timer; neither is part of the model.  The answer to the
    confirmation box of [delete_selected_with_confirm] is an argument. *)

Fixpoint path_eqb (p q : path) : bool :=
  match p, q with
  | [], [] => true
  | a :: p', b :: q' => String.eqb a b && path_eqb p' q'
  | _, _ => false
  end.

(** [Path.resolve]: the tree has no links and the paths of the model hold
    no dots, so an absolute path is its own resolution. *)
Definition resolve (p : path) : path := p.

(** The assignment [self.directory = d]. *)
Definition set_directory (self : pane_id) (d : option path) : M unit :=
  fun w =>
    let p := pane_of w self in
    (with_pane w self
       (mkPane d (selection p) (progress_value p) (progress_maximum p)),
     Return tt).

(** [Pane.go_up]. *)
Definition go_up (self : pane_id) : M unit :=
  p <- get_pane self ;;
  match directory p with
  | None => ret tt
  | Some d =>
      let parent := PurePath.parent d in
      if path_eqb parent d then ret tt
      else set_directory self (Some (resolve parent)) ;; list_contents self
  end.

(** [Pane._on_double_click]: the first selected row is opened when it
    names a directory.  Nothing in the [try] raises in the model. *)
Definition _on_double_click (self : pane_id) : M unit :=
  p <- get_pane self ;;
  match selection p, directory p with
  | row :: _, Some d =>
      let path := PurePath.div d (PurePath.Str (_parse_entry_to_name row)) in
      f <- get_fs ;;
      if Posix.is_dir f path
      then set_directory self (Some (resolve path)) ;; list_contents self
      else ret tt
  | _, _ => ret tt
  end.

(** [Pane.clear_pane]. *)
Definition clear_pane (self : pane_id) : M unit :=
  set_directory self None ;; _reset_list self.

(** [for x in l: body(x)]. *)
Definition for_each {A} (body : A -> M unit) (l : list A) : M unit :=
  for_enumerate (fun _ x => body x) 0 l.

(** [shutil.rmtree(p)]: the directory and all it holds is removed.  The
    root cannot be removed: it is emptied and the call raises. *)
Definition rmtree (p : path) : M unit :=
  match p with
  | [] =>
      fun w =>
        match fs w with
        | Dir _ => (with_fs w (Dir []), Raise OSError)
        | _ => (w, Raise NotADirectoryError)
        end
  | _ :: _ =>
      fs_update
        (fun f =>
           Posix.alter
             (fun o =>
                match o with
                | Some (Dir _) => inr None
                | Some _ => inl NotADirectoryError
                | None => inl FileNotFoundError
                end) f p)
  end.

(** The body of the loop of [delete_selected_with_confirm]. *)
Definition delete_path (p : path) : M unit :=
  try_except
    (f <- get_fs ;;
     if Posix.is_dir f p then rmtree p
     else fs_update (fun f => Posix.unlink f p))
    (fun e =>
       emit (ShowError "Error"
               ("Could not delete " ++ PurePath.name p ++ ": " ++ exn_str e))).

(** [Pane.delete_selected_with_confirm]; [confirmed] is the answer to
    the question "Are you sure you want to delete selected item(s)?". *)
Definition delete_selected_with_confirm (self : pane_id) (confirmed : bool)
  : M unit :=
  paths <- get_selected_paths self ;;
  match paths with
  | [] => emit (ShowInfo "Delete" "Please select one or more items to delete.")
  | _ :: _ =>
      if negb confirmed then ret tt
      else for_each delete_path paths ;; list_contents self
  end.

(** ** Rows of the listings

    [list_all] shows a folder under its name followed by a slash and
    anything else under its name; [sort_files_size] shows a regular file
    as [name - N bytes].  The order of the rows is not part of the
    model. *)

(** [str(n)] for a size. *)
Definition decimal (n : nat) : string :=
  DecimalString.NilEmpty.string_of_uint (Nat.to_uint n).

(** The row of [list_all] for the entry [name] that is the node [x]. *)
Definition all_row (name : string) (x : node) : string :=
  if Posix.is_dir_node x then name ++ "/" else name.

(** The row of [sort_files_size] for the file [name] of [size] bytes. *)
Definition size_row (name : string) (size : nat) : string :=
  name ++ " - " ++ decimal size ++ " bytes".

(** * Observations the properties are stated with *)

(** ** What [_set_progress] stores *)

Definition progress_pair (w : World) (i : pane_id) : Q * Q :=
  (progress_value (pane_of w i), progress_maximum (pane_of w i)).

(** The two ways the program changes a progress bar. *)
Inductive progress_update :=
| Set_progress (value maximum : Q)
| Reset_progress.

Definition apply_update (self : pane_id) (u : progress_update) : M unit :=
  match u with
  | Set_progress v m => _set_progress self v m
  | Reset_progress => _reset_progress self
  end.

(** The worlds reached after each update of a sequence. *)
Fixpoint worlds_after (self : pane_id) (us : list progress_update) (w : World)
  : list World :=
  match us with
  | [] => []
  | u :: t =>
      let w' := fst (apply_update self u w) in
      w' :: worlds_after self t w'
  end.

Definition progress_in_range (self : pane_id) (w : World) : Prop :=
  (0 <= progress_value (pane_of w self))%Q
  /\ (progress_value (pane_of w self) <= progress_maximum (pane_of w self))%Q
  /\ (1 <= progress_maximum (pane_of w self))%Q.

(** ** The outcome of a transfer

    [_copy_files] and [_move_files] return nothing.  The outcome the
    specification describes is read off the log of a run: a file counts
    as succeeded once its copy was finished ([shutil.copystat] is called
    right after the two files are closed) and, for a move, once it was
    unlinked; a failure is an error box of the transfer, or the exception
    that ended the run. *)

Inductive mode := Copy | Move.

Definition run (m : mode) : pane_id -> pane_id -> M unit :=
  match m with Copy => _copy_files | Move => _move_files end.

Definition is_copystat (e : event) : bool :=
  match e with CopyStat _ _ => true | _ => false end.

Definition is_unlinked (e : event) : bool :=
  match e with Unlinked _ => true | _ => false end.

Definition is_progress (e : event) : bool :=
  match e with SetProgress _ _ _ => true | _ => false end.

(** The texts of the error boxes of a transfer. *)
Definition transfer_errors (l : list event) : list string :=
  flat_map
    (fun e =>
       match e with
       | ShowError title message =>
           if String.eqb title "Copy" || String.eqb title "Move"
           then [message] else []
       | _ => []
       end) l.

Definition completed (m : mode) (l : list event) : nat :=
  match m with
  | Copy => List.length (filter is_copystat l)
  | Move => List.length (filter is_unlinked l)
  end.

Record TransferOutcome := mkOutcome {
  succeeded : nat;
  failed : list string
}.

(** The outcome of a run that started in [w] and ended as [r]. *)
Definition outcome_of (m : mode) (w : World) (r : World * outcome unit)
  : TransferOutcome :=
  {| succeeded := completed m (log (fst r)) - completed m (log w);
     failed :=
       skipn (List.length (transfer_errors (log w))) (transfer_errors (log (fst r)))
       ++ match snd r with
          | Raise e => [exn_str e]
          | _ => []
          end |}.

(** The events a run added to the log. *)
Definition events_since (w w' : World) : list event :=
  skipn (List.length (log w)) (log w').

(** A progress bar at rest: [0] of at least [1]. *)
Definition at_rest (i : pane_id) (w : World) : Prop :=
  progress_value (pane_of w i) = 0%Q /\ (1 <= progress_maximum (pane_of w i))%Q.

(** The paths a transfer started in [w] from the pane [src] works on. *)
Definition selected_paths (src : pane_id) (w : World) : list path :=
  match snd (get_selected_paths src w) with
  | Return files => files
  | _ => []
  end.

(** Events that do not count for the outcome of a transfer. *)
Definition quiet (e : event) : bool :=
  match e with
  | CopyStat _ _ | Unlinked _ => false
  | ShowError title _ => negb (String.eqb title "Copy" || String.eqb title "Move")
  | _ => true
  end.

(** The plan of a transfer started in [w] from the pane [src]. *)
Definition plan_of (src : pane_id) (w : World) : list path :=
  _collect_all_files (fs w) (selected_paths src w).

(** What a run has finished and what it has reported so far. *)
Definition tally (m : mode) (w : World) : nat * nat :=
  (completed m (log w), List.length (transfer_errors (log w))).

(** One more file accounted for: finished, or reported as failed. *)
Definition one_more (t t' : nat * nat) : Prop :=
  (fst t' = S (fst t) /\ snd t' = snd t) \/ (fst t' = fst t /\ snd t' = S (snd t)).

(** A transfer that was not rejected has three stages: the first update
    of the progress bar, the loop over the plan, and what follows the
    loop.  [entry] is the body of the loop, [finish] what comes after the
    update that follows it. *)
Definition entry (m : mode)
  : list path -> pane_id -> path -> nat -> nat -> path -> M unit :=
  match m with Copy => copy_entry | Move => move_entry end.

Definition finish (m : mode) (src dst : pane_id) : M unit :=
  match m with
  | Copy => list_contents dst ;; flash_success dst
  | Move => list_contents src ;; list_contents dst ;; flash_success dst
  end.

(** ** Worlds used as examples *)

Definition bytes (s : string) : list byte := list_byte_of_string s.

(** A pane as it is created: the progress bar of Tk starts at 0 of 100. *)
Definition fresh_pane (d : option path) (rows : list string) : Pane :=
  mkPane d rows 0%Q 100%Q.

(** [/s] holds two files and a folder with a nested folder, [/d] is
    empty. *)
Definition plain_fs : node :=
  Dir [("s", Dir [("a.txt", File (bytes "hi"));
                  ("e.txt", File []);
                  ("Foo", Dir [("x.bin", File (bytes "x"));
                               ("sub", Dir [("y.bin", File (bytes "yy"))])])]);
       ("d", Dir [])].

Definition plain_world (rows : list string) : World :=
  mkWorld plain_fs (fresh_pane (Some ["s"]) rows) (fresh_pane (Some ["d"]) []) [].

(** [/d/a.txt] is a folder, so [/s/a.txt] cannot be written there. *)
Definition blocked_world : World :=
  mkWorld
    (Dir [("s", Dir [("a.txt", File (bytes "hi")); ("b.txt", File (bytes "yo"))]);
          ("d", Dir [("a.txt", Dir [])])])
    (fresh_pane (Some ["s"]) ["a.txt"; "b.txt"])
    (fresh_pane (Some ["d"]) [])
    [].

(** Both panes show [/s]. *)
Definition same_dir_world : World :=
  mkWorld
    (Dir [("s", Dir [("a.txt", File (bytes "hi"))])])
    (fresh_pane (Some ["s"]) ["a.txt"])
    (fresh_pane (Some ["s"]) [])
    [].

(** The folder [/s/Foo] holds a regular file and a socket. *)
Definition socket_world : World :=
  mkWorld
    (Dir [("s", Dir [("Foo", Dir [("x.bin", File (bytes "x")); ("ctl.sock", Special)])]);
          ("d", Dir [])])
    (fresh_pane (Some ["s"]) ["Foo/"])
    (fresh_pane (Some ["d"]) [])
    [].

(** ** Observations on navigation, deletion and rows *)

(** [q] is [p] or lies below it. *)
Fixpoint is_below (p q : path) : bool :=
  match p, q with
  | [], _ => true
  | a :: p', b :: q' => String.eqb a b && is_below p' q'
  | _ :: _, [] => false
  end.

(** The character [c] occurs in [s]. *)
Fixpoint has_char (c : ascii) (s : string) : bool :=
  match s with
  | EmptyString => false
  | String a t => Ascii.eqb c a || has_char c t
  end.

(** A name without a slash and without [" - "], other than the empty
    name and the dot. *)
Definition plain_name (name : string) : Prop :=
  has_char "/" name = false /\ Text.contains " - " name = false /\
  name <> "" /\ name <> ".".

(** The rows [list_all] shows for the entries [chosen]. *)
Definition rows_of (chosen : list (string * node)) : list string :=
  map (fun e => all_row (fst e) (snd e)) chosen.

(** An argument of [Posix.alter] that stores nothing: it removes the
    entry or fails. *)
Definition remover (g : option node -> exn + option node) : Prop :=
  forall o v, g o <> inr (Some v).

(** The paths of the entries [names] of the directory [d]. *)
Definition children (d : path) (names : list string) : list path :=
  map (fun n => d ++ [n]) names.

(** Where a selected file [p] goes when it is transferred under its own
    name into the directory [d]. *)
Definition flat_target (d p : path) : path :=
  PurePath.div d (PurePath.Str (PurePath.name p)).

(** At [t] there is nothing, or a regular file. *)
Definition free_or_file (f : node) (t : path) : bool :=
  match Posix.lookup f t with
  | None | Some (File _) => true
  | Some _ => false
  end.

(** Below [R] the tree [f] holds nothing but what the tree [f0] holds at
    the same place below the folder [d0]: directories where [f0] has
    directories, regular files where it has regular files. *)
Definition mirrors (f0 : node) (d0 : path) (f : node) (R : path) : Prop :=
  forall r,
    match Posix.lookup f (R ++ r) with
    | None => True
    | Some (Dir _) => Posix.is_dir f0 (d0 ++ r) = true
    | Some (File _) => Posix.is_file f0 (d0 ++ r) = true
    | Some Special => False
    end.



(** A string that can be the name of a directory entry, or stands for
    the directory itself: it has no slash and is not [..]. *)
Definition entry_name (n : string) : Prop :=
  has_char "/" n = false /\ n <> "..".


(** A folder whose name holds the separator of the listing by size. *)
Definition album_world : World :=
  mkWorld
    (Dir [("s", Dir [("Artist - Album", Dir [("song.ogg", File (bytes "la"))])]);
          ("d", Dir [])])
    (fresh_pane (Some ["s"]) ["Artist - Album/"])
    (fresh_pane (Some ["d"]) [])
    [].

(** A folder that holds folders but no file, selected on the left. *)
Definition hollow_world : World :=
  mkWorld
    (Dir [("s", Dir [("Hollow", Dir [("sub", Dir [])])]); ("d", Dir [])])
    (fresh_pane (Some ["s"]) ["Hollow/"])
    (fresh_pane (Some ["d"]) [])
    [].

(** * Properties *)

(** ** The clamp of [_set_progress] *)

Section Clamp.

Lemma Qltb_true (a b : Q) : Qltb a b = true <-> (a < b)%Q.
Proof.
  unfold Qltb. rewrite negb_true_iff. split.
  - intros H. apply Qnot_le_lt. intros Hle.
    apply Qle_bool_iff in Hle. congruence.
  - intros H. destruct (Qle_bool b a) eqn:E; [|reflexivity].
    apply Qle_bool_iff in E. exfalso. exact (Qlt_not_le _ _ H E).
Qed.

Lemma Qltb_false (a b : Q) : Qltb a b = false <-> (b <= a)%Q.
Proof.
  unfold Qltb. rewrite negb_false_iff. apply Qle_bool_iff.
Qed.

Lemma py_max_lower (a b : Q) : (a <= py_max a b)%Q.
Proof.
  unfold py_max. destruct (Qltb a b) eqn:E.
  - apply Qltb_true in E. apply Qlt_le_weak. exact E.
  - apply Qle_refl.
Qed.

Lemma py_max_upper (a b c : Q) : (a <= c)%Q -> (b <= c)%Q -> (py_max a b <= c)%Q.
Proof. unfold py_max. destruct (Qltb a b); auto. Qed.

Lemma py_min_upper (a b : Q) : (py_min a b <= b)%Q.
Proof.
  unfold py_min. destruct (Qltb b a) eqn:E.
  - apply Qle_refl.
  - apply Qltb_false in E. exact E.
Qed.

(** The stored value lies between [0] and the stored maximum, and the
    stored maximum is at least [1], whatever the arguments. *)
Lemma clamp_bounds (value maximum : Q) :
  let maximum' := py_max 1%Q maximum in
  let value' := py_max 0%Q (py_min value maximum') in
  (1 <= maximum')%Q /\ (0 <= value')%Q /\ (value' <= maximum')%Q.
Proof.
  cbv zeta. split; [apply py_max_lower|]. split; [apply py_max_lower|].
  apply py_max_upper.
  - apply Qle_trans with 1%Q; [discriminate | apply py_max_lower].
  - apply py_min_upper.
Qed.

(** Clamping a maximum that is already clamped changes nothing. *)
Lemma py_max_1_idem (m : Q) : py_max 1%Q (py_max 1%Q m) = py_max 1%Q m.
Proof.
  unfold py_max at 2 3. destruct (Qltb 1 m) eqn:E.
  - unfold py_max. rewrite E. reflexivity.
  - reflexivity.
Qed.

(** A value of [0] is stored as [0]. *)
Lemma clamp_zero (m : Q) : py_max 0%Q (py_min 0%Q (py_max 1%Q m)) = 0%Q.
Proof.
  assert (H : Qltb (py_max 1%Q m) 0%Q = false).
  { apply Qltb_false. apply Qle_trans with 1%Q; [discriminate | apply py_max_lower]. }
  unfold py_min. rewrite H. reflexivity.
Qed.

Lemma py_max_right (a b : Q) : (b <= py_max a b)%Q.
Proof.
  unfold py_max. destruct (Qltb a b) eqn:E.
  - apply Qle_refl.
  - apply Qltb_false in E. exact E.
Qed.

Lemma Qnat_le (a b : nat) : (a <= b)%nat -> (Qnat a <= Qnat b)%Q.
Proof. intros H. unfold Qnat. rewrite <- Zle_Qle. lia. Qed.

(** The [i]-th file of [n] reported as complete is stored as [i]. *)
Lemma clamp_index (i n : nat) :
  (1 <= i)%nat -> (i <= n)%nat ->
  py_max 0%Q (py_min (Qnat i) (py_max 1%Q (Qnat n))) = Qnat i.
Proof.
  intros H1 Hn.
  assert (Hmin : Qltb (py_max 1%Q (Qnat n)) (Qnat i) = false).
  { apply Qltb_false. apply Qle_trans with (Qnat n);
      [apply Qnat_le; exact Hn | apply py_max_right]. }
  unfold py_min. rewrite Hmin.
  assert (Hpos : Qltb 0%Q (Qnat i) = true).
  { apply Qltb_true. unfold Qnat. change 0%Q with (inject_Z 0).
    rewrite <- Zlt_Qlt. lia. }
  unfold py_max at 1. rewrite Hpos. reflexivity.
Qed.

End Clamp.


Lemma pane_of_with_pane_other (w : World) (i j : pane_id) (p : Pane) :
  i <> j -> pane_of (with_pane w i p) j = pane_of w j.
Proof. destruct i, j; intros H; try reflexivity; congruence. Qed.

Lemma set_progress_returns (self : pane_id) (v m : Q) (w : World) :
  snd (_set_progress self v m w) = Return tt.
Proof. reflexivity. Qed.

Lemma set_progress_pair (self : pane_id) (v m : Q) (w : World) :
  progress_pair (fst (_set_progress self v m w)) self
  = (py_max 0%Q (py_min v (py_max 1%Q m)), py_max 1%Q m).
Proof.
  unfold progress_pair, _set_progress. cbn [fst].
  unfold with_event. cbn [pane_of left_pane right_pane].
  destruct self; reflexivity.
Qed.

Lemma set_progress_value (self : pane_id) (v m : Q) (w : World) :
  progress_value (pane_of (fst (_set_progress self v m w)) self)
  = py_max 0%Q (py_min v (py_max 1%Q m)).
Proof. destruct self; reflexivity. Qed.

Lemma set_progress_maximum (self : pane_id) (v m : Q) (w : World) :
  progress_maximum (pane_of (fst (_set_progress self v m w)) self) = py_max 1%Q m.
Proof. destruct self; reflexivity. Qed.

Lemma reset_progress_eq (self : pane_id) (w : World) :
  _reset_progress self w
  = _set_progress self 0%Q (progress_maximum (pane_of w self)) w.
Proof. reflexivity. Qed.

(** ** C9: the value never exceeds the maximum *)

Lemma apply_update_in_range (self : pane_id) (u : progress_update) (w : World) :
  progress_in_range self (fst (apply_update self u w)).
Proof.
  assert (H : forall v m, progress_in_range self (fst (_set_progress self v m w))).
  { intros v m. pose proof (clamp_bounds v m) as B. cbv zeta in B.
    unfold progress_in_range, _set_progress, with_event.
    destruct self; cbn [fst pane_of with_pane left_pane right_pane
                          progress_value progress_maximum]; tauto. }
  destruct u as [v m|]; cbn [apply_update].
  - apply H.
  - rewrite reset_progress_eq. apply H.
Qed.

(** C9.  For every sequence of progress updates applied to a pane, from
    any world, the stored value is at most the stored maximum after each
    update of the sequence (and it is never negative, and the maximum is
    never below 1). *)
Theorem progress_current_le_total (self : pane_id) (us : list progress_update) (w : World) :
  Forall (fun w' =>
            (progress_value (pane_of w' self) <= progress_maximum (pane_of w' self))%Q
            /\ progress_in_range self w')
         (worlds_after self us w).
Proof.
  revert w. induction us as [|u t IH]; intros w; cbn [worlds_after].
  - constructor.
  - constructor.
    + pose proof (apply_update_in_range self u w) as H.
      split; [apply H | exact H].
    + apply IH.
Qed.

(** ** C6: a transfer without a selection or without a destination *)

Lemma get_selected_paths_nothing (self : pane_id) (w : World) :
  selection (pane_of w self) = [] ->
  get_selected_paths self w = (w, Return []).
Proof.
  intros H. unfold get_selected_paths, bind, get_pane, get_fs, ret.
  destruct (directory (pane_of w self)); [|reflexivity].
  rewrite H. reflexivity.
Qed.

Lemma get_selected_paths_reads (self : pane_id) (w : World) :
  exists files, get_selected_paths self w = (w, Return files).
Proof.
  unfold get_selected_paths, bind, get_pane, get_fs, ret.
  destruct (directory (pane_of w self)); eexists; reflexivity.
Qed.

(** C6.  When the acting pane has nothing selected, or the other pane has
    no directory, Copy and Move only show the information box and return:
    the file system and both panes are as before, nothing else is logged. *)
Theorem transfer_rejected (src dst : pane_id) (w : World) :
  selection (pane_of w src) = [] \/ directory (pane_of w dst) = None ->
  _copy_files src dst w
  = (mkWorld (fs w) (left_pane w) (right_pane w)
       (log w ++ [ShowInfo "Copy" select_message]), Return tt)
  /\ _move_files src dst w
     = (mkWorld (fs w) (left_pane w) (right_pane w)
          (log w ++ [ShowInfo "Move" select_message]), Return tt).
Proof.
  intros [Hsel | Hdir].
  - unfold _copy_files, _move_files, bind.
    rewrite (get_selected_paths_nothing src w Hsel). split; reflexivity.
  - unfold _copy_files, _move_files, bind.
    destruct (get_selected_paths_reads src w) as [files ->].
    unfold get_pane. rewrite Hdir. destruct files; split; reflexivity.
Qed.

(** ** The file system: what a change at one path does to the others *)

Section Tree.

Import Posix.

Lemma assoc_set_entry_same (c : string) (v : node) (es : list (string * node)) :
  assoc c (set_entry c v es) = Some v.
Proof.
  induction es as [|[k x] t IH]; cbn.
  - rewrite String.eqb_refl. reflexivity.
  - destruct (String.eqb k c) eqn:E; cbn; rewrite E; auto.
Qed.

Lemma assoc_set_entry_other (c c' : string) (v : node) (es : list (string * node)) :
  c' <> c -> assoc c' (set_entry c v es) = assoc c' es.
Proof.
  intros Hne. induction es as [|[k x] t IH]; cbn.
  - destruct (String.eqb c c') eqn:E; [|reflexivity].
    apply String.eqb_eq in E. congruence.
  - destruct (String.eqb k c) eqn:E; cbn.
    + apply String.eqb_eq in E. subst k.
      destruct (String.eqb c c') eqn:E'; [|reflexivity].
      apply String.eqb_eq in E'. congruence.
    + rewrite IH. reflexivity.
Qed.

(** A change that stores a node: the node is found at the path
    afterwards, and it is what [g] made of the node found before. *)
Lemma alter_stores (g : option node -> exn + option node) :
  (forall o, g o <> inr None) ->
  forall p n n',
    alter g n p = inr n' ->
    exists v, g (lookup n p) = inr (Some v) /\ stat n' p = inr v.
Proof.
  intros Hg. induction p as [|c rest IH]; intros n n' H.
  - cbn in H. unfold lookup. cbn.
    destruct (g (Some n)) as [e|[v|]] eqn:E; try discriminate.
    injection H as <-. exists v. auto.
  - cbn in H. destruct n as [cnt|es|]; try discriminate.
    destruct rest as [|c2 rest].
    + unfold lookup. cbn.
      assert (Ho : match assoc c es with
                   | Some child => Some child | None => None end = assoc c es)
        by (destruct (assoc c es); reflexivity).
      destruct (g (assoc c es)) as [e|[v|]] eqn:E; try discriminate.
      * injection H as <-. exists v. split.
        -- destruct (assoc c es); exact E.
        -- rewrite assoc_set_entry_same. reflexivity.
      * exfalso. exact (Hg _ E).
    + destruct (assoc c es) as [child|] eqn:Ea; try discriminate.
      destruct (alter g child (c2 :: rest)) as [e|child'] eqn:Ec; try discriminate.
      injection H as <-.
      destruct (IH _ _ Ec) as [v [Hv Hs]]. exists v. split.
      * unfold lookup in *. cbn [stat]. rewrite Ea. exact Hv.
      * cbn [stat]. rewrite assoc_set_entry_same. exact Hs.
Qed.

(** A change that is made at a node found by [stat] goes through when
    [g] accepts that node. *)
Lemma alter_defined (g : option node -> exn + option node) :
  forall p n x v,
    stat n p = inr x -> g (Some x) = inr (Some v) ->
    exists n', alter g n p = inr n'.
Proof.
  induction p as [|c rest IH]; intros n x v Hs Hg.
  - cbn in Hs. injection Hs as <-. cbn. rewrite Hg. eauto.
  - cbn in Hs. destruct n as [cnt|es|]; try discriminate.
    destruct (assoc c es) as [child|] eqn:Ea; try discriminate.
    cbn [alter]. destruct rest as [|c2 rest].
    + cbn in Hs. injection Hs as <-. rewrite Ea, Hg. eauto.
    + rewrite Ea. destruct (IH _ _ _ Hs Hg) as [child' ->]. eauto.
Qed.

(** A change that neither removes an entry nor touches or stores a
    directory leaves every regular file at another path as it was. *)
Lemma alter_frame (g : option node -> exn + option node) :
  (forall o, g o <> inr None) ->
  (forall o v, g o = inr (Some v) -> is_dir_node v = false) ->
  (forall es, exists e, g (Some (Dir es)) = inl e) ->
  forall p n n' q c,
    alter g n p = inr n' -> q <> p ->
    (stat n' q = inr (File c) <-> stat n q = inr (File c)).
Proof.
  intros Hrm Hnd Hd.
  assert (Hfile : forall (x : node) (r : path) (c : list byte),
             is_dir_node x = false -> r <> [] -> stat x r <> inr (File c)).
  { intros x r c Hx Hr. destruct r; [congruence|]. destruct x; cbn in *; congruence. }
  induction p as [|k rest IH]; intros n n' q c H Hq.
  - cbn in H. destruct (g (Some n)) as [e|[v|]] eqn:E; try discriminate.
    injection H as <-.
    assert (Hn : is_dir_node n = false).
    { destruct n as [cnt|es|]; try reflexivity.
      destruct (Hd es) as [e He]. congruence. }
    pose proof (Hnd _ _ E) as Hv.
    split; intros F; exfalso.
    + exact (Hfile _ _ _ Hv Hq F).
    + exact (Hfile _ _ _ Hn Hq F).
  - cbn in H. destruct n as [cnt|es|]; try discriminate.
    destruct q as [|k' q'].
    { destruct rest as [|k2 rest].
      - destruct (g (assoc k es)) as [e|[v|]]; try discriminate;
          injection H as <-; cbn; split; discriminate.
      - destruct (assoc k es); try discriminate.
        destruct (alter g n (k2 :: rest)); try discriminate.
        injection H as <-; cbn; split; discriminate. }
    destruct (string_dec k' k) as [->|Hk].
    + assert (Hq' : q' <> rest) by congruence.
      destruct rest as [|k2 rest].
      * destruct (g (assoc k es)) as [e|[v|]] eqn:E; try discriminate.
        2:{ exfalso. exact (Hrm _ E). }
        injection H as <-. cbn [stat]. rewrite assoc_set_entry_same.
        pose proof (Hnd _ _ E) as Hv.
        split; intros F; exfalso.
        -- exact (Hfile _ _ _ Hv Hq' F).
        -- cbn [stat] in F.
           destruct (assoc k es) as [x|] eqn:Ea; try discriminate.
           assert (Hx : is_dir_node x = false).
           { destruct x as [cnt|es'|]; try reflexivity.
             destruct (Hd es') as [e He]. congruence. }
           exact (Hfile _ _ _ Hx Hq' F).
      * destruct (assoc k es) as [child|] eqn:Ea; try discriminate.
        destruct (alter g child (k2 :: rest)) as [e|child'] eqn:Ec; try discriminate.
        injection H as <-. cbn [stat]. rewrite assoc_set_entry_same, Ea.
        apply IH; assumption.
    + assert (Hsame : forall v, stat (Dir (set_entry k v es)) (k' :: q')
                                = stat (Dir es) (k' :: q')).
      { intros v. cbn [stat]. rewrite assoc_set_entry_other by assumption. reflexivity. }
      destruct rest as [|k2 rest].
      * destruct (g (assoc k es)) as [e|[v|]] eqn:E; try discriminate.
        2:{ exfalso. exact (Hrm _ E). }
        injection H as <-. rewrite Hsame. tauto.
      * destruct (assoc k es) as [child|] eqn:Ea; try discriminate.
        destruct (alter g child (k2 :: rest)) as [e|child'] eqn:Ec; try discriminate.
        injection H as <-. rewrite Hsame. tauto.
Qed.

Lemma open_wb_truncates (f f1 : node) (p : path) :
  open_wb f p = inr f1 -> stat f1 p = inr (File []).
Proof.
  intros H. unfold open_wb in H.
  apply alter_stores in H.
  - destruct H as [v [Hv Hs]].
    destruct (lookup f p) as [[cnt|es|]|]; try discriminate;
      injection Hv as <-; exact Hs.
  - intros [[cnt|es|]|]; discriminate.
Qed.

Lemma open_wb_defined (f : node) (p : path) (old : list byte) :
  stat f p = inr (File old) -> exists f1, open_wb f p = inr f1.
Proof.
  intros H. unfold open_wb. eapply alter_defined; [exact H | reflexivity].
Qed.

Lemma open_wb_frame (f f1 : node) (p q : path) (c : list byte) :
  open_wb f p = inr f1 -> q <> p ->
  (stat f1 q = inr (File c) <-> stat f q = inr (File c)).
Proof.
  intros H Hq. unfold open_wb in H. eapply alter_frame; try exact H; try exact Hq.
  - intros [[cnt|es|]|]; discriminate.
  - intros [[cnt|es|]|] v E; try discriminate; injection E as <-; reflexivity.
  - intros es. eexists. reflexivity.
Qed.

Lemma write_appends (f f' : node) (p : path) (buf : list byte) :
  write f p buf = inr f' ->
  exists c, stat f p = inr (File c) /\ stat f' p = inr (File (c ++ buf)).
Proof.
  intros H. unfold write in H. apply alter_stores in H.
  - destruct H as [v [Hv Hs]]. unfold lookup in Hv.
    destruct (stat f p) as [e|[cnt|es|]] eqn:E; try discriminate.
    injection Hv as <-. exists cnt. auto.
  - intros [[cnt|es|]|]; discriminate.
Qed.

Lemma write_frame (f f' : node) (p q : path) (buf c : list byte) :
  write f p buf = inr f' -> q <> p ->
  (stat f' q = inr (File c) <-> stat f q = inr (File c)).
Proof.
  intros H Hq. unfold write in H. eapply alter_frame; try exact H; try exact Hq.
  - intros [[cnt|es|]|]; discriminate.
  - intros [[cnt|es|]|] v E; try discriminate; injection E as <-; reflexivity.
  - intros es. eexists. reflexivity.
Qed.

Lemma write_defined (f : node) (p : path) (buf c : list byte) :
  stat f p = inr (File c) -> exists f', write f p buf = inr f'.
Proof.
  intros H. unfold write. eapply alter_defined; [exact H | reflexivity].
Qed.

(** The bytes of a regular file, read through [content_of]. *)
Lemma content_of_file (f : node) (p : path) (c : list byte) :
  stat f p = inr (File c) -> content_of f p = c.
Proof. unfold content_of. intros ->. reflexivity. Qed.

Lemma content_of_frame (f f' : node) (q : path) :
  (forall c, stat f' q = inr (File c) <-> stat f q = inr (File c)) ->
  content_of f' q = content_of f q.
Proof.
  intros H. unfold content_of.
  destruct (stat f' q) as [e|[c|es|]] eqn:E'.
  - destruct (stat f q) as [e0|[c0|es0|]] eqn:E; try reflexivity.
    destruct (H c0) as [_ H2]. specialize (H2 eq_refl). discriminate.
  - destruct (H c) as [H1 _]. rewrite (H1 eq_refl). reflexivity.
  - destruct (stat f q) as [e0|[c0|es0|]] eqn:E; try reflexivity.
    destruct (H c0) as [_ H2]. specialize (H2 eq_refl). discriminate.
  - destruct (stat f q) as [e0|[c0|es0|]] eqn:E; try reflexivity.
    destruct (H c0) as [_ H2]. specialize (H2 eq_refl). discriminate.
Qed.

End Tree.

(** ** Running the methods: one step at a time *)

Lemma skipn_length_app {A} (l l' : list A) : skipn (List.length l) (l ++ l') = l'.
Proof. induction l; cbn; auto. Qed.

Lemma read_chunk_empty (f : node) (p : path) (copied : nat) :
  Posix.content_of f p = [] -> read_chunk f p copied = [].
Proof.
  unfold read_chunk. intros ->. destruct copied; reflexivity.
Qed.

(** A chunk that is not empty was read below the end of the file. *)
Lemma read_chunk_some (f : node) (p : path) (copied : nat) :
  read_chunk f p copied <> [] ->
  (copied < List.length (Posix.content_of f p))%nat.
Proof.
  unfold read_chunk. intros H.
  destruct (Nat.lt_ge_cases copied (List.length (Posix.content_of f p))) as [Hlt|Hge];
    [exact Hlt|].
  rewrite skipn_all2 in H by exact Hge. cbn in H. congruence.
Qed.

Lemma copy_with_progress_run (src_path dst_path : path) (pane : pane_id)
  (file_index total_files : nat) (w : World) :
  _copy_with_progress src_path dst_path pane file_index total_files w
  = let total_size :=
      match Posix.getsize (fs w) src_path with inr n => n | inl _ => 0 end in
    match Posix.open_rb (fs w) src_path with
    | inl e => (w, Raise e)
    | inr _ =>
        match Posix.open_wb (fs w) dst_path with
        | inl e => (w, Raise e)
        | inr f1 =>
            match copy_loop (S (List.length (Posix.content_of f1 src_path)))
                    src_path dst_path pane file_index total_files total_size 0
                    (with_fs w f1) with
            | (w2, Return copied) =>
                (fst (_set_progress pane (Qnat file_index) (Qnat total_files)
                        (with_event w2 (CopyStat src_path dst_path))),
                 Return copied)
            | (w2, Raise e) => (w2, Raise e)
            | (w2, OutOfFuel) => (w2, OutOfFuel)
            end
        end
    end.
Proof.
  unfold _copy_with_progress, bind, try_except, fs_read, fs_update, get_fs, emit, ret.
  cbv zeta.
  destruct (Posix.getsize (fs w) src_path) as [e|n];
    destruct (Posix.open_rb (fs w) src_path) as [e'|[]]; try reflexivity;
    destruct (Posix.open_wb (fs w) dst_path) as [e''|f1]; try reflexivity;
    cbn [fs with_fs];
    match goal with
    | |- context [copy_loop ?a ?b ?c ?d ?e ?f ?g ?h ?i] =>
        destruct (copy_loop a b c d e f g h i) as [w2 [copied|e3|]]; reflexivity
    end.
Qed.

(** ** What the loops leave alone *)

Section Invariant.

Variable I : World -> Prop.
Variable pane : pane_id.
Variable total_files : nat.

Hypothesis I_fs : forall w f, I w -> I (with_fs w f).
Hypothesis I_progress :
  forall w v, I w -> I (fst (_set_progress pane v (Qnat total_files) w)).

Lemma copy_loop_invariant (src_path dst_path : path) (file_index total_size : nat) :
  forall fuel copied w,
    I w ->
    I (fst (copy_loop fuel src_path dst_path pane file_index total_files
              total_size copied w)).
Proof.
  induction fuel as [|fuel IH]; intros copied w Hw; [exact Hw|].
  cbn [copy_loop]. unfold bind at 1. unfold get_fs at 1.
  destruct (read_chunk (fs w) src_path copied) as [|b buf] eqn:Eb; [exact Hw|].
  unfold bind at 1. unfold fs_update at 1.
  destruct (Posix.write (fs w) dst_path (b :: buf)) as [e|f']; [exact Hw|].
  unfold bind at 1.
  destruct (0 <? total_size)%nat.
  - rewrite (surjective_pairing (_set_progress _ _ _ _)), set_progress_returns.
    apply IH. apply I_progress. apply I_fs. exact Hw.
  - rewrite (surjective_pairing (_set_progress _ _ _ _)), set_progress_returns.
    apply IH. apply I_progress. apply I_fs. exact Hw.
Qed.

End Invariant.

Lemma set_progress_fs (self : pane_id) (v m : Q) (w : World) :
  fs (fst (_set_progress self v m w)) = fs w.
Proof. destruct self; reflexivity. Qed.

Lemma set_progress_log (self : pane_id) (v m : Q) (w : World) :
  log (fst (_set_progress self v m w)) = log w ++ [SetProgress self v m].
Proof. destruct self; reflexivity. Qed.

Lemma path_eq_dec (p q : path) : {p = q} + {p <> q}.
Proof. apply list_eq_dec. apply string_dec. Qed.

(** ** The copy loop ends by itself *)

Section Fuel.

Variables src_path dst_path : path.
Variable pane : pane_id.
Variables file_index total_files total_size : nat.

(** With more fuel than bytes left to read, the loop is left through its
    [break] (or through an exception): when source and destination are
    different paths the source keeps its length while the destination
    grows, and when they are the same path the file is empty. *)
Lemma copy_loop_fuel_enough :
  forall fuel copied w,
    (List.length (Posix.content_of (fs w) src_path) - copied < fuel)%nat ->
    src_path <> dst_path \/ Posix.content_of (fs w) src_path = [] ->
    snd (copy_loop fuel src_path dst_path pane file_index total_files
           total_size copied w) <> OutOfFuel.
Proof.
  induction fuel as [|fuel IH]; intros copied w Hfuel Halias; [lia|].
  cbn [copy_loop]. unfold bind at 1. unfold get_fs at 1.
  destruct (read_chunk (fs w) src_path copied) as [|b buf] eqn:Eb;
    [cbn; discriminate|].
  assert (Hcopied : (copied < List.length (Posix.content_of (fs w) src_path))%nat).
  { apply read_chunk_some. rewrite Eb. discriminate. }
  assert (Hne : src_path <> dst_path).
  { destruct Halias as [H|H]; [exact H|]. rewrite H in Hcopied. cbn in Hcopied. lia. }
  unfold bind at 1. unfold fs_update at 1.
  destruct (Posix.write (fs w) dst_path (b :: buf)) as [e|f'] eqn:Ew;
    [cbn; discriminate|].
  assert (Hsame : Posix.content_of f' src_path = Posix.content_of (fs w) src_path).
  { apply content_of_frame. intros c. eapply write_frame; eauto. }
  unfold bind at 1.
  assert (Hstep : forall v,
             snd (copy_loop fuel src_path dst_path pane file_index total_files
                    total_size (copied + List.length (b :: buf))
                    (fst (_set_progress pane v (Qnat total_files) (with_fs w f'))))
             <> OutOfFuel).
  { intros v. apply IH.
    - rewrite set_progress_fs. cbn [fs with_fs]. rewrite Hsame. cbn [List.length]. lia.
    - left. exact Hne. }
  destruct (0 <? total_size)%nat;
    rewrite (surjective_pairing (_set_progress _ _ _ _)), set_progress_returns;
    apply Hstep.
Qed.

End Fuel.

(** [_copy_with_progress] never runs out of fuel: the fuel it gives to
    the loop is enough, whatever the files are. *)
Lemma copy_loop_fuel (src_path dst_path : path) (pane : pane_id)
  (file_index total_files : nat) (w : World) :
  snd (_copy_with_progress src_path dst_path pane file_index total_files w)
  <> OutOfFuel.
Proof.
  rewrite copy_with_progress_run. cbv zeta.
  destruct (Posix.open_rb (fs w) src_path) as [e|[]]; [cbn; discriminate|].
  destruct (Posix.open_wb (fs w) dst_path) as [e|f1] eqn:Eo; [cbn; discriminate|].
  match goal with
  | |- context [copy_loop ?a ?b ?c ?d ?e ?f ?g ?h ?i] =>
      pose proof (@copy_loop_fuel_enough b c d e f g a h i) as Hf;
      destruct (copy_loop a b c d e f g h i) as [w2 [copied|e3|]]
  end; cbn [snd] in *; try discriminate.
  apply Hf.
  - cbn [fs with_fs]. lia.
  - cbn [fs with_fs]. destruct (path_eq_dec src_path dst_path) as [->|Hne].
    + right. apply content_of_file. eapply open_wb_truncates; eauto.
    + left. exact Hne.
Qed.

(** ** Opening the two files *)

Lemma open_rb_file (f : node) (p : path) (c : list byte) :
  Posix.stat f p = inr (File c) -> Posix.open_rb f p = inr tt.
Proof. unfold Posix.open_rb. intros ->. reflexivity. Qed.

Lemma getsize_file (f : node) (p : path) (c : list byte) :
  Posix.stat f p = inr (File c) -> Posix.getsize f p = inr (List.length c).
Proof. unfold Posix.getsize. intros ->. reflexivity. Qed.

(** After the destination was opened, the source is still a regular
    file: with its bytes when it is another path, empty when it is the
    destination itself. *)
Lemma content_after_open_wb (f f1 : node) (src_path dst_path : path) (c : list byte) :
  Posix.stat f src_path = inr (File c) ->
  Posix.open_wb f dst_path = inr f1 ->
  Posix.content_of f1 src_path = if path_eq_dec src_path dst_path then [] else c.
Proof.
  intros Hs Ho. destruct (path_eq_dec src_path dst_path) as [->|Hne].
  - apply content_of_file. eapply open_wb_truncates; eauto.
  - apply content_of_file. eapply open_wb_frame; eauto.
Qed.

(** ** The copy of a file to another path *)

Lemma take_prefix {A} (l : list A) :
  forall n, take n l = firstn (List.length (take n l)) l.
Proof.
  induction l as [|x t IH]; intros n; [reflexivity|].
  cbn [take]. destruct (N.eqb n 0); [reflexivity|].
  cbn [List.length firstn]. rewrite <- IH. reflexivity.
Qed.

Lemma take_nothing {A} (n : N) (l : list A) :
  n <> 0%N -> take n l = [] -> l = [].
Proof.
  intros Hn H. destruct l as [|x t]; [reflexivity|].
  cbn [take] in H. destruct (N.eqb n 0) eqn:E; [|discriminate].
  apply N.eqb_eq in E. contradiction.
Qed.

Lemma firstn_add {A} (l : list A) :
  forall a b, firstn (a + b) l = firstn a l ++ firstn b (skipn a l).
Proof.
  induction l as [|x t IH]; intros a b.
  - rewrite skipn_nil, !firstn_nil. reflexivity.
  - destruct a as [|a]; [reflexivity|].
    cbn [Nat.add firstn skipn app]. rewrite IH. reflexivity.
Qed.

Section CopyLoop.

Variables src_path dst_path : path.
Variable pane : pane_id.
Variables file_index total_files total_size : nat.
Variable data : list byte.
Hypothesis different : src_path <> dst_path.

(** From a state in which the destination holds the first [copied]
    bytes of the source, the loop returns with the destination holding
    all of them; the source and every other regular file are as before. *)
Lemma copy_loop_copies :
  forall fuel copied w,
    (List.length data - copied < fuel)%nat ->
    (copied <= List.length data)%nat ->
    Posix.stat (fs w) src_path = inr (File data) ->
    Posix.stat (fs w) dst_path = inr (File (firstn copied data)) ->
    exists w',
      copy_loop fuel src_path dst_path pane file_index total_files
        total_size copied w = (w', Return (List.length data))
      /\ Posix.stat (fs w') dst_path = inr (File data)
      /\ forall q c, q <> dst_path ->
           (Posix.stat (fs w') q = inr (File c) <-> Posix.stat (fs w) q = inr (File c)).
Proof.
  induction fuel as [|fuel IH]; intros copied w Hfuel Hle Hsrc Hdst; [lia|].
  cbn [copy_loop]. unfold bind at 1. unfold get_fs at 1.
  unfold read_chunk. rewrite (content_of_file _ _ _ Hsrc).
  destruct (take chunk_size (skipn copied data)) as [|b buf] eqn:Eb.
  - apply take_nothing in Eb; [|discriminate].
    assert (Hall : copied = List.length data).
    { pose proof (length_skipn copied data) as Hl. rewrite Eb in Hl. cbn in Hl. lia. }
    exists w. unfold ret. rewrite Hall at 1. split; [reflexivity|]. split.
    + rewrite Hdst, Hall, firstn_all. reflexivity.
    + tauto.
  - set (chunk := b :: buf) in *.
    assert (Hchunk : chunk = firstn (List.length chunk) (skipn copied data)).
    { rewrite <- Eb. apply take_prefix. }
    assert (Hlen : (copied + List.length chunk <= List.length data)%nat).
    { pose proof (f_equal (@List.length byte) Hchunk) as Hl.
      rewrite length_firstn, length_skipn in Hl. lia. }
    destruct (write_defined (fs w) dst_path chunk _ Hdst) as [f' Hw].
    unfold bind at 1. unfold fs_update at 1. rewrite Hw.
    destruct (write_appends _ _ _ _ Hw) as [c0 [Hc0 Hdst']].
    rewrite Hdst in Hc0. injection Hc0 as <-.
    assert (Hgrow : firstn copied data ++ chunk
                    = firstn (copied + List.length chunk) data).
    { rewrite firstn_add, <- Hchunk. reflexivity. }
    rewrite Hgrow in Hdst'.
    assert (Hsrc' : Posix.stat f' src_path = inr (File data)).
    { apply (write_frame _ _ _ _ _ _ Hw different). exact Hsrc. }
    assert (Hstep : forall v,
               exists w',
                 copy_loop fuel src_path dst_path pane file_index total_files
                   total_size (copied + List.length chunk)
                   (fst (_set_progress pane v (Qnat total_files) (with_fs w f')))
                 = (w', Return (List.length data))
                 /\ Posix.stat (fs w') dst_path = inr (File data)
                 /\ forall q c, q <> dst_path ->
                      (Posix.stat (fs w') q = inr (File c)
                       <-> Posix.stat (fs w) q = inr (File c))).
    { intros v.
      destruct (IH (copied + List.length chunk)
                  (fst (_set_progress pane v (Qnat total_files) (with_fs w f'))))
        as [w' [Hrun [Hd Hframe]]].
      - subst chunk. cbn [List.length] in *. lia.
      - exact Hlen.
      - rewrite set_progress_fs. exact Hsrc'.
      - rewrite set_progress_fs. exact Hdst'.
      - exists w'. split; [exact Hrun|]. split; [exact Hd|].
        intros q c Hq. rewrite (Hframe q c Hq), set_progress_fs.
        cbn [fs with_fs]. apply (write_frame _ _ _ _ _ _ Hw Hq). }
    unfold bind at 1.
    destruct (0 <? total_size)%nat;
      rewrite (surjective_pairing (_set_progress _ _ _ _)), set_progress_returns;
      apply Hstep.
Qed.

End CopyLoop.

(** The copier on two different paths: when the source is a regular file
    and the destination can be opened, the copy returns, the destination
    is a regular file with the bytes of the source, whatever it held
    before, and the source and every other regular file keep theirs. *)
Lemma copy_to_other_path (w : World) (src_path dst_path : path) (pane : pane_id)
  (file_index total_files : nat) (data : list byte) (f1 : node) :
  src_path <> dst_path ->
  Posix.stat (fs w) src_path = inr (File data) ->
  Posix.open_wb (fs w) dst_path = inr f1 ->
  let r := _copy_with_progress src_path dst_path pane file_index total_files w in
  snd r = Return (List.length data)
  /\ Posix.stat (fs (fst r)) dst_path = inr (File data)
  /\ Posix.stat (fs (fst r)) src_path = inr (File data)
  /\ forall q c, q <> dst_path ->
       (Posix.stat (fs (fst r)) q = inr (File c) <-> Posix.stat (fs w) q = inr (File c)).
Proof.
  intros Hne Hs Ho r.
  assert (Hs1 : Posix.stat f1 src_path = inr (File data))
    by (apply (open_wb_frame _ _ _ _ _ Ho Hne); exact Hs).
  destruct (copy_loop_copies src_path dst_path pane file_index total_files
              (List.length data) data Hne
              (S (List.length data)) 0 (with_fs w f1))
    as [w' [Hrun [Hd Hframe]]].
  - lia.
  - lia.
  - exact Hs1.
  - cbn [fs with_fs firstn]. eapply open_wb_truncates; eauto.
  - assert (E : r = (fst (_set_progress pane (Qnat file_index) (Qnat total_files)
                            (with_event w' (CopyStat src_path dst_path))),
                     Return (List.length data))).
    { subst r. rewrite copy_with_progress_run. cbv zeta.
      rewrite (open_rb_file _ _ _ Hs), Ho, (getsize_file _ _ _ Hs).
      rewrite (content_of_file _ _ _ Hs1), Hrun. reflexivity. }
    rewrite E. cbn [fst snd]. rewrite set_progress_fs. cbn [fs with_event].
    assert (Hall : forall q c, q <> dst_path ->
               (Posix.stat (fs w') q = inr (File c)
                <-> Posix.stat (fs w) q = inr (File c))).
    { intros q c Hq. rewrite (Hframe q c Hq). cbn [fs with_fs].
      apply (open_wb_frame _ _ _ _ _ Ho Hq). }
    split; [reflexivity|]. split; [exact Hd|]. split.
    + apply (Hall src_path data Hne). exact Hs.
    + exact Hall.
Qed.

(** Overwriting: a destination that exists as a regular file, other than
    the source, can always be opened, and ends with the bytes of the
    source. *)
Lemma copy_overwrites_other_file (w : World) (src_path dst_path : path)
  (pane : pane_id) (file_index total_files : nat) (data old : list byte) :
  src_path <> dst_path ->
  Posix.stat (fs w) src_path = inr (File data) ->
  Posix.stat (fs w) dst_path = inr (File old) ->
  let r := _copy_with_progress src_path dst_path pane file_index total_files w in
  snd r = Return (List.length data)
  /\ Posix.stat (fs (fst r)) dst_path = inr (File data).
Proof.
  intros Hne Hs Hd r.
  destruct (open_wb_defined _ _ _ Hd) as [f1 Ho].
  destruct (copy_to_other_path w src_path dst_path pane file_index total_files
              data f1 Hne Hs Ho) as [H1 [H2 _]].
  split; assumption.
Qed.

(** ** A source file of length zero *)

(** C7, as the program does it.  For every source file of length zero
    whose destination can be opened, the copier returns; it calls the
    progress callback exactly once for that file, and that call reports
    files, not bytes: it is made with [file_index] of [total_files] and
    counts the file as complete at once (the call that reports bytes
    stands in the loop, after a chunk was written, and a file without
    bytes has no chunk); the destination is a regular file of length
    zero. *)
Theorem zero_length_copy (w : World) (src_path dst_path : path) (pane : pane_id)
  (file_index total_files : nat) (f1 : node) :
  Posix.stat (fs w) src_path = inr (File []) ->
  Posix.open_wb (fs w) dst_path = inr f1 ->
  let r := _copy_with_progress src_path dst_path pane file_index total_files w in
  (exists copied, snd r = Return copied)
  /\ filter is_progress (events_since w (fst r))
     = [SetProgress pane (Qnat file_index) (Qnat total_files)]
  /\ List.length (filter is_progress (events_since w (fst r))) = 1
  /\ Posix.stat (fs (fst r)) dst_path = inr (File [])
  /\ progress_pair (fst r) pane
     = (py_max 0%Q (py_min (Qnat file_index) (py_max 1%Q (Qnat total_files))),
        py_max 1%Q (Qnat total_files))
  /\ ((1 <= file_index)%nat -> (file_index <= total_files)%nat ->
      progress_value (pane_of (fst r) pane) = Qnat file_index).
Proof.
  intros Hs Ho r.
  assert (E : r = (fst (_set_progress pane (Qnat file_index) (Qnat total_files)
                          (with_event (with_fs w f1) (CopyStat src_path dst_path))),
                   Return 0)).
  { subst r. rewrite copy_with_progress_run. cbv zeta.
    rewrite (@open_rb_file _ _ _ Hs), Ho.
    assert (Hc : Posix.content_of f1 src_path = []).
    { rewrite (@content_after_open_wb _ _ _ _ _ Hs Ho).
      destruct (path_eq_dec _ _); reflexivity. }
    rewrite Hc. cbn [List.length copy_loop].
    unfold bind at 1. unfold get_fs at 1. cbn [fs with_fs].
    rewrite (@read_chunk_empty _ _ 0 Hc). reflexivity. }
  rewrite E. cbn [fst snd].
  split; [exists 0; reflexivity|].
  repeat split.
  - unfold events_since. rewrite set_progress_log. cbn [log with_event with_fs].
    rewrite <- app_assoc, skipn_length_app. reflexivity.
  - unfold events_since. rewrite set_progress_log. cbn [log with_event with_fs].
    rewrite <- app_assoc, skipn_length_app. reflexivity.
  - rewrite set_progress_fs. cbn [fs with_event with_fs].
    eapply open_wb_truncates; eauto.
  - apply set_progress_pair.
  - rewrite set_progress_value. apply clamp_index; assumption.
Qed.

(** ** The relative path of a file below the destination *)

Section RelativePath.

Import Posix PurePath.

(** Induction on a tree: a directory has the property when all its
    entries have it. *)
Lemma node_tree_ind (P : node -> Prop) :
  (forall c, P (File c)) ->
  P Special ->
  (forall es, Forall (fun e => P (snd e)) es -> P (Dir es)) ->
  forall n, P n.
Proof.
  intros Hf Hs Hd. fix IH 1. intros [c|es|].
  - apply Hf.
  - apply Hd. induction es as [|[k x] t IHt]; constructor.
    + cbn. apply IH.
    + exact IHt.
  - exact Hs.
Qed.

(** Every path produced by the walk of a directory lies strictly below
    the directory walked. *)
Lemma walk_files_below (n : node) :
  forall root p, In p (walk_files root n) ->
                 exists below, below <> [] /\ p = root ++ below.
Proof.
  induction n as [c| |es IH] using node_tree_ind; intros root p Hin;
    try (cbn in Hin; contradiction).
  cbn [walk_files] in Hin. apply in_app_or in Hin. destruct Hin as [Hin|Hin].
  - apply in_map_iff in Hin. destruct Hin as [[k x] [<- _]].
    exists [k]. split; [discriminate | reflexivity].
  - induction es as [|[k x] t IHt]; [contradiction|].
    inversion IH as [|? ? Hx Ht]; subst.
    apply in_app_or in Hin. destruct Hin as [Hin|Hin].
    + cbn in Hx. destruct (Hx _ _ Hin) as [below [Hne ->]].
      exists (k :: below). split; [discriminate|].
      rewrite <- app_assoc. reflexivity.
    + apply IHt; assumption.
Qed.

Lemma collect_single_dir_below (f : node) (d p : path) :
  is_dir f d = true -> In p (_collect_all_files f [d]) ->
  exists below, below <> [] /\ p = d ++ below.
Proof.
  intros Hd Hin. unfold _collect_all_files in Hin. cbn [flat_map] in Hin.
  rewrite app_nil_r in Hin.
  assert (Hf : is_file f d = false).
  { unfold is_dir, is_file in *. destruct (stat f d) as [e|[c|es|]]; auto; discriminate. }
  rewrite Hf, Hd in Hin. unfold walk in Hin.
  destruct (stat f d) as [e|n]; [contradiction|].
  eapply walk_files_below; eauto.
Qed.

Lemma relative_to_app (q r : path) : relative_to (q ++ r) q = inr r.
Proof.
  induction q as [|c q IH]; cbn; [reflexivity|].
  rewrite String.eqb_refl. exact IH.
Qed.

Lemma parent_name (d : path) : d <> [] -> parent d ++ [name d] = d.
Proof.
  intros H. unfold parent, name. symmetry. apply app_removelast_last. exact H.
Qed.


End RelativePath.

(** ** Stepping through sequences *)

Lemma bind_return {A B} (m : M A) (k : A -> M B) (w : World) (a : A) :
  snd (m w) = Return a -> bind m k w = k a (fst (m w)).
Proof.
  unfold bind. destruct (m w) as [w' r]. cbn. intros ->. reflexivity.
Qed.

Lemma for_enumerate_returns {A} (body : nat -> A -> M unit) :
  (forall i x w, snd (body i x w) = Return tt) ->
  forall l i w, snd (for_enumerate body i l w) = Return tt.
Proof.
  intros Hb. induction l as [|x t IH]; intros i w; [reflexivity|].
  cbn [for_enumerate]. rewrite (bind_return _ _ _ _ (Hb i x w)). apply IH.
Qed.

Lemma for_enumerate_invariant {A} (I : World -> Prop) (body : nat -> A -> M unit) :
  (forall i x w, I w -> I (fst (body i x w))) ->
  forall l i w, I w -> I (fst (for_enumerate body i l w)).
Proof.
  intros Hb. induction l as [|x t IH]; intros i w Hw; [exact Hw|].
  cbn [for_enumerate]. unfold bind.
  pose proof (Hb i x w Hw) as H1.
  destruct (body i x w) as [w' [[]|e|]]; cbn [fst] in *; auto.
Qed.

Lemma for_enumerate_never_out_of_fuel {A} (body : nat -> A -> M unit) :
  (forall i x w, snd (body i x w) <> OutOfFuel) ->
  forall l i w, snd (for_enumerate body i l w) <> OutOfFuel.
Proof.
  intros Hb. induction l as [|x t IH]; intros i w; [cbn; discriminate|].
  cbn [for_enumerate]. unfold bind.
  pose proof (Hb i x w) as H1.
  destruct (body i x w) as [w' [[]|e|]]; cbn [snd] in *;
    [apply IH | discriminate | congruence].
Qed.

(** ** What refreshing a listing leaves alone *)

Section Display.

Variable I : World -> Prop.
Variable self : pane_id.

Hypothesis I_pane : forall w p, I w -> I (with_pane w self p).
Hypothesis I_quiet : forall w e, quiet e = true -> I w -> I (with_event w e).

Lemma set_progress_display (v m : Q) (w : World) :
  I w -> I (fst (_set_progress self v m w)).
Proof.
  intros H. unfold _set_progress. cbn [fst].
  apply I_quiet; [reflexivity|]. apply I_pane. exact H.
Qed.

Lemma reset_progress_display (w : World) : I w -> I (fst (_reset_progress self w)).
Proof. rewrite reset_progress_eq. apply set_progress_display. Qed.

Lemma update_list_display (total : nat) (w : World) :
  I w -> I (fst (update_list_with_progress self total w)).
Proof.
  intros H. unfold update_list_with_progress.
  rewrite (@bind_return _ _ (_reset_list self) _ w tt eq_refl).
  rewrite (@bind_return _ _ (_set_progress self _ _) _ _ tt eq_refl).
  rewrite bind_return with (a := tt)
    by (apply for_enumerate_returns; intros; reflexivity).
  apply reset_progress_display. apply for_enumerate_invariant.
  - intros i x w0. apply set_progress_display.
  - apply set_progress_display. unfold _reset_list. cbn [fst]. apply I_pane. exact H.
Qed.

Lemma list_contents_display (w : World) : I w -> I (fst (list_contents self w)).
Proof.
  intros H. unfold list_contents, list_all, bind at 1, get_pane at 1.
  destruct (directory (pane_of w self)) as [d|]; [|exact H].
  unfold bind at 1, try_except, bind at 1, fs_read.
  destruct (Posix.scandir (fs w) d) as [e|es]; unfold ret; cbn [fst snd].
  - unfold bind at 1, emit. apply update_list_display.
    apply I_quiet; [reflexivity | exact H].
  - apply update_list_display. exact H.
Qed.

End Display.

(** Refreshing a listing always returns. *)
Lemma update_list_returns (self : pane_id) (total : nat) (w : World) :
  snd (update_list_with_progress self total w) = Return tt.
Proof.
  unfold update_list_with_progress.
  rewrite (@bind_return _ _ (_reset_list self) _ w tt eq_refl).
  rewrite (@bind_return _ _ (_set_progress self _ _) _ _ tt eq_refl).
  rewrite bind_return with (a := tt)
    by (apply for_enumerate_returns; intros; reflexivity).
  reflexivity.
Qed.

Lemma list_contents_returns (self : pane_id) (w : World) :
  snd (list_contents self w) = Return tt.
Proof.
  unfold list_contents, list_all, bind at 1, get_pane at 1.
  destruct (directory (pane_of w self)) as [d|]; [|reflexivity].
  unfold bind at 1, try_except, bind at 1, fs_read.
  destruct (Posix.scandir (fs w) d) as [e|es]; unfold ret; cbn [fst snd].
  - unfold bind at 1, emit. apply update_list_returns.
  - apply update_list_returns.
Qed.


(** ** One entry of the plan *)

Lemma copy_entry_run (files : list path) (dst : pane_id) (d : path)
  (n i : nat) (p : path) (w : World) :
  copy_entry files dst d n i p w
  = match rel_path (fs w) files p with
    | inl e => (w, Raise e)
    | inr rel =>
        match Posix.mkdir_parents (fs w) (PurePath.parent (PurePath.div d rel)) with
        | inl e => (w, Raise e)
        | inr f1 =>
            match _copy_with_progress p (PurePath.div d rel) dst i n (with_fs w f1) with
            | (w2, Return _) => (w2, Return tt)
            | (w2, Raise e) => (w2, Raise e)
            | (w2, OutOfFuel) => (w2, OutOfFuel)
            end
        end
    end.
Proof.
  unfold copy_entry, bind, fs_read, fs_update, ret.
  destruct (rel_path (fs w) files p) as [e|rel]; [reflexivity|].
  destruct (Posix.mkdir_parents (fs w) _) as [e|f1]; [reflexivity|].
  destruct (_copy_with_progress _ _ _ _ _ _) as [w2 [c|e|]]; reflexivity.
Qed.

Lemma move_entry_run (files : list path) (dst : pane_id) (d : path)
  (n i : nat) (p : path) (w : World) :
  move_entry files dst d n i p w
  = match rel_path (fs w) files p with
    | inl e => (w, Raise e)
    | inr rel =>
        match Posix.mkdir_parents (fs w) (PurePath.parent (PurePath.div d rel)) with
        | inl e => (w, Raise e)
        | inr f1 =>
            match _copy_with_progress p (PurePath.div d rel) dst i n (with_fs w f1) with
            | (w2, Return _) =>
                match Posix.unlink (fs w2) p with
                | inr f3 => (with_event (with_fs w2 f3) (Unlinked p), Return tt)
                | inl e =>
                    (with_event w2
                       (ShowError "Move"
                          ("Could not remove " ++ PurePath.name p ++ ": " ++ exn_str e)),
                     Return tt)
                end
            | (w2, Raise e) => (w2, Raise e)
            | (w2, OutOfFuel) => (w2, OutOfFuel)
            end
        end
    end.
Proof.
  unfold move_entry, bind, fs_read, fs_update, try_except, emit, ret.
  destruct (rel_path (fs w) files p) as [e|rel]; [reflexivity|].
  destruct (Posix.mkdir_parents (fs w) _) as [e|f1]; [reflexivity|].
  destruct (_copy_with_progress _ _ _ _ _ _) as [w2 [c|e|]]; try reflexivity.
  destruct (Posix.unlink (fs w2) p) as [e|f3]; reflexivity.
Qed.

Section EntryInvariant.

Variable I : World -> Prop.
Variable dst : pane_id.
Variable n : nat.

Hypothesis I_fs : forall w f, I w -> I (with_fs w f).
Hypothesis I_progress : forall w v, I w -> I (fst (_set_progress dst v (Qnat n) w)).
Hypothesis I_event : forall w e, I w -> I (with_event w e).

Lemma copy_with_progress_invariant (src_path dst_path : path) (i : nat) (w : World) :
  I w -> I (fst (_copy_with_progress src_path dst_path dst i n w)).
Proof.
  intros H. rewrite copy_with_progress_run. cbv zeta.
  destruct (Posix.open_rb (fs w) src_path) as [e|[]]; [exact H|].
  destruct (Posix.open_wb (fs w) dst_path) as [e|f1]; [exact H|].
  match goal with
  | |- context [copy_loop ?a ?b ?c ?d ?e ?f ?g ?h ?k] =>
      pose proof (copy_loop_invariant I dst n I_fs I_progress b c e g a h k
                    (I_fs w f1 H)) as Hl;
      destruct (copy_loop a b c d e f g h k) as [w2 [copied|e3|]]
  end; cbn [fst] in *; auto.
Qed.

Lemma entry_invariant (m : mode) (files : list path) (d : path) (i : nat)
  (p : path) (w : World) :
  I w -> I (fst (entry m files dst d n i p w)).
Proof.
  intros H.
  assert (Hc : forall f1 target,
             I (fst (_copy_with_progress p target dst i n (with_fs w f1)))).
  { intros. apply copy_with_progress_invariant. apply I_fs. exact H. }
  destruct m; cbn [entry]; [rewrite copy_entry_run | rewrite move_entry_run];
    (destruct (rel_path (fs w) files p) as [e|rel]; [exact H|]);
    (destruct (Posix.mkdir_parents (fs w) _) as [e|f1]; [exact H|]);
    specialize (Hc f1 (PurePath.div d rel));
    destruct (_copy_with_progress _ _ _ _ _ _) as [w2 [c|e|]]; cbn [fst] in *; auto.
  destruct (Posix.unlink (fs w2) p) as [e|f3]; cbn [fst]; auto.
Qed.

End EntryInvariant.

(** No entry runs out of fuel. *)
Lemma entry_never_out_of_fuel (m : mode) (files : list path) (dst : pane_id)
  (d : path) (n i : nat) (p : path) (w : World) :
  snd (entry m files dst d n i p w) <> OutOfFuel.
Proof.
  destruct m; cbn [entry]; [rewrite copy_entry_run | rewrite move_entry_run];
    (destruct (rel_path (fs w) files p) as [e|rel]; [cbn; discriminate|]);
    (destruct (Posix.mkdir_parents (fs w) _) as [e|f1]; [cbn; discriminate|]);
    match goal with
    | |- context [_copy_with_progress ?a ?b ?c ?d ?e ?f] =>
        pose proof (copy_loop_fuel a b c d e f) as Hf;
        destruct (_copy_with_progress a b c d e f) as [w2 [c0|e0|]]
    end; cbn [snd] in *; try discriminate; try congruence.
  destruct (Posix.unlink (fs w2) p); cbn; discriminate.
Qed.

(** ** Counting what a run finished and reported *)

Lemma tally_with_fs (m : mode) (w : World) (f : node) : tally m (with_fs w f) = tally m w.
Proof. reflexivity. Qed.

Lemma tally_with_pane (m : mode) (w : World) (i : pane_id) (p : Pane) :
  tally m (with_pane w i p) = tally m w.
Proof. destruct i; reflexivity. Qed.

Lemma tally_with_event (m : mode) (w : World) (e : event) :
  tally m (with_event w e)
  = (fst (tally m w) + completed m [e],
     snd (tally m w) + List.length (transfer_errors [e])).
Proof.
  unfold tally, with_event. cbn [log fst snd].
  unfold transfer_errors. rewrite flat_map_app, length_app.
  destruct m; cbn [completed]; rewrite filter_app, length_app; reflexivity.
Qed.

Lemma tally_quiet (m : mode) (w : World) (e : event) :
  quiet e = true -> tally m (with_event w e) = tally m w.
Proof.
  intros Hq. rewrite tally_with_event.
  assert (Hc : completed m [e] = 0)
    by (destruct m, e; cbn in *; try reflexivity; discriminate).
  assert (He : List.length (transfer_errors [e]) = 0).
  { destruct e; cbn in *; try reflexivity; try discriminate.
    apply negb_true_iff in Hq. rewrite Hq. reflexivity. }
  rewrite Hc, He, !Nat.add_0_r. symmetry. apply surjective_pairing.
Qed.

Lemma tally_set_progress (m : mode) (self : pane_id) (v mx : Q) (w : World) :
  tally m (fst (_set_progress self v mx w)) = tally m w.
Proof.
  unfold _set_progress. cbn [fst].
  rewrite tally_quiet by reflexivity. apply tally_with_pane.
Qed.

(** A finished copy adds one [CopyStat] to the log and nothing else that
    counts. *)
Lemma copy_with_progress_tally (src_path dst_path : path) (pane : pane_id)
  (i n : nat) (w w' : World) (copied : nat) :
  _copy_with_progress src_path dst_path pane i n w = (w', Return copied) ->
  tally Copy w' = (S (fst (tally Copy w)), snd (tally Copy w))
  /\ tally Move w' = tally Move w.
Proof.
  rewrite copy_with_progress_run. cbv zeta.
  destruct (Posix.open_rb (fs w) src_path) as [e|[]]; [discriminate|].
  destruct (Posix.open_wb (fs w) dst_path) as [e|f1]; [discriminate|].
  match goal with
  | |- context [copy_loop ?a ?b ?c ?d ?e ?f ?g ?h ?k] =>
      assert (Hl : forall m, tally m (fst (copy_loop a b c d e f g h k)) = tally m w);
      [ intros m;
        apply (copy_loop_invariant (fun w0 => tally m w0 = tally m w) d f);
        [ intros; rewrite tally_with_fs; assumption
        | intros; rewrite tally_set_progress; assumption
        | reflexivity ]
      | destruct (copy_loop a b c d e f g h k) as [w2 [c0|e3|]] ]
  end; try discriminate.
  intros H. injection H as <- <-. cbn [fst] in Hl.
  rewrite !(tally_quiet _ _ (SetProgress _ _ _)) by reflexivity.
  rewrite !tally_with_pane, !tally_with_event, !Hl. cbn.
  rewrite !Nat.add_0_r, Nat.add_1_r. split; [reflexivity|].
  symmetry. apply surjective_pairing.
Qed.

Lemma entry_tally (m : mode) (files : list path) (dst : pane_id) (d : path)
  (n i : nat) (p : path) (w w' : World) :
  entry m files dst d n i p w = (w', Return tt) ->
  one_more (tally m w) (tally m w').
Proof.
  destruct m; cbn [entry]; [rewrite copy_entry_run | rewrite move_entry_run];
    (destruct (rel_path (fs w) files p) as [e|rel]; [discriminate|]);
    (destruct (Posix.mkdir_parents (fs w) _) as [e|f1]; [discriminate|]);
    match goal with
    | |- context [_copy_with_progress ?a ?b ?c ?d ?e ?f] =>
        pose proof (copy_with_progress_tally a b c d e f) as Hc;
        destruct (_copy_with_progress a b c d e f) as [w2 [c0|e0|]]
    end; try discriminate;
    destruct (Hc w2 c0 eq_refl) as [HC HM]; rewrite tally_with_fs in HC, HM.
  - intros H. injection H as <-. left. rewrite HC. cbn. auto.
  - destruct (Posix.unlink (fs w2) p) as [e|f3]; intros H; injection H as <-.
    + right. rewrite tally_with_event, HM. cbn.
      rewrite Nat.add_0_r, Nat.add_1_r. auto.
    + left. rewrite tally_with_event, tally_with_fs, HM. cbn.
      rewrite Nat.add_0_r, Nat.add_1_r. auto.
Qed.

Lemma for_enumerate_tally {A} (mu : World -> nat * nat) (body : nat -> A -> M unit) :
  (forall i x w w', body i x w = (w', Return tt) -> one_more (mu w) (mu w')) ->
  forall l i w w',
    for_enumerate body i l w = (w', Return tt) ->
    (fst (mu w) <= fst (mu w'))%nat
    /\ (snd (mu w) <= snd (mu w'))%nat
    /\ (fst (mu w') + snd (mu w') = fst (mu w) + snd (mu w) + List.length l)%nat.
Proof.
  intros Hb. induction l as [|x t IH]; intros i w w' H.
  - cbn in H. injection H as <-. cbn [List.length]. lia.
  - cbn [for_enumerate] in H. unfold bind in H.
    destruct (body i x w) as [w1 [[]|e|]] eqn:E; try discriminate.
    specialize (Hb _ _ _ _ E). specialize (IH _ _ _ H).
    cbn [List.length]. unfold one_more in Hb. lia.
Qed.

(** ** The stages of a transfer *)

Lemma selected_paths_run (src : pane_id) (w : World) :
  get_selected_paths src w = (w, Return (selected_paths src w)).
Proof.
  unfold selected_paths.
  destruct (get_selected_paths_reads src w) as [files ->]. reflexivity.
Qed.

Lemma run_without_selection (m : mode) (src dst : pane_id) (w : World) :
  selected_paths src w = [] ->
  run m src dst w
  = (with_event w (ShowInfo (match m with Copy => "Copy" | Move => "Move" end)
                     select_message),
     Return tt).
Proof.
  intros H. destruct m; cbn [run]; unfold _copy_files, _move_files, bind;
    rewrite selected_paths_run, H; reflexivity.
Qed.

Lemma run_stages (m : mode) (src dst : pane_id) (w : World) (d : path) :
  selected_paths src w <> [] ->
  directory (pane_of w dst) = Some d ->
  run m src dst w
  = (_set_progress dst 0%Q (Qnat (List.length (plan_of src w))) ;;
     for_enumerate
       (entry m (selected_paths src w) dst d (List.length (plan_of src w)))
       1 (plan_of src w) ;;
     _reset_progress dst ;;
     finish m src dst) w.
Proof.
  intros Hsel Hdir. unfold plan_of.
  destruct m; cbn [run entry finish]; unfold _copy_files, _move_files;
    unfold bind at 1; rewrite selected_paths_run;
    unfold bind at 1; unfold get_pane at 1; rewrite Hdir;
    destruct (selected_paths src w) as [|a t]; try congruence; reflexivity.
Qed.

Lemma reset_progress_at_rest (i : pane_id) (w : World) :
  at_rest i (fst (_reset_progress i w)).
Proof.
  rewrite reset_progress_eq. unfold at_rest.
  rewrite set_progress_value, set_progress_maximum. split.
  - apply clamp_zero.
  - apply py_max_lower.
Qed.

Lemma update_list_at_rest (self : pane_id) (total : nat) (w : World) :
  at_rest self (fst (update_list_with_progress self total w)).
Proof.
  unfold update_list_with_progress.
  rewrite (bind_return (_reset_list self) _ w tt eq_refl).
  rewrite (bind_return (_set_progress self _ _) _ _ tt eq_refl).
  rewrite bind_return with (a := tt)
    by (apply for_enumerate_returns; intros; reflexivity).
  apply reset_progress_at_rest.
Qed.

Lemma pane_id_eq_dec (i j : pane_id) : {i = j} + {i <> j}.
Proof. decide equality. Qed.

Lemma list_contents_at_rest (self i : pane_id) (w : World) :
  at_rest i w -> at_rest i (fst (list_contents self w)).
Proof.
  intros H. destruct (pane_id_eq_dec self i) as [->|Hne].
  - unfold list_contents, list_all, bind at 1, get_pane at 1.
    destruct (directory (pane_of w i)) as [d|]; [|exact H].
    unfold bind at 1, try_except, bind at 1, fs_read.
    destruct (Posix.scandir (fs w) d) as [e|es]; unfold ret; cbn [fst snd].
    + unfold bind at 1, emit. apply update_list_at_rest.
    + apply update_list_at_rest.
  - unfold at_rest in *.
    rewrite (list_contents_display (fun w' => pane_of w' i = pane_of w i) self);
      auto.
    intros w0 p Hw0. rewrite pane_of_with_pane_other; assumption.
Qed.

Lemma finish_returns (m : mode) (src dst : pane_id) (w : World) :
  snd (finish m src dst w) = Return tt.
Proof.
  destruct m; cbn [finish];
    repeat rewrite bind_return with (a := tt) by apply list_contents_returns;
    reflexivity.
Qed.

Lemma finish_at_rest (m : mode) (src dst : pane_id) (w : World) :
  at_rest dst w -> at_rest dst (fst (finish m src dst w)).
Proof.
  intros H. destruct m; cbn [finish];
    repeat rewrite bind_return with (a := tt) by apply list_contents_returns;
    unfold flash_success, emit; cbn [fst];
    repeat apply list_contents_at_rest; exact H.
Qed.

Lemma finish_tally (m m' : mode) (src dst : pane_id) (w : World) :
  tally m' (fst (finish m src dst w)) = tally m' w.
Proof.
  assert (Hl : forall self w0, tally m' (fst (list_contents self w0)) = tally m' w0).
  { intros self w0.
    apply (list_contents_display (fun w' => tally m' w' = tally m' w0) self).
    - intros w1 p Hw1. rewrite tally_with_pane. exact Hw1.
    - intros w1 e He Hw1. rewrite tally_quiet by exact He. exact Hw1.
    - reflexivity. }
  destruct m; cbn [finish];
    repeat rewrite bind_return with (a := tt) by apply list_contents_returns;
    unfold flash_success, emit; cbn [fst];
    rewrite tally_quiet by reflexivity; rewrite !Hl; reflexivity.
Qed.

(** The maximum of the destination's bar is the same all through the
    loop. *)
Lemma loop_keeps_maximum (m : mode) (files : list path) (dst : pane_id)
  (d : path) (n : nat) (plan : list path) (i : nat) (w : World) :
  progress_maximum (pane_of w dst) = py_max 1%Q (Qnat n) ->
  progress_maximum (pane_of (fst (for_enumerate (entry m files dst d n) i plan w)) dst)
  = py_max 1%Q (Qnat n).
Proof.
  apply (for_enumerate_invariant
           (fun w0 => progress_maximum (pane_of w0 dst) = py_max 1%Q (Qnat n))).
  intros j p w0.
  apply (entry_invariant
           (fun w1 => progress_maximum (pane_of w1 dst) = py_max 1%Q (Qnat n)) dst n).
  - intros w1 f H. destruct dst; exact H.
  - intros w1 v _. apply set_progress_maximum.
  - intros w1 e H. destruct dst; exact H.
Qed.

(** Once the loop has returned, what is left of a transfer is the update
    after the loop and the refreshing of the listings. *)
Lemma run_after_loop (m : mode) (src dst : pane_id) (w w1 : World) (d : path) :
  selected_paths src w <> [] ->
  directory (pane_of w dst) = Some d ->
  for_enumerate
    (entry m (selected_paths src w) dst d (List.length (plan_of src w)))
    1 (plan_of src w)
    (fst (_set_progress dst 0%Q (Qnat (List.length (plan_of src w))) w))
  = (w1, Return tt) ->
  run m src dst w = finish m src dst (fst (_reset_progress dst w1)).
Proof.
  intros Hsel Hdir Hloop.
  rewrite (run_stages m src dst w d Hsel Hdir).
  rewrite (bind_return (_set_progress dst _ _) _ w tt eq_refl).
  unfold bind at 1. rewrite Hloop.
  rewrite (bind_return (_reset_progress dst) _ w1 tt eq_refl). reflexivity.
Qed.

(** A transfer that returns has left its loop by the end of the plan. *)
Lemma run_returns_loop (m : mode) (src dst : pane_id) (w : World) (d : path) :
  selected_paths src w <> [] ->
  directory (pane_of w dst) = Some d ->
  snd (run m src dst w) = Return tt ->
  exists w1,
    for_enumerate
      (entry m (selected_paths src w) dst d (List.length (plan_of src w)))
      1 (plan_of src w)
      (fst (_set_progress dst 0%Q (Qnat (List.length (plan_of src w))) w))
    = (w1, Return tt).
Proof.
  intros Hsel Hdir Hret.
  rewrite (run_stages m src dst w d Hsel Hdir) in Hret.
  rewrite (bind_return (_set_progress dst _ _) _ w tt eq_refl) in Hret.
  unfold bind at 1 in Hret.
  destruct (for_enumerate _ _ _ _) as [w1 [[]|e|]]; try discriminate.
  exists w1. reflexivity.
Qed.

(** An exception in the loop ends the transfer where it was raised: the
    entries that follow are not processed, the bar is not reset, the
    listings are not refreshed. *)
Lemma for_enumerate_raises {A} (body : nat -> A -> M unit) (i : nat) (x : A)
  (rest : list A) (w w' : World) (e : exn) :
  body i x w = (w', Raise e) ->
  for_enumerate body i (x :: rest) w = (w', Raise e).
Proof. intros H. cbn [for_enumerate]. unfold bind. rewrite H. reflexivity. Qed.

Lemma run_raises_with_loop (m : mode) (src dst : pane_id) (w w1 : World)
  (d : path) (e : exn) :
  selected_paths src w <> [] ->
  directory (pane_of w dst) = Some d ->
  for_enumerate
    (entry m (selected_paths src w) dst d (List.length (plan_of src w)))
    1 (plan_of src w)
    (fst (_set_progress dst 0%Q (Qnat (List.length (plan_of src w))) w))
  = (w1, Raise e) ->
  run m src dst w = (w1, Raise e).
Proof.
  intros Hsel Hdir Hloop.
  rewrite (run_stages m src dst w d Hsel Hdir).
  rewrite (bind_return (_set_progress dst _ _) _ w tt eq_refl).
  unfold bind at 1. rewrite Hloop. reflexivity.
Qed.

(** ** C8: the progress bar before the first and after the last entry *)

(** C8, as the program does it.  For every Copy or Move that is not
    rejected, the first update stores [0] of [max(1, n)] in the
    destination pane, [n] being the length of the plan; when the loop over
    the plan returns, the update that follows it stores [0] of the same
    maximum again, and the transfer then returns with the destination's
    bar at [0] of a maximum that is at least [1].  The maximum is never
    [0]. *)
Theorem progress_reset_around_transfer (m : mode) (src dst : pane_id)
  (w : World) (d : path) :
  selected_paths src w <> [] ->
  directory (pane_of w dst) = Some d ->
  let n := List.length (plan_of src w) in
  let w0 := fst (_set_progress dst 0%Q (Qnat n) w) in
  progress_pair w0 dst = (0%Q, py_max 1%Q (Qnat n))
  /\ forall w1,
       for_enumerate (entry m (selected_paths src w) dst d n) 1 (plan_of src w) w0
       = (w1, Return tt) ->
       let w2 := fst (_reset_progress dst w1) in
       progress_pair w2 dst = (0%Q, py_max 1%Q (Qnat n))
       /\ run m src dst w = finish m src dst w2
       /\ snd (run m src dst w) = Return tt
       /\ at_rest dst (fst (run m src dst w)).
Proof.
  intros Hsel Hdir n w0. split.
  - subst w0. rewrite set_progress_pair, clamp_zero. reflexivity.
  - intros w1 Hloop w2.
    assert (Hmax : progress_maximum (pane_of w1 dst) = py_max 1%Q (Qnat n)).
    { pose proof (loop_keeps_maximum m (selected_paths src w) dst d n
                    (plan_of src w) 1 w0) as H.
      rewrite Hloop in H. apply H. subst w0. apply set_progress_maximum. }
    assert (Hrun : run m src dst w = finish m src dst w2)
      by (apply (run_after_loop m src dst w w1 d Hsel Hdir Hloop)).
    split; [|split; [exact Hrun|split]].
    + subst w2. rewrite reset_progress_eq, set_progress_pair, Hmax.
      rewrite clamp_zero, py_max_1_idem. reflexivity.
    + rewrite Hrun. apply finish_returns.
    + rewrite Hrun. apply finish_at_rest. apply reset_progress_at_rest.
Qed.

(** ** What a run that returns has accounted for *)

Lemma outcome_sum (m : mode) (w : World) (r : World * outcome unit) (n : nat) :
  snd r = Return tt ->
  (fst (tally m w) <= fst (tally m (fst r)))%nat ->
  (snd (tally m w) <= snd (tally m (fst r)))%nat ->
  (fst (tally m (fst r)) + snd (tally m (fst r))
   = fst (tally m w) + snd (tally m w) + n)%nat ->
  succeeded (outcome_of m w r) + List.length (failed (outcome_of m w r)) = n.
Proof.
  intros Hr Hc He Hsum. unfold outcome_of. cbn [succeeded failed].
  rewrite Hr, app_nil_r, length_skipn.
  unfold tally in *. cbn [fst snd] in *. lia.
Qed.

(** The program returns no outcome; the counts are read off the log.
    For every Copy or Move with a destination directory that returns (no
    copy raised), the number of files finished (copied and, for a move,
    unlinked) plus the number of failures reported is the length of the
    plan. *)
Lemma outcome_accounts_for_plan (m : mode) (src dst : pane_id) (w : World)
  (d : path) :
  directory (pane_of w dst) = Some d ->
  snd (run m src dst w) = Return tt ->
  succeeded (outcome_of m w (run m src dst w))
  + List.length (failed (outcome_of m w (run m src dst w)))
  = List.length (plan_of src w).
Proof.
  intros Hdir Hret.
  destruct (selected_paths src w) as [|a t] eqn:Hsel.
  - apply outcome_sum; try exact Hret;
      rewrite (run_without_selection m src dst w Hsel); cbn [fst];
      rewrite tally_quiet by (destruct m; reflexivity);
      unfold plan_of; try rewrite Hsel; cbn; lia.
  - assert (Hne : selected_paths src w <> []) by (rewrite Hsel; discriminate).
    destruct (run_returns_loop m src dst w d Hne Hdir Hret) as [w1 Hloop].
    pose proof (run_after_loop m src dst w w1 d Hne Hdir Hloop) as Hfin.
    pose proof (for_enumerate_tally (tally m) _
                  (fun i x w0 w' => entry_tally m _ dst d _ i x w0 w')
                  _ _ _ _ Hloop) as [Hc [He Hsum]].
    rewrite tally_set_progress in Hc, He, Hsum.
    assert (H2 : tally m (fst (run m src dst w)) = tally m w1).
    { rewrite Hfin, finish_tally, reset_progress_eq. apply tally_set_progress. }
    apply outcome_sum; try exact Hret; rewrite H2; assumption.
Qed.

(** ** The plan *)

Section Plan.

Import Posix.

Lemma stat_app (n : node) (p q : path) :
  stat n (p ++ q)
  = match stat n p with inr x => stat x q | inl e => inl e end.
Proof.
  revert n. induction p as [|c p IH]; intros n; [reflexivity|].
  cbn [app stat]. destruct n as [cnt|es|]; try reflexivity.
  destruct (assoc c es); [apply IH | reflexivity].
Qed.

Lemma assoc_In (k : string) (es : list (string * node)) (x : node) :
  assoc k es = Some x -> In (k, x) es.
Proof.
  induction es as [|[k' x'] t IH]; cbn; [discriminate|].
  destruct (String.eqb k' k) eqn:E.
  - apply String.eqb_eq in E. subst k'. intros H. injection H as <-. auto.
  - auto.
Qed.

Lemma In_assoc (k : string) (es : list (string * node)) (x : node) :
  names_distinct (map fst es) = true -> In (k, x) es -> assoc k es = Some x.
Proof.
  induction es as [|[k' x'] t IH]; cbn; [contradiction|].
  intros Hd Hin. apply andb_true_iff in Hd. destruct Hd as [Hk Ht].
  destruct Hin as [Hin|Hin].
  - injection Hin as -> ->. rewrite String.eqb_refl. reflexivity.
  - destruct (String.eqb k' k) eqn:E; [|auto].
    apply String.eqb_eq in E. subst k'. exfalso.
    apply negb_true_iff in Hk.
    assert (Hex : existsb (String.eqb k) (map fst t) = true).
    { apply existsb_exists. exists k. split; [|apply String.eqb_refl].
      apply in_map_iff. exists (k, x). auto. }
    congruence.
Qed.

Lemma well_formed_dir (es : list (string * node)) :
  well_formed (Dir es) = true ->
  names_distinct (map fst es) = true
  /\ Forall (fun e => well_formed (snd e) = true) es.
Proof.
  cbn [well_formed]. intros H. apply andb_true_iff in H. destruct H as [Hn Ha].
  split; [exact Hn|]. clear Hn.
  induction es as [|[k x] t IH]; constructor.
  - cbn. apply andb_true_iff in Ha. tauto.
  - apply IH. apply andb_true_iff in Ha. tauto.
Qed.

(** Every regular file or special node below a directory is listed by
    its walk. *)
Lemma walk_files_complete (below : path) :
  forall n root x,
    below <> [] -> stat n below = inr x -> is_dir_node x = false ->
    In (root ++ below) (walk_files root n).
Proof.
  induction below as [|k rest IH]; intros n root x Hne Hs Hx; [congruence|].
  cbn [stat] in Hs. destruct n as [cnt|es|]; try discriminate.
  destruct (assoc k es) as [child|] eqn:Ea; try discriminate.
  apply assoc_In in Ea. cbn [walk_files]. apply in_or_app.
  destruct rest as [|k2 rest].
  - cbn in Hs. injection Hs as ->. left.
    apply in_map_iff. exists (k, x). split; [reflexivity|].
    apply filter_In. split; [exact Ea|]. cbn. rewrite Hx. reflexivity.
  - right.
    assert (Hin : In (root ++ k :: k2 :: rest)
                     (walk_files (root ++ [k]) child)).
    { replace (root ++ k :: k2 :: rest) with ((root ++ [k]) ++ k2 :: rest)
        by (rewrite <- app_assoc; reflexivity).
      eapply IH; eauto. discriminate. }
    clear - Ea Hin. induction es as [|[k' x'] t IHt]; [contradiction|].
    apply in_or_app. destruct Ea as [E|E].
    + injection E as -> ->. left. exact Hin.
    + right. apply IHt. exact E.
Qed.

(** In a well-formed tree, what the walk of a directory lists exists
    below it and is not a directory. *)
Lemma walk_files_sound (n : node) :
  forall root p,
    well_formed n = true -> In p (walk_files root n) ->
    exists below x,
      below <> [] /\ p = root ++ below
      /\ stat n below = inr x /\ is_dir_node x = false.
Proof.
  induction n as [c| |es IH] using node_tree_ind; intros root p Hwf Hin;
    try (cbn in Hin; contradiction).
  destruct (well_formed_dir es Hwf) as [Hnames Hsub].
  cbn [walk_files] in Hin. apply in_app_or in Hin. destruct Hin as [Hin|Hin].
  - apply in_map_iff in Hin. destruct Hin as [[k x] [<- Hin]].
    apply filter_In in Hin. destruct Hin as [Hin Hx]. cbn in Hx.
    apply negb_true_iff in Hx.
    exists [k], x. cbn [fst stat]. rewrite (In_assoc k es x Hnames Hin).
    repeat split; auto. discriminate.
  - assert (Hchild : exists k child,
               In (k, child) es /\ In p (walk_files (root ++ [k]) child)).
    { clear - Hin. induction es as [|[k' x'] t IHt]; [contradiction|].
      apply in_app_or in Hin. destruct Hin as [Hin|Hin].
      - exists k', x'. split; [left; reflexivity | exact Hin].
      - destruct (IHt Hin) as [k [child [H1 H2]]].
        exists k, child. split; [right; exact H1 | exact H2]. }
    destruct Hchild as [k [child [Hk Hin']]].
    rewrite Forall_forall in IH, Hsub.
    destruct (IH (k, child) Hk (root ++ [k]) p (Hsub (k, child) Hk) Hin')
      as [below [x [Hne [-> [Hs Hx]]]]].
    exists (k :: below), x. cbn [stat]. rewrite (In_assoc k es child Hnames Hk).
    repeat split; auto; [discriminate|].
    rewrite <- app_assoc. reflexivity.
Qed.

Lemma well_formed_stat (p : path) :
  forall n x, well_formed n = true -> stat n p = inr x -> well_formed x = true.
Proof.
  induction p as [|k rest IH]; intros n x Hwf Hs.
  - cbn in Hs. injection Hs as <-. exact Hwf.
  - cbn [stat] in Hs. destruct n as [cnt|es|]; try discriminate.
    destruct (assoc k es) as [child|] eqn:Ea; try discriminate.
    destruct (well_formed_dir es Hwf) as [_ Hsub].
    rewrite Forall_forall in Hsub.
    apply (IH child x); [|exact Hs].
    apply (Hsub (k, child)). apply assoc_In. exact Ea.
Qed.

(** The plan of a well-formed tree, entry by entry: a selected path that
    is a regular file, or a node that is not a directory (a regular file,
    or a special node) strictly below a selected directory.  No directory
    is a plan entry, and every regular file at or below a selected path is
    one. *)
Lemma plan_characterised (f : node) (files : list path) (p : path) :
  well_formed f = true ->
  (In p (_collect_all_files f files)
   <-> exists s below x,
         In s files /\ p = s ++ below /\ stat f p = inr x
         /\ is_dir_node x = false
         /\ (below = [] -> is_file_node x = true)).
Proof.
  intros Hwf. unfold _collect_all_files. rewrite in_flat_map. split.
  - intros [s [Hs Hin]]. unfold is_file, is_dir, walk in Hin.
    destruct (stat f s) as [e|n] eqn:Es; [contradiction|].
    destruct n as [c|es|]; cbn in Hin; try contradiction.
    + destruct Hin as [<-|[]]. exists s, [], (File c).
      rewrite app_nil_r. repeat split; auto.
    + destruct (walk_files_sound (Dir es) s p) as [below [x [Hne [-> [Hb Hx]]]]].
      * eapply well_formed_stat; eauto.
      * exact Hin.
      * exists s, below, x. rewrite stat_app, Es. repeat split; auto; congruence.
  - intros [s [below [x [Hs [-> [Hst [Hx Hfile]]]]]]]. exists s. split; [exact Hs|].
    rewrite stat_app in Hst. unfold is_file, is_dir, walk.
    destruct (stat f s) as [e|n] eqn:Es; [discriminate|].
    destruct below as [|k rest].
    + cbn in Hst. injection Hst as ->. specialize (Hfile eq_refl).
      rewrite Hfile, app_nil_r. left. reflexivity.
    + destruct n as [c|es|]; try discriminate. cbn [is_file_node is_dir_node].
      eapply walk_files_complete; eauto. discriminate.
Qed.

(** A selection of regular files is its own plan, and each of them goes
    to the destination under its base name. *)
Lemma plan_of_plain_files (f : node) (files : list path) :
  Forall (fun p => is_file f p = true) files ->
  _collect_all_files f files = files
  /\ List.length (_collect_all_files f files) = List.length files
  /\ forall p, rel_path f files p = inr (PurePath.Str (PurePath.name p)).
Proof.
  intros Hall.
  assert (E : _collect_all_files f files = files).
  { unfold _collect_all_files. induction Hall as [|p t Hp Ht IH]; [reflexivity|].
    cbn [flat_map]. rewrite Hp, IH. reflexivity. }
  split; [exact E|]. split; [rewrite E; reflexivity|].
  intros p. unfold rel_path. destruct files as [|a [|b t]]; try reflexivity.
  inversion Hall as [|? ? Ha _]; subst.
  assert (Hd : is_dir f a = false).
  { unfold is_file, is_dir in *. destruct (stat f a) as [e|[c|es|]]; auto; discriminate. }
  rewrite Hd. reflexivity.
Qed.

(** What the plan holds.  In a tree where no directory lists a
    name twice, the plan holds exactly the selected paths that are regular
    files and every node that is not a directory (a regular file, or a
    special node such as a socket) strictly below a selected directory;
    no directory is ever a plan entry; and when all selected paths are
    regular files the plan is the selection itself, as long as it, and
    every file goes to the destination under its base name. *)
Lemma plan_entries (f : node) (files : list path) :
  well_formed f = true ->
  (forall p,
      In p (_collect_all_files f files)
      <-> exists s below x,
            In s files /\ p = s ++ below /\ stat f p = inr x
            /\ is_dir_node x = false
            /\ (below = [] -> is_file_node x = true))
  /\ (forall p, In p (_collect_all_files f files) -> is_dir f p = false)
  /\ (Forall (fun p => is_file f p = true) files ->
      _collect_all_files f files = files
      /\ List.length (_collect_all_files f files) = List.length files
      /\ forall p, rel_path f files p = inr (PurePath.Str (PurePath.name p))).
Proof.
  intros Hwf. split; [|split].
  - intros p. apply plan_characterised. exact Hwf.
  - intros p Hin. apply (plan_characterised f files p Hwf) in Hin.
    destruct Hin as [s [below [x [_ [_ [Hs [Hx _]]]]]]].
    unfold is_dir. rewrite Hs. exact Hx.
  - apply plan_of_plain_files.
Qed.

End Plan.

(** ** Well-formed trees stay well formed *)

Section WellFormed.

Import Posix.

Lemma well_formed_dir_intro (es : list (string * node)) :
  names_distinct (map fst es) = true ->
  Forall (fun e => well_formed (snd e) = true) es ->
  well_formed (Dir es) = true.
Proof.
  intros Hn Ha. cbn [well_formed]. rewrite Hn. cbn [andb].
  induction Ha as [|[k x] t Hx Ht IH]; [reflexivity|].
  cbn in Hx. rewrite Hx. cbn [andb]. apply IH.
  cbn in Hn. apply andb_true_iff in Hn. tauto.
Qed.

Lemma names_set_entry_other (a k : string) (v : node) (es : list (string * node)) :
  a <> k ->
  existsb (String.eqb a) (map fst (set_entry k v es))
  = existsb (String.eqb a) (map fst es).
Proof.
  intros Hne. induction es as [|[k' x] t IH]; cbn.
  - destruct (String.eqb a k) eqn:E; [|reflexivity].
    apply String.eqb_eq in E. contradiction.
  - destruct (String.eqb k' k) eqn:E; cbn; [reflexivity|].
    rewrite IH. reflexivity.
Qed.

Lemma names_set_entry (k : string) (v : node) (es : list (string * node)) :
  names_distinct (map fst es) = true ->
  names_distinct (map fst (set_entry k v es)) = true.
Proof.
  induction es as [|[k' x] t IH]; cbn; [reflexivity|].
  intros H. apply andb_true_iff in H. destruct H as [Hk Ht].
  destruct (String.eqb k' k) eqn:E; cbn.
  - rewrite Hk, Ht. reflexivity.
  - apply String.eqb_neq in E. rewrite (names_set_entry_other k' k v t E), Hk.
    cbn [andb]. apply IH. exact Ht.
Qed.

Lemma names_remove_entry_in (a k : string) (es : list (string * node)) :
  existsb (String.eqb a) (map fst (remove_entry k es)) = true ->
  existsb (String.eqb a) (map fst es) = true.
Proof.
  induction es as [|[k' x] t IH]; cbn; [auto|].
  destruct (String.eqb k' k); cbn.
  - intros ->. apply orb_true_r.
  - intros H. apply orb_true_iff in H. apply orb_true_iff. tauto.
Qed.

Lemma names_remove_entry (k : string) (es : list (string * node)) :
  names_distinct (map fst es) = true ->
  names_distinct (map fst (remove_entry k es)) = true.
Proof.
  induction es as [|[k' x] t IH]; cbn; [reflexivity|].
  intros H. apply andb_true_iff in H. destruct H as [Hk Ht].
  destruct (String.eqb k' k); cbn; [exact Ht|].
  rewrite (IH Ht), andb_true_r. apply negb_true_iff.
  apply negb_true_iff in Hk.
  destruct (existsb (String.eqb k') (map fst (remove_entry k t))) eqn:E;
    [|reflexivity].
  apply names_remove_entry_in in E. congruence.
Qed.

(** In a directory without repeated names, a removed entry is gone. *)
Lemma assoc_remove_entry_same (k : string) (es : list (string * node)) :
  names_distinct (map fst es) = true -> assoc k (remove_entry k es) = None.
Proof.
  induction es as [|[k' x] t IH]; cbn; [reflexivity|].
  intros H. apply andb_true_iff in H. destruct H as [Hk Ht].
  destruct (String.eqb k' k) eqn:E; cbn.
  - apply String.eqb_eq in E. subst k'. apply negb_true_iff in Hk.
    destruct (assoc k t) as [y|] eqn:Ea; [|reflexivity].
    exfalso. apply assoc_In in Ea.
    assert (Hex : existsb (String.eqb k) (map fst t) = true).
    { apply existsb_exists. exists k. split; [|apply String.eqb_refl].
      apply in_map_iff. exists (k, y). auto. }
    congruence.
  - rewrite E. apply IH. exact Ht.
Qed.

Lemma assoc_remove_entry_other (k k' : string) (es : list (string * node)) :
  k' <> k -> assoc k' (remove_entry k es) = assoc k' es.
Proof.
  intros Hne. induction es as [|[k2 x] t IH]; cbn; [reflexivity|].
  destruct (String.eqb k2 k) eqn:E; cbn.
  - apply String.eqb_eq in E. subst k2.
    destruct (String.eqb k k') eqn:E'; [|reflexivity].
    apply String.eqb_eq in E'. congruence.
  - rewrite IH. reflexivity.
Qed.

Lemma Forall_set_entry (P : string * node -> Prop) (k : string) (v : node)
  (es : list (string * node)) :
  (forall k', P (k', v)) -> Forall P es -> Forall P (set_entry k v es).
Proof.
  intros Hv Ha. induction Ha as [|[k' x] t Hx Ht IH]; cbn.
  - constructor; [apply Hv | constructor].
  - destruct (String.eqb k' k); constructor; auto.
Qed.

Lemma Forall_remove_entry (P : string * node -> Prop) (k : string)
  (es : list (string * node)) :
  Forall P es -> Forall P (remove_entry k es).
Proof.
  intros Ha. induction Ha as [|[k' x] t Hx Ht IH]; cbn; [constructor|].
  destruct (String.eqb k' k); [exact Ht | constructor; auto].
Qed.

Lemma well_formed_set_entry (k : string) (v : node) (es : list (string * node)) :
  well_formed (Dir es) = true -> well_formed v = true ->
  well_formed (Dir (set_entry k v es)) = true.
Proof.
  intros Hwf Hv. destruct (well_formed_dir es Hwf) as [Hn Ha].
  apply well_formed_dir_intro.
  - apply names_set_entry. exact Hn.
  - apply Forall_set_entry; [intros; exact Hv | exact Ha].
Qed.

Lemma well_formed_child (k : string) (es : list (string * node)) (child : node) :
  well_formed (Dir es) = true -> assoc k es = Some child ->
  well_formed child = true.
Proof.
  intros Hwf Ea. destruct (well_formed_dir es Hwf) as [_ Ha].
  rewrite Forall_forall in Ha. apply (Ha (k, child)). apply assoc_In. exact Ea.
Qed.

(** A change that stores well-formed nodes keeps the tree well formed. *)
Lemma alter_well_formed (g : option node -> exn + option node) :
  (forall o v, g o = inr (Some v) -> well_formed v = true) ->
  forall p n n',
    well_formed n = true -> alter g n p = inr n' -> well_formed n' = true.
Proof.
  intros Hg. induction p as [|k rest IH]; intros n n' Hwf H.
  - cbn in H. destruct (g (Some n)) as [e|[v|]] eqn:E; try discriminate.
    injection H as <-. eapply Hg; eauto.
  - cbn in H. destruct n as [cnt|es|]; try discriminate.
    destruct rest as [|k2 rest].
    + destruct (g (assoc k es)) as [e|[v|]] eqn:E; try discriminate;
        injection H as <-.
      * apply well_formed_set_entry; [exact Hwf | eapply Hg; eauto].
      * destruct (well_formed_dir es Hwf) as [Hn Ha].
        apply well_formed_dir_intro.
        -- apply names_remove_entry. exact Hn.
        -- apply Forall_remove_entry. exact Ha.
    + destruct (assoc k es) as [child|] eqn:Ea; try discriminate.
      destruct (alter g child (k2 :: rest)) as [e|child'] eqn:Ec; try discriminate.
      injection H as <-. apply well_formed_set_entry; [exact Hwf|].
      apply (IH child child'); [|exact Ec].
      eapply well_formed_child; eauto.
Qed.

Lemma open_wb_well_formed (f f1 : node) (p : path) :
  well_formed f = true -> open_wb f p = inr f1 -> well_formed f1 = true.
Proof.
  unfold open_wb. apply alter_well_formed.
  intros [[c|es|]|] v E; try discriminate; injection E as <-; reflexivity.
Qed.

Lemma write_well_formed (f f' : node) (p : path) (buf : list byte) :
  well_formed f = true -> write f p buf = inr f' -> well_formed f' = true.
Proof.
  unfold write. apply alter_well_formed.
  intros [[c|es|]|] v E; try discriminate; injection E as <-; reflexivity.
Qed.

Lemma unlink_well_formed (f f' : node) (p : path) :
  well_formed f = true -> unlink f p = inr f' -> well_formed f' = true.
Proof.
  unfold unlink. apply alter_well_formed.
  intros [[c|es|]|] v E; discriminate.
Qed.

Lemma mkdir_parents_well_formed (p : path) :
  forall n n',
    well_formed n = true -> mkdir_parents n p = inr n' -> well_formed n' = true.
Proof.
  induction p as [|k rest IH]; intros n n' Hwf H.
  - cbn in H. destruct n; try discriminate. injection H as <-. exact Hwf.
  - cbn in H. destruct n as [cnt|es|]; try discriminate.
    destruct (mkdir_parents
                match assoc k es with Some ch => ch | None => Dir [] end rest)
      as [e|child'] eqn:Ec; try discriminate.
    injection H as <-. apply well_formed_set_entry; [exact Hwf|].
    eapply IH; [|exact Ec].
    destruct (assoc k es) as [child|] eqn:Ea; [|reflexivity].
    eapply well_formed_child; eauto.
Qed.

(** Making directories leaves every regular file as it was. *)
Lemma mkdir_parents_frame (p : path) :
  forall n n' q c,
    mkdir_parents n p = inr n' ->
    (stat n' q = inr (File c) <-> stat n q = inr (File c)).
Proof.
  induction p as [|k rest IH]; intros n n' q c H.
  - cbn in H. destruct n; try discriminate. injection H as <-. tauto.
  - cbn in H. destruct n as [cnt|es|]; try discriminate.
    destruct (mkdir_parents
                match assoc k es with Some ch => ch | None => Dir [] end rest)
      as [e|child'] eqn:Ec; try discriminate.
    injection H as <-.
    destruct q as [|k' q']; [cbn; split; discriminate|].
    cbn [stat]. destruct (string_dec k' k) as [->|Hk].
    + rewrite assoc_set_entry_same. rewrite (IH _ _ q' c Ec).
      destruct (assoc k es) as [child|]; [tauto|].
      destruct q'; cbn; split; discriminate.
    + rewrite assoc_set_entry_other by exact Hk. tauto.
Qed.

Lemma mkdir_parents_root (n n' : node) (p : path) :
  mkdir_parents n p = inr n' -> is_dir_node n = true.
Proof.
  destruct p; cbn; destruct n; try discriminate; reflexivity.
Qed.

(** Unlinking a regular file: it goes through, the path is gone, and
    every other regular file is as it was. *)
Lemma unlink_file (p : path) :
  forall n c,
    well_formed n = true -> p <> [] -> stat n p = inr (File c) ->
    exists n',
      unlink n p = inr n'
      /\ stat n' p = inl FileNotFoundError
      /\ forall q c', q <> p ->
           (stat n' q = inr (File c') <-> stat n q = inr (File c')).
Proof.
  unfold unlink.
  induction p as [|k rest IH]; intros n c Hwf Hne Hs; [congruence|].
  cbn [stat] in Hs. destruct n as [cnt|es|]; try discriminate.
  destruct (assoc k es) as [child|] eqn:Ea; try discriminate.
  destruct (well_formed_dir es Hwf) as [Hn Ha].
  cbn [alter]. destruct rest as [|k2 rest].
  - cbn in Hs. injection Hs as ->. rewrite Ea.
    eexists. split; [reflexivity|]. split.
    + cbn [stat]. rewrite (assoc_remove_entry_same k es Hn). reflexivity.
    + intros q c' Hq. destruct q as [|k' q']; [cbn; split; discriminate|].
      cbn [stat]. destruct (string_dec k' k) as [->|Hk].
      * rewrite (assoc_remove_entry_same k es Hn), Ea.
        destruct q'; [congruence|]. cbn. split; discriminate.
      * rewrite (assoc_remove_entry_other k k' es Hk). tauto.
  - rewrite Ea.
    destruct (IH child c) as [child' [Hu [Hgone Hframe]]];
      [eapply well_formed_child; eauto | discriminate | exact Hs |].
    rewrite Hu. eexists. split; [reflexivity|]. split.
    + cbn [stat]. rewrite assoc_set_entry_same. exact Hgone.
    + intros q c' Hq. destruct q as [|k' q']; [cbn; split; discriminate|].
      cbn [stat]. destruct (string_dec k' k) as [->|Hk].
      * rewrite assoc_set_entry_same, Ea. apply Hframe. congruence.
      * rewrite assoc_set_entry_other by exact Hk. tauto.
Qed.

End WellFormed.

(** ** The move of a file to another path *)

(** What the file-system calls of a transfer keep, the loops keep. *)
Section FsInvariant.

Variable J : node -> Prop.

Hypothesis J_mkdir :
  forall f f' p, J f -> Posix.mkdir_parents f p = inr f' -> J f'.
Hypothesis J_open :
  forall f f' p, J f -> Posix.open_wb f p = inr f' -> J f'.
Hypothesis J_write :
  forall f f' p buf, J f -> Posix.write f p buf = inr f' -> J f'.
Hypothesis J_unlink :
  forall f f' p, J f -> Posix.unlink f p = inr f' -> J f'.

Lemma copy_loop_keeps (src_path dst_path : path) (pane : pane_id)
  (file_index total_files total_size : nat) :
  forall fuel copied w,
    J (fs w) ->
    J (fs (fst (copy_loop fuel src_path dst_path pane file_index total_files
                  total_size copied w))).
Proof.
  induction fuel as [|fuel IH]; intros copied w Hw; [exact Hw|].
  cbn [copy_loop]. unfold bind at 1. unfold get_fs at 1.
  destruct (read_chunk (fs w) src_path copied) as [|b buf] eqn:Eb; [exact Hw|].
  unfold bind at 1. unfold fs_update at 1.
  destruct (Posix.write (fs w) dst_path (b :: buf)) as [e|f'] eqn:Ew; [exact Hw|].
  pose proof (J_write _ _ _ _ Hw Ew) as Hw'.
  unfold bind at 1.
  destruct (0 <? total_size)%nat;
    rewrite (surjective_pairing (_set_progress _ _ _ _)), set_progress_returns;
    apply IH; rewrite set_progress_fs; exact Hw'.
Qed.

Lemma copy_with_progress_keeps (src_path dst_path : path) (pane : pane_id)
  (file_index total_files : nat) (w : World) :
  J (fs w) ->
  J (fs (fst (_copy_with_progress src_path dst_path pane file_index total_files w))).
Proof.
  intros Hw. rewrite copy_with_progress_run. cbv zeta.
  destruct (Posix.open_rb (fs w) src_path) as [e|[]]; [exact Hw|].
  destruct (Posix.open_wb (fs w) dst_path) as [e|f1] eqn:Eo; [exact Hw|].
  pose proof (J_open _ _ _ Hw Eo) as Hw1.
  match goal with
  | |- context [copy_loop ?a ?b ?c ?d ?e ?f ?g ?h ?k] =>
      pose proof (copy_loop_keeps b c d e f g a h k Hw1) as Hl;
      destruct (copy_loop a b c d e f g h k) as [w2 [copied|e3|]]
  end; cbn [fst] in *; try exact Hl.
  rewrite set_progress_fs. exact Hl.
Qed.

Lemma entry_keeps (m : mode) (files : list path) (dst : pane_id) (d : path)
  (n i : nat) (p : path) (w : World) :
  J (fs w) -> J (fs (fst (entry m files dst d n i p w))).
Proof.
  intros Hw.
  destruct m; cbn [entry]; [rewrite copy_entry_run | rewrite move_entry_run];
    (destruct (rel_path (fs w) files p) as [e|rel]; [exact Hw|]);
    (destruct (Posix.mkdir_parents (fs w) _) as [e|f1] eqn:Em; [exact Hw|]);
    pose proof (copy_with_progress_keeps p (PurePath.div d rel) dst i n
                  (with_fs w f1) (J_mkdir _ _ _ Hw Em)) as Hc;
    destruct (_copy_with_progress _ _ _ _ _ _) as [w2 [c|e|]];
    cbn [fst] in *; try exact Hc.
  destruct (Posix.unlink (fs w2) p) as [e|f3] eqn:Eu; cbn [fst fs with_event with_fs].
  - exact Hc.
  - eapply J_unlink; eauto.
Qed.

Lemma transfer_loop_keeps (m : mode) (files : list path) (dst : pane_id)
  (d : path) (n : nat) (plan : list path) (i : nat) (w : World) :
  J (fs w) -> J (fs (fst (for_enumerate (entry m files dst d n) i plan w))).
Proof.
  apply (for_enumerate_invariant (fun w0 => J (fs w0))).
  intros j p w0. apply entry_keeps.
Qed.

End FsInvariant.

Lemma copy_with_progress_well_formed (src_path dst_path : path) (pane : pane_id)
  (file_index total_files : nat) (w : World) :
  Posix.well_formed (fs w) = true ->
  Posix.well_formed
    (fs (fst (_copy_with_progress src_path dst_path pane file_index total_files w)))
  = true.
Proof.
  apply (copy_with_progress_keeps (fun f => Posix.well_formed f = true)).
  - intros f f' p. apply open_wb_well_formed.
  - intros f f' p buf. apply write_well_formed.
Qed.

(** A transfer keeps a well-formed tree well formed. *)
Lemma transfer_loop_well_formed (m : mode) (files : list path) (dst : pane_id)
  (d : path) (n : nat) (plan : list path) (i : nat) (w : World) :
  Posix.well_formed (fs w) = true ->
  Posix.well_formed (fs (fst (for_enumerate (entry m files dst d n) i plan w)))
  = true.
Proof.
  apply (transfer_loop_keeps (fun f => Posix.well_formed f = true)).
  - intros f f' p. apply mkdir_parents_well_formed.
  - intros f f' p. apply open_wb_well_formed.
  - intros f f' p buf. apply write_well_formed.
  - intros f f' p. apply unlink_well_formed.
Qed.

(** One entry of a move whose destination is another path than the
    source: when the entry returns, the source path does not exist any
    more and the destination is a regular file with the bytes the source
    held. *)
Lemma move_entry_moves (files : list path) (dst : pane_id) (d : path)
  (n i : nat) (p : path) (w w' : World) (data : list byte)
  (rel : PurePath.pathlike) :
  Posix.well_formed (fs w) = true ->
  Posix.stat (fs w) p = inr (File data) ->
  rel_path (fs w) files p = inr rel ->
  PurePath.div d rel <> p ->
  move_entry files dst d n i p w = (w', Return tt) ->
  Posix.exists_ (fs w') p = false
  /\ Posix.stat (fs w') (PurePath.div d rel) = inr (File data)
  /\ Posix.well_formed (fs w') = true
  /\ tally Move w' = (S (fst (tally Move w)), snd (tally Move w)).
Proof.
  intros Hwf Hs Hrel Hne. rewrite move_entry_run, Hrel.
  set (target := PurePath.div d rel) in *.
  destruct (Posix.mkdir_parents (fs w) (PurePath.parent target)) as [e|f1] eqn:Em;
    [discriminate|].
  assert (Hp : p <> []).
  { intros ->. apply mkdir_parents_root in Em. cbn in Hs. injection Hs as Hs.
    rewrite Hs in Em. discriminate. }
  assert (Hs1 : Posix.stat f1 p = inr (File data))
    by (apply (mkdir_parents_frame _ _ _ p data Em); exact Hs).
  pose proof (mkdir_parents_well_formed _ _ _ Hwf Em) as Hwf1.
  pose proof (copy_with_progress_well_formed p target dst i n (with_fs w f1) Hwf1)
    as Hwf2.
  pose proof (copy_with_progress_tally p target dst i n (with_fs w f1)) as Htally.
  destruct (Posix.open_wb f1 target) as [e|f2] eqn:Eo.
  { rewrite copy_with_progress_run. cbv zeta. cbn [fs with_fs].
    rewrite (open_rb_file _ _ _ Hs1), Eo. discriminate. }
  assert (Hp' : p <> target) by congruence.
  destruct (copy_to_other_path (with_fs w f1) p target dst i n data f2 Hp' Hs1 Eo)
    as [Hret [Hdst [Hsrc _]]].
  destruct (_copy_with_progress p target dst i n (with_fs w f1)) as [w2 r2].
  cbn [fst snd] in *. subst r2.
  destruct (Htally w2 _ eq_refl) as [_ HM].
  destruct (unlink_file p (fs w2) data Hwf2 Hp Hsrc) as [f3 [Hu [Hgone Hframe]]].
  rewrite Hu. intros H. injection H as <-.
  split; [|split; [|split]].
  - unfold Posix.exists_. cbn [fs with_event with_fs]. rewrite Hgone. reflexivity.
  - cbn [fs with_event with_fs]. apply (Hframe target data Hne). exact Hdst.
  - cbn [fs with_event with_fs]. eapply unlink_well_formed; eauto.
  - rewrite tally_with_event, tally_with_fs, HM, tally_with_fs. cbn.
    rewrite Nat.add_0_r, Nat.add_1_r. reflexivity.
Qed.

(** ** Directories stay directories during a transfer *)

Section Directories.

Import Posix.

Lemma is_dir_root (x : node) (q : path) : is_dir x q = true -> is_dir_node x = true.
Proof.
  unfold is_dir. destruct q as [|k q']; cbn; [auto|].
  destruct x; try discriminate. reflexivity.
Qed.

Lemma is_dir_cons (es : list (string * node)) (k : string) (q : path) :
  is_dir (Dir es) (k :: q)
  = match assoc k es with Some x => is_dir x q | None => false end.
Proof. unfold is_dir. cbn [stat]. destruct (assoc k es); reflexivity. Qed.

(** A change that refuses directories leaves every directory in place. *)
Lemma alter_keeps_directory (g : option node -> exn + option node) :
  (forall es, exists e, g (Some (Dir es)) = inl e) ->
  forall p n n' q,
    alter g n p = inr n' -> is_dir n q = true -> is_dir n' q = true.
Proof.
  intros Hd.
  assert (Hrefuse : forall x r, g (Some x) = inr r -> is_dir_node x = false).
  { intros [c|es|] r E; try reflexivity. destruct (Hd es) as [e He]. congruence. }
  induction p as [|k rest IH]; intros n n' q H Hq.
  - cbn in H. destruct (g (Some n)) as [e|[v|]] eqn:E; try discriminate.
    apply is_dir_root in Hq. rewrite (Hrefuse _ _ E) in Hq. discriminate.
  - cbn in H. destruct n as [cnt|es|]; try discriminate.
    destruct q as [|k' q'].
    { destruct rest as [|k2 rest].
      - destruct (g (assoc k es)) as [e|[v|]]; try discriminate;
          injection H as <-; reflexivity.
      - destruct (assoc k es); try discriminate.
        destruct (alter g n (k2 :: rest)); try discriminate.
        injection H as <-. reflexivity. }
    rewrite is_dir_cons in Hq.
    destruct (string_dec k' k) as [->|Hk].
    + destruct (assoc k es) as [x|] eqn:Ea; [|discriminate].
      destruct rest as [|k2 rest].
      * destruct (g (Some x)) as [e|r] eqn:E; [discriminate|].
        apply is_dir_root in Hq. rewrite (Hrefuse _ _ E) in Hq. discriminate.
      * destruct (alter g x (k2 :: rest)) as [e|child'] eqn:Ec; try discriminate.
        injection H as <-. rewrite is_dir_cons, assoc_set_entry_same.
        eapply IH; eauto.
    + destruct rest as [|k2 rest].
      * destruct (g (assoc k es)) as [e|[v|]]; try discriminate;
          injection H as <-; rewrite is_dir_cons.
        -- rewrite assoc_set_entry_other by exact Hk. exact Hq.
        -- rewrite assoc_remove_entry_other by exact Hk. exact Hq.
      * destruct (assoc k es) as [child|]; try discriminate.
        destruct (alter g child (k2 :: rest)) as [e|child']; try discriminate.
        injection H as <-. rewrite is_dir_cons.
        rewrite assoc_set_entry_other by exact Hk. exact Hq.
Qed.

Lemma mkdir_parents_keeps_directory (p : path) :
  forall n n' q,
    mkdir_parents n p = inr n' -> is_dir n q = true -> is_dir n' q = true.
Proof.
  induction p as [|k rest IH]; intros n n' q H Hq.
  - cbn in H. destruct n; try discriminate. injection H as <-. exact Hq.
  - cbn in H. destruct n as [cnt|es|]; try discriminate.
    destruct (mkdir_parents
                match assoc k es with Some ch => ch | None => Dir [] end rest)
      as [e|child'] eqn:Ec; try discriminate.
    injection H as <-.
    destruct q as [|k' q']; [reflexivity|].
    rewrite is_dir_cons in *. destruct (string_dec k' k) as [->|Hk].
    + rewrite assoc_set_entry_same.
      destruct (assoc k es) as [x|]; [|discriminate].
      eapply IH; eauto.
    + rewrite assoc_set_entry_other by exact Hk. exact Hq.
Qed.

End Directories.

(** A directory at the start of a transfer is a directory all through
    its loop. *)
Lemma transfer_loop_keeps_directory (m : mode) (files : list path) (dst : pane_id)
  (d : path) (n : nat) (plan : list path) (i : nat) (w : World) (q : path) :
  Posix.is_dir (fs w) q = true ->
  Posix.is_dir (fs (fst (for_enumerate (entry m files dst d n) i plan w))) q = true.
Proof.
  apply (transfer_loop_keeps (fun f => Posix.is_dir f q = true)).
  - intros f f' p Hf H. eapply mkdir_parents_keeps_directory; eauto.
  - intros f f' p Hf H. unfold Posix.open_wb in H.
    eapply alter_keeps_directory; [|exact H|exact Hf].
    intros es. eexists. reflexivity.
  - intros f f' p buf Hf H. unfold Posix.write in H.
    eapply alter_keeps_directory; [|exact H|exact Hf].
    intros es. eexists. reflexivity.
  - intros f f' p Hf H. unfold Posix.unlink in H.
    eapply alter_keeps_directory; [|exact H|exact Hf].
    intros es. eexists. reflexivity.
Qed.

(** The relative path of a file below a single selected directory is the
    same whenever it is computed during the loop: the directory is still
    a directory after any number of entries. *)
Lemma rel_path_during_transfer (m : mode) (dst : pane_id) (d d0 : path)
  (n : nat) (plan : list path) (i : nat) (w : World) (p : path) :
  Posix.is_dir (fs w) d0 = true ->
  rel_path (fs (fst (for_enumerate (entry m [d0] dst d n) i plan w))) [d0] p
  = rel_path (fs w) [d0] p.
Proof.
  intros Hd. unfold rel_path.
  rewrite (transfer_loop_keeps_directory m [d0] dst d n plan i w d0 Hd), Hd.
  reflexivity.
Qed.

(** ** A transfer never runs out of fuel *)

(** Copy and Move end by themselves: they return or raise a Python
    exception. *)
Lemma transfer_never_out_of_fuel (m : mode) (src dst : pane_id) (w : World) :
  snd (run m src dst w) <> OutOfFuel.
Proof.
  destruct (selected_paths src w) as [|a t] eqn:Hsel.
  - rewrite (run_without_selection m src dst w Hsel). cbn. discriminate.
  - assert (Hne : selected_paths src w <> []) by (rewrite Hsel; discriminate).
    destruct (directory (pane_of w dst)) as [d|] eqn:Hdir.
    + rewrite (run_stages m src dst w d Hne Hdir).
      rewrite (bind_return (_set_progress dst _ _) _ w tt eq_refl).
      unfold bind at 1.
      match goal with
      | |- context [for_enumerate ?b ?i ?l ?w0] =>
          pose proof (for_enumerate_never_out_of_fuel b
                        (entry_never_out_of_fuel m _ dst d _) l i w0) as Hf;
          destruct (for_enumerate b i l w0) as [w1 [[]|e|]]
      end; cbn [snd] in *; try discriminate; try congruence.
      rewrite (bind_return (_reset_progress dst) _ w1 tt eq_refl).
      rewrite finish_returns. discriminate.
    + destruct m; cbn [run]; unfold _copy_files, _move_files, bind;
        rewrite selected_paths_run; unfold get_pane; rewrite Hdir, Hsel;
        cbn; discriminate.
Qed.

(** * Rows, navigation and deletion *)

(** ** What a row parses back to *)

Section Rows.

Import Text.

Lemma rstrip_keeps (drop : ascii -> bool) (s : string) (c : ascii) :
  drop c = false ->
  rstrip drop (s ++ String c "") = (s ++ String c "")%string.
Proof.
  intros Hc. induction s as [|a t IH]; cbn.
  - rewrite Hc. reflexivity.
  - rewrite IH. destruct t; reflexivity.
Qed.

Lemma rstrip_without (c : ascii) (s : string) :
  has_char c s = false -> rstrip (Ascii.eqb c) s = s.
Proof.
  induction s as [|a t IH]; cbn; [reflexivity|].
  intros H. apply orb_false_elim in H. destruct H as [Ha Ht].
  rewrite (IH Ht). destruct t; [rewrite Ha|]; reflexivity.
Qed.

Lemma rstrip_folder_row (name : string) :
  has_char "/" name = false ->
  rstrip (Ascii.eqb "/") (name ++ "/") = name.
Proof.
  induction name as [|a t IH]; cbn; [reflexivity|].
  intros H. apply orb_false_elim in H. destruct H as [Ha Ht].
  rewrite (IH Ht). destruct t; [rewrite Ha|]; reflexivity.
Qed.

Lemma parse_plain (name : string) :
  has_char "/" name = false -> contains " - " name = false ->
  _parse_entry_to_name name = name.
Proof.
  intros Hs Hc. unfold _parse_entry_to_name.
  rewrite (rstrip_without _ _ Hs). cbv zeta. rewrite Hc. reflexivity.
Qed.

Lemma parse_folder_row (name : string) :
  has_char "/" name = false -> contains " - " name = false ->
  _parse_entry_to_name (name ++ "/") = name.
Proof.
  intros Hs Hc. unfold _parse_entry_to_name.
  rewrite (rstrip_folder_row _ Hs). cbv zeta. rewrite Hc. reflexivity.
Qed.

Lemma parse_all_row (name : string) (x : node) :
  has_char "/" name = false -> contains " - " name = false ->
  _parse_entry_to_name (all_row name x) = name.
Proof.
  intros Hs Hc. unfold all_row.
  destruct (Posix.is_dir_node x);
    [apply parse_folder_row | apply parse_plain]; assumption.
Qed.

End Rows.

Section SizeRows.

Import Text.

Lemma append_assoc (a b c : string) :
  ((a ++ b) ++ c = a ++ (b ++ c))%string.
Proof. induction a as [|x a IH]; cbn; [reflexivity | rewrite IH; reflexivity]. Qed.

Lemma append_empty (s : string) : (s ++ "")%string = s.
Proof. induction s as [|x s IH]; cbn; [reflexivity | rewrite IH; reflexivity]. Qed.

Lemma prefix_boundary (x tail : string) :
  x <> "" ->
  prefix " - " (x ++ " - " ++ tail) = prefix " - " (x ++ " -").
Proof.
  intros Hx. destruct x as [|a [|b [|c x]]]; [contradiction| | |];
    cbn [prefix append];
    repeat match goal with |- context [ascii_dec ?u ?v] => destruct (ascii_dec u v) end;
    try reflexivity; destruct x; reflexivity.
Qed.

Lemma contains_cons (sep : string) (c : ascii) (s : string) :
  contains sep (String c s) = prefix sep (String c s) || contains sep s.
Proof. reflexivity. Qed.

Lemma split_no_sep (sep : string) (t cur : string) :
  contains sep t = false ->
  split_from sep 0 cur t = [(cur ++ t)%string].
Proof.
  revert cur. induction t as [|c t IH]; intros cur H.
  - cbn. rewrite append_empty. reflexivity.
  - rewrite contains_cons in H. apply orb_false_elim in H. destruct H as [Hp Ht].
    cbn [split_from]. rewrite Hp, (IH _ Ht), append_assoc. reflexivity.
Qed.

Lemma split_at_first (name tail cur : string) :
  contains " - " (name ++ " -") = false ->
  split_from " - " 0 cur (name ++ " - " ++ tail)
  = (cur ++ name)%string :: split " - " tail.
Proof.
  revert cur. induction name as [|c n IH]; intros cur H.
  - rewrite append_empty. destruct tail; reflexivity.
  - change ((String c n ++ " -")%string) with (String c (n ++ " -")) in H.
    rewrite contains_cons in H. apply orb_false_elim in H. destruct H as [Hp Ht].
    change ((String c n ++ " - " ++ tail)%string)
      with (String c (n ++ " - " ++ tail)).
    cbn [split_from].
    change (String c (n ++ " - " ++ tail))
      with ((String c n ++ " - " ++ tail)%string).
    rewrite prefix_boundary by discriminate.
    change ((String c n ++ " -")%string) with (String c (n ++ " -")).
    rewrite Hp, (IH _ Ht), append_assoc. reflexivity.
Qed.

Lemma has_char_app (c : ascii) (a b : string) :
  has_char c (a ++ b) = has_char c a || has_char c b.
Proof.
  induction a as [|x a IH]; cbn; [reflexivity|].
  rewrite IH, orb_assoc. reflexivity.
Qed.

Lemma contains_needs_dash (s : string) :
  has_char "-" s = false -> contains " - " s = false.
Proof.
  induction s as [|a t IH]; [reflexivity|].
  intros H. cbn [has_char] in H. apply orb_false_elim in H. destruct H as [_ Ht].
  rewrite contains_cons, (IH Ht), orb_false_r.
  cbn [prefix]. destruct (ascii_dec " " a); [|reflexivity].
  destruct t as [|b u]; [reflexivity|].
  cbn [has_char] in Ht. apply orb_false_elim in Ht. destruct Ht as [Hb _].
  cbn [prefix].
  destruct (ascii_dec "-" b) as [<-|]; [discriminate Hb | reflexivity].
Qed.

Lemma decimal_without_dash (n : nat) : has_char "-" (decimal n) = false.
Proof.
  unfold decimal. induction (Nat.to_uint n); cbn; assumption || reflexivity.
Qed.

Lemma lstrip_before (drop : ascii -> bool) (suffix : string) (t : string) :
  lstrip drop suffix = suffix ->
  exists u, lstrip drop (t ++ suffix) = (u ++ suffix)%string.
Proof.
  intros Hs. induction t as [|c t [u IH]].
  - exists "". exact Hs.
  - cbn. destruct (drop c).
    + exists u. exact IH.
    + exists (String c t). reflexivity.
Qed.

Lemma substring_all (s : string) : substring 0 (String.length s) s = s.
Proof. induction s as [|c s IH]; cbn; [reflexivity | rewrite IH; reflexivity]. Qed.

Lemma endswith_app (u suffix : string) : endswith (u ++ suffix) suffix = true.
Proof.
  unfold endswith. cbv zeta.
  assert (L : String.length (u ++ suffix)
              = String.length u + String.length suffix).
  { induction u as [|c u IH]; cbn; [reflexivity | rewrite IH; reflexivity]. }
  rewrite L. apply andb_true_intro. split.
  - apply Nat.leb_le. lia.
  - replace (String.length u + String.length suffix - String.length suffix)
      with (String.length u) by lia.
    apply String.eqb_eq. clear L.
    induction u as [|c u IH]; cbn; [apply substring_all | exact IH].
Qed.

Lemma endswith_bytes (t : string) :
  endswith (strip (t ++ " bytes")) "bytes" = true.
Proof.
  unfold strip.
  change (" bytes") with ((" byte" ++ "s")%string).
  rewrite <- append_assoc, rstrip_keeps by reflexivity.
  rewrite append_assoc.
  change ((" byte" ++ "s")%string) with ((" " ++ "bytes")%string).
  rewrite <- append_assoc.
  destruct (lstrip_before is_space "bytes" (t ++ " ") eq_refl) as [u ->].
  apply endswith_app.
Qed.

Lemma contains_after (a b : string) :
  contains " - " (a ++ " - " ++ b) = true.
Proof.
  induction a as [|c a IH]; [destruct b; reflexivity|].
  change ((String c a ++ " - " ++ b)%string) with (String c (a ++ " - " ++ b)).
  rewrite contains_cons, IH. apply orb_true_r.
Qed.

End SizeRows.

(** X1. A row of the listing by size parses back to the name of its
    file: [_parse_entry_to_name] of [name - N bytes] is [name], for
    every size [N] and every name in which no [" - "] occurs, not even
    with the separator that follows the name. *)
Theorem size_row_parses_back (name : string) (size : nat) :
  Text.contains " - " (name ++ " -") = false ->
  _parse_entry_to_name (size_row name size) = name.
Proof.
  intros H. unfold _parse_entry_to_name, size_row. cbv zeta.
  set (tail := (decimal size ++ " bytes")%string).
  assert (Hr : Text.rstrip (Ascii.eqb "/") (name ++ " - " ++ tail)
               = (name ++ " - " ++ tail)%string).
  { unfold tail. change " bytes" with ((" byte" ++ "s")%string).
    rewrite <- !append_assoc. apply rstrip_keeps. reflexivity. }
  rewrite Hr, contains_after. unfold Text.split.
  rewrite (split_at_first name tail "" H). unfold Text.split.
  rewrite split_no_sep.
  2:{ apply contains_needs_dash. unfold tail.
      rewrite has_char_app, decimal_without_dash. reflexivity. }
  cbn [List.last removelast String.append].
  unfold tail. rewrite endswith_bytes. cbn. reflexivity.
Qed.

(** ** Rows and the entries they stand for *)

Lemma stat_child (f : node) (d : path) (es : list (string * node))
    (name : string) :
  Posix.stat f d = inr (Dir es) ->
  Posix.stat f (d ++ [name])
  = match Posix.assoc name es with
    | Some x => inr x
    | None => inl FileNotFoundError
    end.
Proof.
  intros H. rewrite stat_app, H. cbn. destruct (Posix.assoc name es); reflexivity.
Qed.

Lemma div_plain_name (d : path) (name : string) :
  name <> "" -> name <> "." ->
  PurePath.div d (PurePath.Str name) = d ++ [name].
Proof.
  intros H1 H2. unfold PurePath.div.
  destruct (String.eqb_spec name ""); [contradiction|].
  destruct (String.eqb_spec name "."); [contradiction|]. reflexivity.
Qed.

(** X2. The rows that [list_all] shows resolve to the entries they were
    made from: when the selected rows are the rows of some entries of
    the pane's directory, folders with their slash, and the names are
    plain, [get_selected_paths] returns exactly the paths of those
    entries, in the order of the rows. *)
Theorem listed_rows_select_entries (self : pane_id) (w : World) (d : path)
    (es chosen : list (string * node)) :
  directory (pane_of w self) = Some d ->
  Posix.stat (fs w) d = inr (Dir es) ->
  Forall (fun e => Posix.assoc (fst e) es = Some (snd e) /\ plain_name (fst e))
    chosen ->
  selection (pane_of w self) = rows_of chosen ->
  get_selected_paths self w = (w, Return (children d (map fst chosen))).
Proof.
  intros Hd Hs Hc Hsel.
  unfold get_selected_paths, bind, get_pane, get_fs, ret. rewrite Hd, Hsel.
  do 2 f_equal. unfold rows_of, children. rewrite !map_map. clear Hsel.
  induction Hc as [|[name x] t [Ha [Hslash [Hsep [Hn1 Hn2]]]] Ht IH];
    [reflexivity|].
  cbn [map filter fst snd] in *.
  rewrite (parse_all_row name x Hslash Hsep), (div_plain_name d name Hn1 Hn2).
  unfold Posix.exists_ at 1. rewrite (stat_child _ _ _ name Hs), Ha.
  rewrite IH. reflexivity.
Qed.

(** ** What a listing leaves alone *)

Section Listing.

Variable I : World -> Prop.
Variable self : pane_id.

Hypothesis I_pane : forall w p, I w ->
  directory p = directory (pane_of w self) ->
  selection p = selection (pane_of w self) \/ selection p = [] ->
  I (with_pane w self p).
Hypothesis I_quiet : forall w e, quiet e = true -> I w -> I (with_event w e).

Lemma set_progress_listing (v m : Q) (w : World) :
  I w -> I (fst (_set_progress self v m w)).
Proof.
  intros H. unfold _set_progress. cbn [fst].
  apply I_quiet; [reflexivity|]. apply I_pane; auto.
Qed.

Lemma reset_progress_listing (w : World) : I w -> I (fst (_reset_progress self w)).
Proof. rewrite reset_progress_eq. apply set_progress_listing. Qed.

Lemma update_list_listing (total : nat) (w : World) :
  I w -> I (fst (update_list_with_progress self total w)).
Proof.
  intros H. unfold update_list_with_progress.
  rewrite (@bind_return _ _ (_reset_list self) _ w tt eq_refl).
  rewrite (@bind_return _ _ (_set_progress self _ _) _ _ tt eq_refl).
  rewrite bind_return with (a := tt)
    by (apply for_enumerate_returns; intros; reflexivity).
  apply reset_progress_listing. apply for_enumerate_invariant.
  - intros i x w0. apply set_progress_listing.
  - apply set_progress_listing. unfold _reset_list. cbn [fst].
    apply I_pane; auto.
Qed.

Lemma list_contents_listing (w : World) : I w -> I (fst (list_contents self w)).
Proof.
  intros H. unfold list_contents, list_all, bind at 1, get_pane at 1.
  destruct (directory (pane_of w self)) as [d|]; [|exact H].
  unfold bind at 1, try_except, bind at 1, fs_read.
  destruct (Posix.scandir (fs w) d) as [e|es]; unfold ret; cbn [fst snd].
  - unfold bind at 1, emit. apply update_list_listing.
    apply I_quiet; [reflexivity | exact H].
  - apply update_list_listing. exact H.
Qed.

End Listing.

Lemma pane_of_with_pane_same (w : World) (i : pane_id) (p : Pane) :
  pane_of (with_pane w i p) i = p.
Proof. destruct i; reflexivity. Qed.

Lemma pane_of_with_pane (w : World) (i j : pane_id) (p : Pane) :
  pane_of (with_pane w i p) j = if pane_id_eq_dec i j then p else pane_of w j.
Proof.
  destruct (pane_id_eq_dec i j) as [<-|H];
    [apply pane_of_with_pane_same | apply pane_of_with_pane_other; exact H].
Qed.

Lemma list_contents_fs (self : pane_id) (w : World) :
  fs (fst (list_contents self w)) = fs w.
Proof.
  apply (list_contents_display (fun w' => fs w' = fs w) self);
    [intros w0 p H; destruct self; exact H | intros w0 e _ H; exact H
    | reflexivity].
Qed.

Lemma list_contents_directory (self i : pane_id) (w : World) :
  directory (pane_of (fst (list_contents self w)) i) = directory (pane_of w i).
Proof.
  apply (list_contents_listing
           (fun w' => directory (pane_of w' i) = directory (pane_of w i)) self);
    [| intros w0 e _ H; exact H | reflexivity].
  intros w0 p H Hd _. rewrite pane_of_with_pane.
  destruct (pane_id_eq_dec self i) as [<-|]; congruence.
Qed.

Lemma list_contents_keeps_no_selection (self i : pane_id) (w : World) :
  selection (pane_of w i) = [] ->
  selection (pane_of (fst (list_contents self w)) i) = [].
Proof.
  apply (list_contents_listing (fun w' => selection (pane_of w' i) = []) self);
    [| intros w0 e _ H; exact H].
  intros w0 p H _ Hs. rewrite pane_of_with_pane.
  destruct (pane_id_eq_dec self i) as [<-|]; [|exact H].
  destruct Hs; congruence.
Qed.

Lemma set_progress_pane (self i : pane_id) (v m : Q) (w : World) :
  directory (pane_of (fst (_set_progress self v m w)) i) = directory (pane_of w i)
  /\ selection (pane_of (fst (_set_progress self v m w)) i)
     = selection (pane_of w i).
Proof. destruct self, i; split; reflexivity. Qed.

Lemma list_contents_clears_selection (self : pane_id) (w : World) (d : path) :
  directory (pane_of w self) = Some d ->
  selection (pane_of (fst (list_contents self w)) self) = [].
Proof.
  intros Hd. unfold list_contents, list_all, bind at 1, get_pane at 1.
  rewrite Hd. rewrite bind_return with (a :=
    match Posix.scandir (fs w) d with inl _ => 0 | inr es => List.length es end).
  2:{ unfold try_except, bind, fs_read, emit, ret.
      destruct (Posix.scandir (fs w) d); reflexivity. }
  unfold update_list_with_progress.
  rewrite (@bind_return _ _ (_reset_list self) _ _ tt eq_refl).
  rewrite (@bind_return _ _ (_set_progress self _ _) _ _ tt eq_refl).
  rewrite bind_return with (a := tt)
    by (apply for_enumerate_returns; intros; reflexivity).
  rewrite reset_progress_eq.
  rewrite (proj2 (set_progress_pane self self _ _ _)).
  apply (for_enumerate_invariant (fun w' => selection (pane_of w' self) = [])).
  { intros i x w0 H. rewrite (proj2 (set_progress_pane self self _ _ _)). exact H. }
  rewrite (proj2 (set_progress_pane self self _ _ _)).
  unfold _reset_list. cbn [fst]. rewrite pane_of_with_pane_same. reflexivity.
Qed.

(** ** Opening a folder and going up *)

Lemma path_eqb_eq (p q : path) : path_eqb p q = true <-> p = q.
Proof.
  revert q. induction p as [|a p IH]; intros [|b q]; cbn; split;
    try discriminate; try reflexivity.
  - intros H. apply andb_prop in H. destruct H as [Ha Hp].
    apply String.eqb_eq in Ha. apply IH in Hp. congruence.
  - intros H. injection H as -> ->. rewrite String.eqb_refl. apply IH. reflexivity.
Qed.

Lemma parent_of_child (d : path) (name : string) :
  PurePath.parent (d ++ [name]) = d /\
  path_eqb (PurePath.parent (d ++ [name])) (d ++ [name]) = false.
Proof.
  unfold PurePath.parent. rewrite removelast_last. split; [reflexivity|].
  destruct (path_eqb d (d ++ [name])) eqn:E; [|reflexivity].
  apply path_eqb_eq in E. apply (f_equal (@List.length string)) in E.
  rewrite length_app in E. cbn in E. lia.
Qed.

Lemma go_up_run (self : pane_id) (w : World) (d : path) (name : string) :
  directory (pane_of w self) = Some (d ++ [name]) ->
  go_up self w
  = list_contents self (fst (set_directory self (Some d) w)).
Proof.
  intros Hd. unfold go_up, bind at 1, get_pane at 1. rewrite Hd.
  destruct (parent_of_child d name) as [Hp ->]. rewrite Hp. reflexivity.
Qed.

Lemma on_double_click_run (self : pane_id) (w : World) (d : path)
    (name : string) (rest : list string) :
  directory (pane_of w self) = Some d ->
  selection (pane_of w self) = (name ++ "/")%string :: rest ->
  _parse_entry_to_name (name ++ "/") = name ->
  name <> "" -> name <> "." ->
  Posix.is_dir (fs w) (d ++ [name]) = true ->
  _on_double_click self w
  = list_contents self (fst (set_directory self (Some (d ++ [name])) w)).
Proof.
  intros Hd Hsel Hparse Hn1 Hn2 Hdir.
  unfold _on_double_click, bind at 1, get_pane at 1. rewrite Hd, Hsel.
  rewrite Hparse, (div_plain_name d name Hn1 Hn2).
  unfold bind at 1, get_fs at 1. rewrite Hdir. reflexivity.
Qed.

Lemma set_directory_pane (self : pane_id) (o : option path) (w : World) :
  directory (pane_of (fst (set_directory self o w)) self) = o
  /\ fs (fst (set_directory self o w)) = fs w.
Proof. destruct self; split; reflexivity. Qed.

(** X3. Opening a folder and going up again is a round trip.  The first
    selected row is the row of a folder of the pane's directory [d]: the
    name of an entry (no slash, not empty, neither [.] nor [..])
    followed by a slash, and a row that parses back to that name, as it
    does unless the name has the form [x - ... bytes] of a row of the
    listing by size.  Then a double click makes that folder the pane's
    directory, and [go_up] from there makes [d] the directory again;
    both return and neither touches the files. *)
Theorem open_folder_then_go_up (self : pane_id) (w : World) (d : path)
    (name : string) (rest : list string) :
  directory (pane_of w self) = Some d ->
  selection (pane_of w self) = (name ++ "/")%string :: rest ->
  entry_name name -> name <> "" -> name <> "." ->
  _parse_entry_to_name (name ++ "/") = name ->
  Posix.is_dir (fs w) (d ++ [name]) = true ->
  let r1 := _on_double_click self w in
  let r2 := go_up self (fst r1) in
  snd r1 = Return tt /\ directory (pane_of (fst r1) self) = Some (d ++ [name]) /\
  snd r2 = Return tt /\ directory (pane_of (fst r2) self) = Some d /\
  fs (fst r2) = fs w.
Proof.
  intros Hd Hsel _ Hn1 Hn2 Hparse Hdir r1 r2.
  assert (E1 : r1 = list_contents self
                      (fst (set_directory self (Some (d ++ [name])) w))).
  { apply on_double_click_run with rest; assumption. }
  assert (D1 : directory (pane_of (fst r1) self) = Some (d ++ [name])).
  { rewrite E1, list_contents_directory. apply set_directory_pane. }
  assert (E2 : r2 = list_contents self (fst (set_directory self (Some d) (fst r1)))).
  { apply go_up_run with name. exact D1. }
  split; [rewrite E1; apply list_contents_returns|].
  split; [exact D1|].
  split; [rewrite E2; apply list_contents_returns|].
  split.
  - rewrite E2, list_contents_directory. apply set_directory_pane.
  - rewrite E2, list_contents_fs, (proj2 (set_directory_pane _ _ _)).
    rewrite E1, list_contents_fs. apply set_directory_pane.
Qed.

(** ** Removing an entry of the tree *)

Section Removal.

Import Posix.

Variable g : option node -> exn + option node.
Hypothesis g_removes : remover g.

Lemma removal_not_root (n n' : node) : alter g n [] = inr n' -> False.
Proof.
  cbn. destruct (g (Some n)) as [e|[v|]] eqn:E; try discriminate.
  intros _. exact (g_removes _ _ E).
Qed.

Lemma removal_well_formed (p : path) (n n' : node) :
  well_formed n = true -> alter g n p = inr n' -> well_formed n' = true.
Proof.
  apply alter_well_formed. intros o v H. destruct (g_removes _ _ H).
Qed.

Lemma removal_gone (p : path) (n n' : node) :
  well_formed n = true -> alter g n p = inr n' ->
  stat n' p = inl FileNotFoundError.
Proof.
  revert n n'. induction p as [|c rest IH]; intros n n' Hwf H.
  - destruct (removal_not_root _ _ H).
  - cbn [alter] in H. destruct n as [cnt|es|]; try discriminate.
    destruct rest as [|c' rest'].
    + destruct (g (assoc c es)) as [e|[v|]] eqn:E; try discriminate.
      * destruct (g_removes _ _ E).
      * injection H as <-. cbn [stat].
        rewrite assoc_remove_entry_same; [reflexivity|].
        apply well_formed_dir. exact Hwf.
    + destruct (assoc c es) as [child|] eqn:Ec; try discriminate.
      destruct (alter g child (c' :: rest')) as [e|child'] eqn:Ea;
        try discriminate.
      injection H as <-. cbn [stat]. rewrite assoc_set_entry_same.
      apply (IH child child'); [|exact Ea].
      apply (well_formed_child c es); assumption.
Qed.

Lemma removal_frame (p : path) (n n' : node) (q : path) (x : list byte) :
  alter g n p = inr n' -> is_below p q = false ->
  stat n' q = inr (File x) <-> stat n q = inr (File x).
Proof.
  revert n n' q. induction p as [|c rest IH]; intros n n' q H Hq.
  - discriminate Hq.
  - cbn [alter] in H. destruct n as [cnt|es|]; try discriminate.
    destruct q as [|b q'].
    + assert (D : exists es', n' = Dir es').
      { destruct rest as [|c' rest'].
        - destruct (g (assoc c es)) as [e|[v|]] eqn:E; try discriminate.
          + destruct (g_removes _ _ E).
          + injection H as <-. eauto.
        - destruct (assoc c es); try discriminate.
          destruct (alter g n (c' :: rest')); try discriminate.
          injection H as <-. eauto. }
      destruct D as [es' ->]. cbn [stat]. split; discriminate.
    + cbn [is_below] in Hq. cbn [stat].
      destruct (String.eqb_spec c b) as [<-|Hcb].
      * cbn [andb] in Hq. destruct rest as [|c' rest']; [discriminate Hq|].
        destruct (assoc c es) as [child|] eqn:Ec; try discriminate.
        destruct (alter g child (c' :: rest')) as [e|child'] eqn:Ea;
          try discriminate.
        injection H as <-. rewrite assoc_set_entry_same.
        apply (IH child child' q' Ea Hq).
      * assert (Hbc : b <> c) by congruence.
        destruct rest as [|c' rest'].
        -- destruct (g (assoc c es)) as [e|[v|]] eqn:E; try discriminate.
           ++ destruct (g_removes _ _ E).
           ++ injection H as <-.
              rewrite (assoc_remove_entry_other c b es Hbc). reflexivity.
        -- destruct (assoc c es) as [child|] eqn:Ec; try discriminate.
           destruct (alter g child (c' :: rest')) as [e|child'] eqn:Ea;
             try discriminate.
           injection H as <-.
           rewrite (assoc_set_entry_other c b child' es Hbc). reflexivity.
Qed.

Lemma removal_keeps_absent (p : path) (n n' : node) (q : path) :
  well_formed n = true -> alter g n p = inr n' ->
  exists_ n q = false -> exists_ n' q = false.
Proof.
  unfold exists_. revert n n' q. induction p as [|c rest IH]; intros n n' q Hwf H.
  - destruct (removal_not_root _ _ H).
  - cbn [alter] in H. destruct n as [cnt|es|]; try discriminate.
    destruct q as [|b q']; [discriminate|]. cbn [stat].
    destruct (String.eqb_spec c b) as [<-|Hcb].
    + destruct rest as [|c' rest'].
      * destruct (g (assoc c es)) as [e|[v|]] eqn:E; try discriminate.
        -- destruct (g_removes _ _ E).
        -- injection H as <-. intros _.
           rewrite assoc_remove_entry_same; [reflexivity|].
           apply well_formed_dir. exact Hwf.
      * destruct (assoc c es) as [child|] eqn:Ec; try discriminate.
        destruct (alter g child (c' :: rest')) as [e|child'] eqn:Ea;
          try discriminate.
        injection H as <-. rewrite assoc_set_entry_same.
        apply (IH child child' q'); [|exact Ea].
        apply (well_formed_child c es); assumption.
    + assert (Hbc : b <> c) by congruence.
      destruct rest as [|c' rest'].
      * destruct (g (assoc c es)) as [e|[v|]] eqn:E; try discriminate.
        -- destruct (g_removes _ _ E).
        -- injection H as <-.
           rewrite (assoc_remove_entry_other c b es Hbc). auto.
      * destruct (assoc c es) as [child|] eqn:Ec; try discriminate.
        destruct (alter g child (c' :: rest')) as [e|child'] eqn:Ea;
          try discriminate.
        injection H as <-.
        rewrite (assoc_set_entry_other c b child' es Hbc). auto.
Qed.

Lemma removal_defined (p : path) (n x : node) :
  p <> [] -> stat n p = inr x -> g (Some x) = inr None ->
  exists n', alter g n p = inr n'.
Proof.
  revert n. induction p as [|c rest IH]; intros n Hp Hs Hg; [contradiction|].
  cbn [stat] in Hs. destruct n as [cnt|es|]; try discriminate.
  destruct (assoc c es) as [child|] eqn:Ec; try discriminate.
  cbn [alter]. destruct rest as [|c' rest'].
  - cbn in Hs. injection Hs as ->. rewrite Ec, Hg. eauto.
  - rewrite Ec. destruct (IH child) as [child' ->]; [discriminate|exact Hs|exact Hg|].
    eauto.
Qed.

End Removal.

(** ** Deleting the selected entries *)

Lemma rmtree_removes :
  remover (fun o => match o with
                    | Some (Dir _) => inr None
                    | Some _ => inl NotADirectoryError
                    | None => inl FileNotFoundError
                    end).
Proof. intros [[| |]|] v; discriminate. Qed.

Lemma unlink_removes :
  remover (fun o => match o with
                    | Some (Dir _) => inl IsADirectoryError
                    | None => inl FileNotFoundError
                    | _ => inr None
                    end).
Proof. intros [[| |]|] v; discriminate. Qed.

Lemma delete_path_returns (p : path) (w : World) :
  snd (delete_path p w) = Return tt.
Proof.
  unfold delete_path, try_except, bind, get_fs.
  destruct (Posix.is_dir (fs w) p).
  - destruct p as [|c rest]; unfold rmtree, fs_update.
    + destruct (fs w); reflexivity.
    + destruct (Posix.alter _ (fs w) (c :: rest)); reflexivity.
  - unfold fs_update. destruct (Posix.unlink (fs w) p); reflexivity.
Qed.

Lemma delete_path_keeps (J : node -> Prop) (p : path) (w : World) :
  (forall g f', remover g -> Posix.alter g (fs w) p = inr f' -> J f') ->
  (p = [] -> J (Dir [])) ->
  J (fs w) -> J (fs (fst (delete_path p w))).
Proof.
  intros Halter Hroot H. unfold delete_path, try_except, bind, get_fs.
  destruct (Posix.is_dir (fs w) p).
  - destruct p as [|c rest]; unfold rmtree, fs_update.
    + destruct (fs w) eqn:F; cbn; rewrite ?F; auto.
    + destruct (Posix.alter _ (fs w) (c :: rest)) as [e|f'] eqn:A; cbn;
        [exact H | exact (Halter _ _ rmtree_removes A)].
  - unfold fs_update. destruct (Posix.unlink (fs w) p) as [e|f'] eqn:A; cbn;
      [exact H | exact (Halter _ _ unlink_removes A)].
Qed.

Lemma delete_path_gone (p : path) (w : World) :
  Posix.well_formed (fs w) = true -> p <> [] ->
  Posix.exists_ (fs (fst (delete_path p w))) p = false.
Proof.
  intros Hwf Hp. unfold delete_path, try_except, bind, get_fs.
  unfold Posix.is_dir.
  destruct (Posix.stat (fs w) p) as [e|x] eqn:S.
  - unfold fs_update. destruct (Posix.unlink (fs w) p) as [e'|f'] eqn:A; cbn.
    + unfold Posix.exists_. rewrite S. reflexivity.
    + unfold Posix.exists_.
      rewrite (removal_gone _ unlink_removes p _ _ Hwf A). reflexivity.
  - destruct (Posix.is_dir_node x) eqn:D.
    + destruct p as [|c rest]; [contradiction|]. unfold rmtree, fs_update.
      destruct (Posix.alter _ (fs w) (c :: rest)) as [e'|f'] eqn:A; cbn.
      * match type of A with Posix.alter ?g _ _ = _ =>
          destruct (removal_defined g (c :: rest) (fs w) x Hp S) as [n' E]
        end; [destruct x; try discriminate D; reflexivity|]. congruence.
      * unfold Posix.exists_.
        rewrite (removal_gone _ rmtree_removes (c :: rest) _ _ Hwf A).
        reflexivity.
    + unfold fs_update. destruct (Posix.unlink (fs w) p) as [e'|f'] eqn:A; cbn.
      * unfold Posix.unlink in A.
        match type of A with Posix.alter ?g _ _ = _ =>
          destruct (removal_defined g p (fs w) x Hp S) as [n' E]
        end; [destruct x; try discriminate D; reflexivity|]. congruence.
      * unfold Posix.exists_.
        rewrite (removal_gone _ unlink_removes p _ _ Hwf A). reflexivity.
Qed.

Lemma delete_path_well_formed (p : path) (w : World) :
  Posix.well_formed (fs w) = true ->
  Posix.well_formed (fs (fst (delete_path p w))) = true.
Proof.
  intros Hwf. apply (delete_path_keeps (fun f => Posix.well_formed f = true));
    [|reflexivity|exact Hwf].
  intros g f' Hg. apply (removal_well_formed g Hg). exact Hwf.
Qed.

Lemma delete_path_keeps_absent (p q : path) (w : World) :
  Posix.well_formed (fs w) = true ->
  Posix.exists_ (fs w) q = false ->
  Posix.exists_ (fs (fst (delete_path p w))) q = false.
Proof.
  intros Hwf Hq. apply (delete_path_keeps (fun f => Posix.exists_ f q = false));
    [| |exact Hq].
  - intros g f' Hg A. exact (removal_keeps_absent g Hg p _ _ q Hwf A Hq).
  - intros _. destruct q; [discriminate Hq | reflexivity].
Qed.

Lemma delete_path_frame (p q : path) (c : list byte) (w : World) :
  is_below p q = false ->
  Posix.stat (fs (fst (delete_path p w))) q = inr (File c)
  <-> Posix.stat (fs w) q = inr (File c).
Proof.
  intros Hq.
  apply (delete_path_keeps
           (fun f => Posix.stat f q = inr (File c)
                     <-> Posix.stat (fs w) q = inr (File c)));
    [| |reflexivity].
  - intros g f' Hg A. exact (removal_frame g Hg p _ _ q c A Hq).
  - intros ->. discriminate Hq.
Qed.

Lemma for_enumerate_step {A} (body : nat -> A -> M unit) (i : nat) (x : A)
    (l : list A) (w : World) :
  snd (body i x w) = Return tt ->
  for_enumerate body i (x :: l) w = for_enumerate body (S i) l (fst (body i x w)).
Proof.
  intros H.
  exact (@bind_return _ _ (body i x) (fun _ => for_enumerate body (S i) l) w tt H).
Qed.

Lemma delete_loop (paths : list path) (i : nat) (w : World) :
  let r := for_enumerate (fun _ x => delete_path x) i paths w in
  snd r = Return tt /\
  (Posix.well_formed (fs w) = true ->
   Posix.well_formed (fs (fst r)) = true /\
   (forall q, Posix.exists_ (fs w) q = false ->
              Posix.exists_ (fs (fst r)) q = false) /\
   (forall p, In p paths -> p <> [] -> Posix.exists_ (fs (fst r)) p = false)) /\
  (forall q c, (forall p, In p paths -> is_below p q = false) ->
     Posix.stat (fs (fst r)) q = inr (File c)
     <-> Posix.stat (fs w) q = inr (File c)).
Proof.
  revert i w. induction paths as [|a t IH]; intros i w r.
  - subst r. cbn. repeat split; auto; intros; contradiction.
  - subst r. rewrite for_enumerate_step by apply delete_path_returns.
    destruct (IH (S i) (fst (delete_path a w))) as [R [W F]].
    split; [exact R|]. split.
    + intros Hwf.
      destruct (W (delete_path_well_formed a w Hwf)) as [W1 [W2 W3]].
      split; [exact W1|]. split.
      * intros q Hq. apply W2. apply delete_path_keeps_absent; assumption.
      * intros p [<-|Hp] Hne; [|exact (W3 p Hp Hne)].
        apply W2. apply delete_path_gone; assumption.
    + intros q c Hq. rewrite F by (intros p Hp; apply Hq; right; exact Hp).
      apply delete_path_frame. apply Hq. left. reflexivity.
Qed.

Lemma delete_selected_run (self : pane_id) (confirmed : bool) (w : World) :
  delete_selected_with_confirm self confirmed w
  = match selected_paths self w with
    | [] => emit (ShowInfo "Delete" "Please select one or more items to delete.") w
    | _ :: _ =>
        if confirmed
        then list_contents self
               (fst (for_each delete_path (selected_paths self w) w))
        else (w, Return tt)
    end.
Proof.
  unfold delete_selected_with_confirm.
  rewrite bind_return with (a := selected_paths self w)
    by (rewrite selected_paths_run; reflexivity).
  rewrite selected_paths_run. cbn [fst].
  destruct (selected_paths self w) as [|a t]; [reflexivity|].
  destruct confirmed; [|reflexivity]. cbn [negb].
  exact (@bind_return _ _ (for_each delete_path (a :: t))
           (fun _ => list_contents self) w tt
           (proj1 (delete_loop (a :: t) 0 w))).
Qed.

(** X4. A confirmed delete removes what was selected.  On a tree without
    repeated names the method returns, and afterwards none of the
    selected paths exists, whether it was a file, a folder with all it
    held, or something else; the tree is still without repeated
    names. *)
Theorem delete_removes_selected (self : pane_id) (w : World) :
  Posix.well_formed (fs w) = true ->
  let r := delete_selected_with_confirm self true w in
  snd r = Return tt /\
  Posix.well_formed (fs (fst r)) = true /\
  forall p, In p (selected_paths self w) -> p <> [] ->
            Posix.exists_ (fs (fst r)) p = false.
Proof.
  intros Hwf r. subst r. rewrite delete_selected_run.
  destruct (selected_paths self w) as [|a t] eqn:E.
  - cbn. repeat split; [exact Hwf | intros p []].
  - rewrite list_contents_fs. split; [apply list_contents_returns|].
    destruct (delete_loop (a :: t) 0 w) as [_ [W _]].
    destruct (W Hwf) as [W1 [_ W3]]. split; [exact W1 | exact W3].
Qed.


(** * Transfers as a whole *)

(** ** A transfer as a whole: what it does to the tree *)

Lemma finish_fs (m : mode) (src dst : pane_id) (w : World) :
  fs (fst (finish m src dst w)) = fs w.
Proof.
  destruct m; cbn [finish];
    repeat rewrite bind_return with (a := tt) by apply list_contents_returns;
    unfold flash_success, emit; cbn [fst fs with_event];
    rewrite !list_contents_fs; reflexivity.
Qed.

(** The tree after a transfer is the tree after its loop, started once
    the bar has been set; without a selection or without a destination
    directory it is the tree before. *)
Lemma run_fs (m : mode) (src dst : pane_id) (w : World) :
  fs (fst (run m src dst w)) = fs w \/
  exists d w0,
    directory (pane_of w dst) = Some d /\ selected_paths src w <> [] /\
    fs w0 = fs w /\ log w0 = log w ++ [SetProgress dst 0%Q (Qnat (List.length (plan_of src w)))] /\
    (forall i, directory (pane_of w0 i) = directory (pane_of w i)) /\
    fs (fst (run m src dst w))
    = fs (fst (for_enumerate
                 (entry m (selected_paths src w) dst d
                    (List.length (plan_of src w)))
                 1 (plan_of src w) w0)).
Proof.
  destruct (selected_paths src w) as [|a t] eqn:Hsel.
  { left. rewrite (run_without_selection m src dst w Hsel). reflexivity. }
  assert (Hne : selected_paths src w <> []) by (rewrite Hsel; discriminate).
  destruct (directory (pane_of w dst)) as [d|] eqn:Hdir.
  2:{ left. destruct m; cbn [run]; unfold _copy_files, _move_files, bind;
        rewrite selected_paths_run; unfold get_pane; rewrite Hdir, Hsel;
        reflexivity. }
  right. exists d.
  exists (fst (_set_progress dst 0%Q (Qnat (List.length (plan_of src w))) w)).
  rewrite <- Hsel. split; [reflexivity|]. split; [exact Hne|].
  split; [apply set_progress_fs|]. split; [apply set_progress_log|].
  split; [intros i; apply set_progress_pane|].
  match goal with
  | |- context [for_enumerate ?b ?i ?l ?w0] =>
      pose proof (for_enumerate_never_out_of_fuel b
                    (entry_never_out_of_fuel m _ dst d _) l i w0) as Hf;
      destruct (for_enumerate b i l w0) as [w1 [[]|e|]] eqn:El
  end; cbn [fst snd] in *; [| |congruence].
  - rewrite (run_after_loop m src dst w w1 d Hne Hdir El).
    rewrite finish_fs, reset_progress_eq. apply set_progress_fs.
  - rewrite (run_raises_with_loop m src dst w w1 d e Hne Hdir El). reflexivity.
Qed.

(** X6. A transfer never removes a directory and never puts anything
    else in its place: a path that is a directory before Copy or Move is
    one afterwards, whatever was selected and whether or not the
    transfer raised.  A moved folder thus stays behind, with its
    sub-folders, emptied of its files. *)
Theorem transfer_keeps_directories (m : mode) (src dst : pane_id) (w : World)
    (q : path) :
  Posix.is_dir (fs w) q = true ->
  Posix.is_dir (fs (fst (run m src dst w))) q = true.
Proof.
  intros H. destruct (run_fs m src dst w) as [->|[d [w0 [_ [_ [F [_ [_ ->]]]]]]]];
    [exact H|].
  apply transfer_loop_keeps_directory. rewrite F. exact H.
Qed.

(** ** Invariants of the tree that depend on where a transfer writes *)

Lemma is_below_app (d r : path) : is_below d (d ++ r) = true.
Proof.
  induction d as [|a d IH]; [reflexivity|]. cbn. rewrite String.eqb_refl. exact IH.
Qed.

Lemma is_below_split (p q : path) :
  is_below p q = true -> exists r, q = p ++ r.
Proof.
  revert q. induction p as [|a p IH]; intros q H; [exists q; reflexivity|].
  destruct q as [|b q]; [discriminate|]. cbn in H. apply andb_prop in H.
  destruct H as [Hab Hq]. apply String.eqb_eq in Hab. subst b.
  destruct (IH q Hq) as [r ->]. exists r. reflexivity.
Qed.

Lemma is_below_refl (d : path) : is_below d d = true.
Proof. rewrite <- (app_nil_r d) at 2. apply is_below_app. Qed.


Section WritesBelow.

Variable J : node -> Prop.
Variable m : mode.
Variable d : path.
Variable P : path -> Prop.

Hypothesis J_mkdir :
  forall f f' t, J f -> Posix.mkdir_parents f t = inr f' -> J f'.
Hypothesis J_open :
  forall f f' t, is_below d t = true -> J f -> Posix.open_wb f t = inr f' -> J f'.
Hypothesis J_write :
  forall f f' t buf, is_below d t = true -> J f ->
                     Posix.write f t buf = inr f' -> J f'.
Hypothesis J_unlink :
  forall f f' p, m = Move -> P p -> J f -> Posix.unlink f p = inr f' -> J f'.

Lemma copy_loop_writes_below (src_path dst_path : path) (pane : pane_id)
  (file_index total_files total_size : nat) :
  is_below d dst_path = true ->
  forall fuel copied w,
    J (fs w) ->
    J (fs (fst (copy_loop fuel src_path dst_path pane file_index total_files
                  total_size copied w))).
Proof.
  intros Hb. induction fuel as [|fuel IH]; intros copied w Hw; [exact Hw|].
  cbn [copy_loop]. unfold bind at 1. unfold get_fs at 1.
  destruct (read_chunk (fs w) src_path copied) as [|b buf] eqn:Eb; [exact Hw|].
  unfold bind at 1. unfold fs_update at 1.
  destruct (Posix.write (fs w) dst_path (b :: buf)) as [e|f'] eqn:Ew; [exact Hw|].
  pose proof (J_write _ _ _ _ Hb Hw Ew) as Hw'.
  unfold bind at 1.
  destruct (0 <? total_size)%nat;
    rewrite (surjective_pairing (_set_progress _ _ _ _)), set_progress_returns;
    apply IH; rewrite set_progress_fs; exact Hw'.
Qed.

Lemma copy_with_progress_writes_below (src_path dst_path : path)
  (pane : pane_id) (file_index total_files : nat) (w : World) :
  is_below d dst_path = true ->
  J (fs w) ->
  J (fs (fst (_copy_with_progress src_path dst_path pane file_index total_files w))).
Proof.
  intros Hb Hw. rewrite copy_with_progress_run. cbv zeta.
  destruct (Posix.open_rb (fs w) src_path) as [e|[]]; [exact Hw|].
  destruct (Posix.open_wb (fs w) dst_path) as [e|f1] eqn:Eo; [exact Hw|].
  pose proof (J_open _ _ _ Hb Hw Eo) as Hw1.
  match goal with
  | |- context [copy_loop ?a ?b ?c ?d ?e ?f ?g ?h ?k] =>
      pose proof (copy_loop_writes_below b c d e f g Hb a h k Hw1) as Hl;
      destruct (copy_loop a b c d e f g h k) as [w2 [copied|e3|]]
  end; cbn [fst] in *; try exact Hl.
  rewrite set_progress_fs. exact Hl.
Qed.



End WritesBelow.




(** ** The panes after a transfer *)

Lemma transfer_loop_keeps_panes (m : mode) (files : list path) (dst : pane_id)
    (d : path) (n : nat) (plan : list path) (i : nat) (w : World)
    (j : pane_id) :
  directory (pane_of (fst (for_enumerate (entry m files dst d n) i plan w)) j)
  = directory (pane_of w j) /\
  selection (pane_of (fst (for_enumerate (entry m files dst d n) i plan w)) j)
  = selection (pane_of w j).
Proof.
  apply (for_enumerate_invariant
           (fun w' => directory (pane_of w' j) = directory (pane_of w j) /\
                      selection (pane_of w' j) = selection (pane_of w j)));
    [|split; reflexivity].
  intros k p w0.
  apply (entry_invariant
           (fun w' => directory (pane_of w' j) = directory (pane_of w j) /\
                      selection (pane_of w' j) = selection (pane_of w j))
           dst n).
  - intros w1 f H. exact H.
  - intros w1 v [H1 H2].
    destruct (set_progress_pane dst j v (Qnat n) w1) as [-> ->]. auto.
  - intros w1 e H. exact H.
Qed.

Lemma selected_paths_directory (src : pane_id) (w : World) :
  selected_paths src w <> [] -> exists s, directory (pane_of w src) = Some s.
Proof.
  unfold selected_paths, get_selected_paths, bind, get_pane.
  destruct (directory (pane_of w src)) as [s|]; [eauto|].
  intros H. destruct H. reflexivity.
Qed.

(** X8. A completed Move leaves no selection behind.  When Move has
    returned, the list of the source pane has been filled anew and
    nothing is selected in it, so that a second Move or Copy from that
    pane, to whichever pane, does nothing but show the information
    box. *)
Theorem move_clears_source_selection (src dst : pane_id) (w : World) (d : path) :
  selected_paths src w <> [] ->
  directory (pane_of w dst) = Some d ->
  snd (run Move src dst w) = Return tt ->
  let w' := fst (run Move src dst w) in
  selection (pane_of w' src) = [] /\
  forall m dst',
    run m src dst' w'
    = (with_event w'
         (ShowInfo (match m with Copy => "Copy" | Move => "Move" end)
            select_message),
       Return tt).
Proof.
  intros Hsel Hd Hret w'.
  assert (S : selection (pane_of w' src) = []).
  { subst w'. destruct (selected_paths_directory src w Hsel) as [s Hs].
    destruct (run_returns_loop Move src dst w d Hsel Hd Hret) as [w1 El].
    rewrite (run_after_loop Move src dst w w1 d Hsel Hd El).
    assert (D : directory (pane_of (fst (_reset_progress dst w1)) src) = Some s).
    { rewrite reset_progress_eq, (proj1 (set_progress_pane dst src _ _ _)).
      apply (f_equal fst) in El. cbn [fst] in El. rewrite <- El.
      rewrite (proj1 (transfer_loop_keeps_panes _ _ _ _ _ _ _ _ _)).
      rewrite (proj1 (set_progress_pane dst src _ _ _)). exact Hs. }
    cbn [finish].
    rewrite bind_return with (a := tt) by apply list_contents_returns.
    rewrite bind_return with (a := tt) by apply list_contents_returns.
    unfold flash_success, emit. cbn [fst].
    match goal with |- selection (pane_of (with_event ?w0 _) src) = [] =>
      change (selection (pane_of w0 src) = []) end.
    apply list_contents_keeps_no_selection.
    exact (list_contents_clears_selection src _ s D). }
  split; [exact S|]. intros m dst'. apply run_without_selection.
  unfold selected_paths. rewrite (get_selected_paths_nothing src w' S). reflexivity.
Qed.

(** ** Transfers of regular files into another directory *)

Section PlainFiles.

Import Posix.

Lemma set_entry_unchanged (c : string) (v : node) (es : list (string * node)) :
  assoc c es = Some v -> set_entry c v es = es.
Proof.
  induction es as [|[k x] t IH]; cbn; [discriminate|].
  destruct (String.eqb k c) eqn:E.
  - intros H. injection H as ->. reflexivity.
  - intros H. rewrite (IH H). reflexivity.
Qed.

Lemma is_dir_lookup (f : node) (q : path) :
  is_dir f q = match lookup f q with Some x => is_dir_node x | None => false end.
Proof. unfold is_dir, lookup. destruct (stat f q); reflexivity. Qed.

Lemma mkdir_parents_existing (d : path) (f : node) :
  is_dir f d = true -> mkdir_parents f d = inr f.
Proof.
  revert f. induction d as [|c rest IH]; intros f H.
  - cbn in *. destruct f; try discriminate; reflexivity.
  - destruct f as [cnt|es|]; try discriminate H.
    rewrite is_dir_cons in H. cbn [mkdir_parents].
    destruct (assoc c es) as [child|] eqn:Ec; [|discriminate].
    rewrite (IH child H), (set_entry_unchanged c child es Ec). reflexivity.
Qed.

Lemma lookup_child (es : list (string * node)) (c : string) (q : path) :
  lookup (Dir es) (c :: q)
  = match assoc c es with Some child => lookup child q | None => None end.
Proof. unfold lookup. cbn. destruct (assoc c es); reflexivity. Qed.

Lemma lookup_leaf (x : node) (b : string) (q : path) :
  is_dir_node x = false -> lookup x (b :: q) = None.
Proof. destruct x; [reflexivity|discriminate|reflexivity]. Qed.

Lemma open_wb_in_directory (d : path) (name : string) (f : node) :
  is_dir f d = true -> free_or_file f (d ++ [name]) = true ->
  exists f1, open_wb f (d ++ [name]) = inr f1.
Proof.
  unfold open_wb, free_or_file.
  revert f. induction d as [|c rest IH]; intros f Hd Hf.
  - destruct f as [cnt|es|]; try discriminate Hd.
    cbn [app] in *. rewrite lookup_child in Hf. cbn [alter].
    destruct (assoc name es) as [[cnt| |]|]; cbn in Hf; try discriminate Hf; eauto.
  - destruct f as [cnt|es|]; try discriminate Hd.
    rewrite is_dir_cons in Hd. cbn [app] in *. rewrite lookup_child in Hf.
    cbn [alter]. destruct (assoc c es) as [child|] eqn:Ec; [|discriminate].
    destruct (IH child Hd Hf) as [f1 E].
    destruct (rest ++ [name]) as [|c' r] eqn:Er;
      [destruct rest; discriminate Er|].
    rewrite E. eauto.
Qed.

(** A change at [p] that neither stores a directory nor replaces one
    leaves every other path that was not a directory as it was. *)
Lemma alter_lookup_frame (g : option node -> exn + option node) :
  (forall o v, g o = inr (Some v) -> is_dir_node v = false) ->
  (forall es, exists e, g (Some (Dir es)) = inl e) ->
  forall p n n' q,
    well_formed n = true -> alter g n p = inr n' -> q <> p ->
    is_dir n q = false -> lookup n' q = lookup n q.
Proof.
  intros Hleaf Hdir.
  assert (Hold : forall x o, g (Some x) = inr o -> is_dir_node x = false).
  { intros [cnt|es|] o E; try reflexivity.
    destruct (Hdir es) as [e He]. congruence. }
  induction p as [|c rest IH]; intros n n' q Hwf H Hq Hnd.
  - destruct q as [|b q]; [contradiction|]. cbn in H.
    destruct (g (Some n)) as [e|[v|]] eqn:E; try discriminate.
    injection H as <-.
    rewrite (lookup_leaf v b q (Hleaf _ _ E)), (lookup_leaf n b q (Hold _ _ E)).
    reflexivity.
  - cbn [alter] in H. destruct n as [cnt|es|]; try discriminate.
    destruct q as [|b q]; [discriminate Hnd|].
    rewrite is_dir_cons in Hnd.
    destruct (String.eqb_spec b c) as [->|Hbc].
    + assert (Hq' : q <> rest) by congruence.
      destruct rest as [|c' rest'].
      * destruct q as [|b' q']; [contradiction|].
        destruct (g (assoc c es)) as [e|[v|]] eqn:E; try discriminate;
          injection H as <-; rewrite !lookup_child.
        -- rewrite assoc_set_entry_same, (lookup_leaf v b' q' (Hleaf _ _ E)).
           destruct (assoc c es) as [x|]; [|reflexivity].
           rewrite (lookup_leaf x b' q' (Hold _ _ E)). reflexivity.
        -- rewrite assoc_remove_entry_same by (apply well_formed_dir; exact Hwf).
           destruct (assoc c es) as [x|]; [|reflexivity].
           rewrite (lookup_leaf x b' q' (Hold _ _ E)). reflexivity.
      * destruct (assoc c es) as [child|] eqn:Ec; try discriminate.
        destruct (alter g child (c' :: rest')) as [e|child'] eqn:Ea;
          try discriminate.
        injection H as <-. rewrite !lookup_child, assoc_set_entry_same, Ec.
        apply (IH child child' q); auto.
        apply (well_formed_child c es); assumption.
    + rewrite !lookup_child.
      destruct rest as [|c' rest'].
      * destruct (g (assoc c es)) as [e|[v|]] eqn:E; try discriminate;
          injection H as <-; rewrite !lookup_child.
        -- rewrite (assoc_set_entry_other c b v es Hbc). reflexivity.
        -- rewrite (assoc_remove_entry_other c b es Hbc). reflexivity.
      * destruct (assoc c es) as [child|] eqn:Ec; try discriminate.
        destruct (alter g child (c' :: rest')) as [e|child'] eqn:Ea;
          try discriminate.
        injection H as <-.
        rewrite lookup_child, (assoc_set_entry_other c b child' es Hbc).
        reflexivity.
Qed.

End PlainFiles.

Lemma with_fs_same (w : World) : with_fs w (fs w) = w.
Proof. destruct w; reflexivity. Qed.

Lemma is_below_child (d q : path) (name : string) :
  is_below (d ++ [name]) q = true -> is_below d q = true.
Proof.
  intros H. destruct (is_below_split _ _ H) as [r ->].
  rewrite <- app_assoc. apply is_below_app.
Qed.

Lemma flat_target_child (f : node) (d p : path) :
  Posix.is_dir f d = true -> free_or_file f (flat_target d p) = true ->
  flat_target d p = d ++ [PurePath.name p].
Proof.
  intros Hd Hf. unfold flat_target, PurePath.div in *.
  destruct (_ || _); [|reflexivity].
  unfold free_or_file in Hf. rewrite is_dir_lookup in Hd.
  destruct (Posix.lookup f d) as [[cnt|es|]|]; discriminate.
Qed.

Lemma plain_entry (m : mode) (files : list path) (dst : pane_id) (d : path)
    (n i : nat) (p : path) (w : World) (data : list byte) :
  Posix.well_formed (fs w) = true ->
  Posix.is_dir (fs w) d = true ->
  Posix.stat (fs w) p = inr (File data) ->
  rel_path (fs w) files p = inr (PurePath.Str (PurePath.name p)) ->
  is_below d p = false ->
  free_or_file (fs w) (flat_target d p) = true ->
  exists w',
    entry m files dst d n i p w = (w', Return tt) /\
    Posix.well_formed (fs w') = true /\
    Posix.stat (fs w') (flat_target d p) = inr (File data) /\
    match m with
    | Copy => Posix.stat (fs w') p = inr (File data)
    | Move => Posix.exists_ (fs w') p = false
    end /\
    forall q, is_below (flat_target d p) q = false -> (m = Move -> q <> p) ->
              Posix.is_dir (fs w) q = false ->
              Posix.lookup (fs w') q = Posix.lookup (fs w) q.
Proof.
  intros Hwf Hd Hp Hrel Hout Hfree.
  pose proof (flat_target_child _ d p Hd Hfree) as Ht.
  fold (flat_target d p) in Hrel.
  set (t := flat_target d p) in *.
  assert (Hbt : is_below d t = true) by (rewrite Ht; apply is_below_app).
  assert (Hpt : p <> t) by (intros E; congruence).
  assert (Hparent : PurePath.parent t = d).
  { rewrite Ht. unfold PurePath.parent. apply removelast_last. }
  destruct (open_wb_in_directory d (PurePath.name p) (fs w) Hd) as [f1 Ho];
    [rewrite <- Ht; exact Hfree|]. rewrite <- Ht in Ho.
  destruct (copy_to_other_path w p t dst i n data f1 Hpt Hp Ho)
    as [Cret [Ct [Cp _]]].
  set (J := fun f => Posix.well_formed f = true /\
     forall q, is_below t q = false -> Posix.is_dir (fs w) q = false ->
               Posix.lookup f q = Posix.lookup (fs w) q).
  assert (Hframe : forall g f f' t' , 
     (forall o v, g o = inr (Some v) -> Posix.is_dir_node v = false) ->
     (forall es, exists e, g (Some (Dir es)) = inl e) ->
     (forall o v, g o = inr (Some v) -> Posix.well_formed v = true) ->
     is_below t t' = true -> J f -> Posix.alter g f t' = inr f' -> J f').
  { intros g f f' t' G1 G2 G3 Hb [W L] E.
    split; [exact (alter_well_formed g G3 t' f f' W E)|].
    intros q Hq Hnd. rewrite <- (L q Hq Hnd).
    apply (alter_lookup_frame g G1 G2 t' f f' q W E).
    - intros ->. congruence.
    - rewrite is_dir_lookup, (L q Hq Hnd), <- is_dir_lookup. exact Hnd. }
  assert (HJ : J (fs (fst (_copy_with_progress p t dst i n w)))).
  { apply (copy_with_progress_writes_below J t).
    - intros f f' t' Hb Hf E. unfold Posix.open_wb in E.
      refine (Hframe _ f f' t' _ _ _ Hb Hf E).
      + intros [[| |]|] v H; try discriminate; injection H as <-; reflexivity.
      + intros es. eexists. reflexivity.
      + intros [[| |]|] v H; try discriminate; injection H as <-; reflexivity.
    - intros f f' t' buf Hb Hf E. unfold Posix.write in E.
      refine (Hframe _ f f' t' _ _ _ Hb Hf E).
      + intros [[| |]|] v H; try discriminate; injection H as <-; reflexivity.
      + intros es. eexists. reflexivity.
      + intros [[| |]|] v H; try discriminate; injection H as <-; reflexivity.
    - apply is_below_refl.
    - split; [exact Hwf | reflexivity]. }
  cbv zeta in Cret, Ct, Cp.
  destruct (_copy_with_progress p t dst i n w) as [w2 o] eqn:Ec.
  cbn [fst snd] in *. subst o. destruct HJ as [W2 L2].
  assert (Hne : p <> []).
  { intros ->. apply is_dir_root in Hd. cbn in Hp. injection Hp as E.
    rewrite E in Hd. discriminate. }
  destruct m; cbn [entry].
  - exists w2. rewrite copy_entry_run, Hrel.
    change (PurePath.div d (PurePath.Str (PurePath.name p))) with t.
    rewrite Hparent, (mkdir_parents_existing d _ Hd), with_fs_same, Ec.
    repeat split; auto.
  - destruct (unlink_file p (fs w2) data W2 Hne Cp) as [f3 [Eu [Gone Fr]]].
    exists (with_event (with_fs w2 f3) (Unlinked p)).
    rewrite move_entry_run, Hrel.
    change (PurePath.div d (PurePath.Str (PurePath.name p))) with t.
    rewrite Hparent, (mkdir_parents_existing d _ Hd), with_fs_same, Ec, Eu.
    cbn [fs with_event with_fs].
    split; [reflexivity|]. split; [exact (unlink_well_formed _ _ _ W2 Eu)|].
    split; [apply Fr; [congruence | exact Ct]|].
    split; [unfold Posix.exists_; rewrite Gone; reflexivity|].
    intros q Hq Hqp Hnd. rewrite <- (L2 q Hq Hnd).
    unfold Posix.unlink in Eu.
    refine (alter_lookup_frame _ _ _ p (fs w2) f3 q W2 Eu (Hqp eq_refl) _).
    + intros [[| |]|] v H; discriminate.
    + intros es. eexists. reflexivity.
    + rewrite is_dir_lookup, (L2 q Hq Hnd), <- is_dir_lookup. exact Hnd.
Qed.

Lemma lookup_stat (f : node) (q : path) (x : node) :
  Posix.lookup f q = Some x <-> Posix.stat f q = inr x.
Proof.
  unfold Posix.lookup. destruct (Posix.stat f q); split; congruence.
Qed.

Lemma is_below_siblings (d : path) (a b : string) :
  a <> b -> is_below (d ++ [a]) (d ++ [b]) = false.
Proof.
  intros H. induction d as [|c d IH]; cbn.
  - destruct (String.eqb_spec a b); [contradiction | reflexivity].
  - rewrite String.eqb_refl. exact IH.
Qed.

Lemma is_file_stat (f : node) (p : path) :
  Posix.is_file f p = true -> exists data, Posix.stat f p = inr (File data).
Proof.
  unfold Posix.is_file. destruct (Posix.stat f p) as [e|[data|es|]];
    try discriminate. eauto.
Qed.

Lemma rel_path_flat (f : node) (files : list path) (p : path) :
  (forall q, In q files -> Posix.is_dir f q = false) ->
  rel_path f files p = inr (PurePath.Str (PurePath.name p)).
Proof.
  intros H. destruct files as [|d0 [|d1 t]]; try reflexivity.
  cbn. rewrite (H d0); [reflexivity | left; reflexivity].
Qed.

Lemma for_enumerate_single {A} (body : nat -> A -> M unit) (i : nat) (x : A)
    (w : World) :
  fst (for_enumerate body i [x] w) = fst (body i x w).
Proof.
  cbn. unfold bind. destruct (body i x w) as [w' [[]|e|]]; reflexivity.
Qed.

Lemma plain_loop (m : mode) (files : list path) (dst : pane_id) (d : path)
    (n : nat) :
  forall todo i w,
    Posix.well_formed (fs w) = true ->
    Posix.is_dir (fs w) d = true ->
    (forall q, In q files -> Posix.is_dir (fs w) q = false) ->
    NoDup (map PurePath.name todo) ->
    (forall p, In p todo ->
       Posix.is_file (fs w) p = true /\ is_below d p = false /\
       free_or_file (fs w) (flat_target d p) = true) ->
    exists w',
      for_enumerate (entry m files dst d n) i todo w = (w', Return tt) /\
      (forall p data, In p todo -> Posix.stat (fs w) p = inr (File data) ->
         Posix.stat (fs w') (flat_target d p) = inr (File data) /\
         match m with
         | Copy => Posix.stat (fs w') p = inr (File data)
         | Move => Posix.exists_ (fs w') p = false
         end) /\
      (forall q,
         (forall p, In p todo ->
            is_below (flat_target d p) q = false /\ (m = Move -> q <> p)) ->
         Posix.is_dir (fs w) q = false ->
         Posix.lookup (fs w') q = Posix.lookup (fs w) q).
Proof.
  induction todo as [|p rest IH]; intros i w Hwf Hd Hfiles Hnd Hall.
  { exists w. split; [reflexivity|]. split; [intros p data []|reflexivity]. }
  destruct (Hall p (or_introl eq_refl)) as [Hfile [Hout Hfree]].
  destruct (is_file_stat _ _ Hfile) as [data Hp].
  destruct (plain_entry m files dst d n i p w data Hwf Hd Hp
              (rel_path_flat _ files p Hfiles) Hout Hfree)
    as [w1 [E1 [W1 [T1 [S1 L1]]]]].
  pose proof (flat_target_child _ d p Hd Hfree) as Ht.
  inversion Hnd as [|a l Hnotin Hnd']; subst.
  assert (Hnames : forall p', In p' rest -> PurePath.name p <> PurePath.name p').
  { intros p' Hp' E. apply Hnotin. rewrite E. apply in_map. exact Hp'. }
  assert (Htarget : forall p', In p' rest ->
            flat_target d p' = d ++ [PurePath.name p']).
  { intros p' Hp'. destruct (Hall p' (or_intror Hp')) as [_ [_ F]].
    exact (flat_target_child _ d p' Hd F). }
  (* what was no directory is none after the entry *)
  assert (N1 : forall q, Posix.is_dir (fs w) q = false ->
                         Posix.is_dir (fs w1) q = false).
  { intros q Hq. destruct (is_below (flat_target d p) q) eqn:B.
    - destruct (is_below_split _ _ B) as [r ->].
      unfold Posix.is_dir. rewrite stat_app, T1. destruct r; reflexivity.
    - assert (K : (m = Move -> q <> p) ->
                  Posix.is_dir (fs w1) q = false).
      { intros K. rewrite is_dir_lookup, (L1 q B K Hq), <- is_dir_lookup.
        exact Hq. }
      destruct m; [apply K; discriminate|].
      destruct (path_eq_dec q p) as [->|Hqp]; [|apply K; auto].
      unfold Posix.exists_ in S1. unfold Posix.is_dir.
      destruct (Posix.stat (fs w1) p); [reflexivity | discriminate]. }
  (* the entries still to do are as before *)
  assert (Same : forall p', In p' rest ->
            Posix.lookup (fs w1) p' = Posix.lookup (fs w) p' /\
            Posix.lookup (fs w1) (flat_target d p')
            = Posix.lookup (fs w) (flat_target d p')).
  { intros p' Hp'. destruct (Hall p' (or_intror Hp')) as [F' [O' Fr']].
    destruct (is_file_stat _ _ F') as [data' Hs'].
    split.
    - apply L1.
      + destruct (is_below (flat_target d p) p') eqn:B; [|reflexivity].
        rewrite Ht in B. apply is_below_child in B. congruence.
      + intros _ ->. exact (Hnames p Hp' eq_refl).
      + unfold Posix.is_dir. rewrite Hs'. reflexivity.
    - apply L1.
      + rewrite Ht, (Htarget p' Hp'). apply is_below_siblings. auto.
      + intros _ E. rewrite (Htarget p' Hp') in E. rewrite <- E in Hout.
        rewrite is_below_app in Hout. discriminate.
      + unfold free_or_file in Fr'. rewrite is_dir_lookup.
        destruct (Posix.lookup (fs w) (flat_target d p')) as [[| |]|];
          try discriminate; reflexivity. }
  destruct (IH (S i) w1 W1) as [w' [E' [R' F']]].
  { replace w1 with (fst (for_enumerate (entry m files dst d n) i [p] w))
      by (rewrite for_enumerate_single, E1; reflexivity).
    apply transfer_loop_keeps_directory. exact Hd. }
  { intros q Hq. apply N1. apply Hfiles. exact Hq. }
  { exact Hnd'. }
  { intros p' Hp'. destruct (Hall p' (or_intror Hp')) as [F1 [O1 Fr1]].
    destruct (Same p' Hp') as [Sp St].
    split; [|split; [exact O1|]].
    - unfold Posix.is_file, Posix.lookup in *.
      destruct (Posix.stat (fs w1) p'), (Posix.stat (fs w) p');
        try discriminate; try exact F1; try congruence.
    - unfold free_or_file. rewrite St. exact Fr1. }
  exists w'. split.
  { rewrite for_enumerate_step by (rewrite E1; reflexivity).
    rewrite E1. exact E'. }
  assert (Hkeep : forall q,
            (forall p', In p' rest ->
               is_below (flat_target d p') q = false /\ (m = Move -> q <> p')) ->
            Posix.is_dir (fs w1) q = false ->
            Posix.lookup (fs w') q = Posix.lookup (fs w1) q) by exact F'.
  split.
  - intros p0 data0 [<-|Hin] H0.
    + assert (data0 = data) by congruence. subst data0.
      split.
      * apply lookup_stat. rewrite Hkeep.
        -- apply lookup_stat. exact T1.
        -- intros p' Hp'. split.
           ++ rewrite Ht, (Htarget p' Hp'). apply is_below_siblings.
              intros E. exact (Hnames p' Hp' (eq_sym E)).
           ++ intros _ E. destruct (Hall p' (or_intror Hp')) as [_ [O' _]].
              rewrite <- E, Ht, is_below_app in O'. discriminate.
        -- unfold Posix.is_dir. rewrite T1. reflexivity.
      * assert (Kp : Posix.lookup (fs w') p = Posix.lookup (fs w1) p).
        { apply Hkeep.
          - intros p' Hp'. split.
            + destruct (is_below (flat_target d p') p) eqn:B; [|reflexivity].
              rewrite (Htarget p' Hp') in B. apply is_below_child in B.
              congruence.
            + intros _ E. exact (Hnames p' Hp' (f_equal PurePath.name E)).
          - destruct m.
            + unfold Posix.is_dir. rewrite S1. reflexivity.
            + unfold Posix.exists_ in S1. unfold Posix.is_dir.
              destruct (Posix.stat (fs w1) p); [reflexivity|discriminate]. }
        destruct m.
        -- apply lookup_stat. rewrite Kp. apply lookup_stat. exact S1.
        -- unfold Posix.exists_, Posix.lookup in *.
           destruct (Posix.stat (fs w') p), (Posix.stat (fs w1) p);
             try reflexivity; try discriminate.
    + apply R'; [exact Hin|]. apply lookup_stat.
      rewrite (proj1 (Same p0 Hin)). apply lookup_stat. exact H0.
  - intros q Hq Hdq. rewrite Hkeep.
    + apply L1; [apply Hq; left; reflexivity | apply Hq; left; reflexivity
                | exact Hdq].
    + intros p' Hp'. apply Hq. right. exact Hp'.
    + apply N1. exact Hdq.
Qed.

(** X9. A transfer of regular files does what it is for.  The tree has
    no repeated names, the destination pane shows an existing directory
    [d], and the selected entries are regular files with distinct names,
    none of them inside [d], each with nothing or a regular file in the
    place it goes to in [d].  Then Copy and Move return, every selected
    file is in [d] under its own name with the bytes it had, and the
    original is unchanged after Copy and gone after Move. *)
Theorem transfer_of_plain_files (m : mode) (src dst : pane_id) (w : World)
    (d : path) :
  Posix.well_formed (fs w) = true ->
  directory (pane_of w dst) = Some d ->
  Posix.is_dir (fs w) d = true ->
  NoDup (map PurePath.name (selected_paths src w)) ->
  (forall p, In p (selected_paths src w) ->
     Posix.is_file (fs w) p = true /\ is_below d p = false /\
     free_or_file (fs w) (flat_target d p) = true) ->
  let r := run m src dst w in
  snd r = Return tt /\
  forall p data,
    In p (selected_paths src w) -> Posix.stat (fs w) p = inr (File data) ->
    Posix.stat (fs (fst r)) (flat_target d p) = inr (File data) /\
    match m with
    | Copy => Posix.stat (fs (fst r)) p = inr (File data)
    | Move => Posix.exists_ (fs (fst r)) p = false
    end.
Proof.
  intros Hwf Hdir Hd Hnd Hall r. subst r.
  destruct (selected_paths src w) as [|a t] eqn:Hsel.
  { rewrite (run_without_selection m src dst w Hsel).
    split; [reflexivity | intros p data []]. }
  rewrite <- Hsel in *.
  assert (Hne : selected_paths src w <> []) by (rewrite Hsel; discriminate).
  assert (Hplan : plan_of src w = selected_paths src w).
  { apply plan_of_plain_files. apply Forall_forall. intros p Hp.
    apply (Hall p Hp). }
  set (w0 := fst (_set_progress dst 0%Q (Qnat (List.length (plan_of src w))) w)).
  assert (F0 : fs w0 = fs w) by apply set_progress_fs.
  destruct (plain_loop m (selected_paths src w) dst d
              (List.length (plan_of src w)) (selected_paths src w) 1 w0)
    as [w1 [El [R _]]].
  - rewrite F0. exact Hwf.
  - rewrite F0. exact Hd.
  - rewrite F0. intros q Hq. destruct (Hall q Hq) as [Hf _].
    destruct (is_file_stat _ _ Hf) as [data Hs]. unfold Posix.is_dir.
    rewrite Hs. reflexivity.
  - exact Hnd.
  - rewrite F0. exact Hall.
  - rewrite <- Hplan in El at 2.
    rewrite (run_after_loop m src dst w w1 d Hne Hdir El).
    split; [apply finish_returns|].
    rewrite finish_fs, reset_progress_eq, set_progress_fs.
    intros p data Hp Hs. apply R; [exact Hp | rewrite F0; exact Hs].
Qed.

(** ** Transfers and panes with nothing to do *)

(** X10. A selection without files is transferred as nothing.  When
    something is selected but the plan is empty, as for a folder that
    holds only folders, Copy and Move change nothing in the tree, and
    yet they return and flash success. *)
Theorem transfer_of_nothing (m : mode) (src dst : pane_id) (w : World)
    (d : path) :
  selected_paths src w <> [] ->
  directory (pane_of w dst) = Some d ->
  plan_of src w = [] ->
  let r := run m src dst w in
  snd r = Return tt /\ fs (fst r) = fs w /\
  In (FlashSuccess dst) (log (fst r)) /\
  tally m (fst r) = tally m w.
Proof.
  intros Hsel Hd Hplan r. subst r.
  set (w0 := fst (_set_progress dst 0%Q (Qnat (List.length (plan_of src w))) w)).
  assert (El : for_enumerate
                 (entry m (selected_paths src w) dst d
                    (List.length (plan_of src w)))
                 1 (plan_of src w) w0 = (w0, Return tt))
    by (rewrite Hplan; reflexivity).
  rewrite (run_after_loop m src dst w w0 d Hsel Hd El).
  split; [apply finish_returns|]. split; [|split].
  - rewrite finish_fs, reset_progress_eq, set_progress_fs. apply set_progress_fs.
  - destruct m; cbn [finish];
      repeat rewrite bind_return with (a := tt) by apply list_contents_returns;
      unfold flash_success, emit; cbn [fst log with_event];
      apply in_or_app; right; left; reflexivity.
  - rewrite finish_tally, reset_progress_eq, tally_set_progress.
    apply tally_set_progress.
Qed.

(** X11. A cleared pane takes no part in anything.  After [clear_pane]
    the pane has no directory and no selection and the files are as
    before; Copy and Move from it and to it only show the information
    box, a delete in it only shows its own, and going up or listing it
    does nothing at all. *)
Theorem cleared_pane_takes_no_part (self other : pane_id) (w : World)
    (m : mode) (confirmed : bool) :
  let w' := fst (clear_pane self w) in
  let info :=
    ShowInfo (match m with Copy => "Copy" | Move => "Move" end) select_message in
  fs w' = fs w /\ directory (pane_of w' self) = None /\
  selection (pane_of w' self) = [] /\
  run m self other w' = (with_event w' info, Return tt) /\
  run m other self w' = (with_event w' info, Return tt) /\
  delete_selected_with_confirm self confirmed w'
  = (with_event w'
       (ShowInfo "Delete" "Please select one or more items to delete."),
     Return tt) /\
  go_up self w' = (w', Return tt) /\
  list_contents self w' = (w', Return tt).
Proof.
  intros w' info.
  assert (D : directory (pane_of w' self) = None) by (destruct self; reflexivity).
  assert (S : selection (pane_of w' self) = []) by (destruct self; reflexivity).
  assert (P : selected_paths self w' = []).
  { unfold selected_paths. rewrite (get_selected_paths_nothing self w' S).
    reflexivity. }
  split; [destruct self; reflexivity|]. split; [exact D|]. split; [exact S|].
  split; [apply run_without_selection; exact P|]. split; [|split; [|split]].
  - destruct (selected_paths other w') as [|a t] eqn:E;
      [apply run_without_selection; exact E|].
    subst info. destruct m; cbn [run]; unfold _copy_files, _move_files, bind;
      rewrite selected_paths_run; unfold get_pane; rewrite D, E; reflexivity.
  - rewrite delete_selected_run, P. reflexivity.
  - unfold go_up, bind, get_pane. rewrite D. reflexivity.
  - unfold list_contents, list_all, bind, get_pane. rewrite D. reflexivity.
Qed.

(** ** Transfers of a folder *)

Section Prefixes.

Import Posix.

Lemma is_below_cancel (x a b : path) : is_below (x ++ a) (x ++ b) = is_below a b.
Proof.
  induction x as [|c x IH]; [reflexivity|]. cbn. rewrite String.eqb_refl. exact IH.
Qed.

Lemma is_below_app_cases (q x y : path) :
  is_below q (x ++ y) = true ->
  is_below q x = true \/ exists y', q = x ++ y' /\ is_below y' y = true.
Proof.
  revert q. induction x as [|c x IH]; intros q H.
  - right. exists q. split; [reflexivity | exact H].
  - destruct q as [|b q]; [left; reflexivity|].
    cbn in H. apply andb_prop in H. destruct H as [Hb Hq].
    apply String.eqb_eq in Hb. subst b.
    destruct (IH q Hq) as [Hl|[y' [-> Hy]]].
    + left. cbn. rewrite String.eqb_refl. exact Hl.
    + right. exists y'. split; [reflexivity | exact Hy].
Qed.

Lemma is_below_removelast (a b : path) :
  b <> [] -> is_below a (removelast b) = true -> is_below a b = true /\ a <> b.
Proof.
  intros Hb H. destruct (is_below_split _ _ H) as [r Hr].
  destruct (exists_last Hb) as [b' [c ->]].
  rewrite removelast_last in *. subst b'. split.
  - rewrite <- app_assoc. apply is_below_app.
  - intros E. apply (f_equal (@List.length string)) in E.
    rewrite !length_app in E. cbn in E. lia.
Qed.

(** A path with something below it is a directory. *)
Lemma prefix_is_dir (f : node) (q r : path) (y : node) :
  r <> [] -> stat f (q ++ r) = inr y -> is_dir f q = true.
Proof.
  intros Hr H. rewrite stat_app in H. unfold is_dir.
  destruct (stat f q) as [e|x]; [discriminate|].
  destruct r as [|c r]; [contradiction|]. destruct x; try discriminate H.
  reflexivity.
Qed.

Lemma prefix_of_directory (f : node) (q d : path) :
  is_dir f d = true -> is_below q d = true -> is_dir f q = true.
Proof.
  intros Hd Hq. destruct (is_below_split _ _ Hq) as [r ->].
  destruct r as [|c r]; [rewrite app_nil_r in Hd; exact Hd|].
  unfold is_dir in Hd. destruct (stat f (q ++ c :: r)) as [e|y] eqn:E;
    [discriminate|].
  apply (prefix_is_dir f q (c :: r) y); [discriminate | exact E].
Qed.

Lemma absent_below (f : node) (R q : path) :
  exists_ f R = false -> is_below R q = true -> lookup f q = None.
Proof.
  intros HR Hq. destruct (is_below_split _ _ Hq) as [r ->].
  unfold exists_ in HR. unfold lookup. rewrite stat_app.
  destruct (stat f R); [reflexivity | discriminate].
Qed.

(** Nothing that is not a directory is a prefix of a path below an
    entry of a directory, unless it is that entry or below it. *)
Lemma not_prefix_below_entry (f : node) (d : path) (k : string) (q y : path) :
  is_dir f d = true -> is_dir f q = false ->
  is_below (d ++ [k]) q = false -> is_below q ((d ++ [k]) ++ y) = false.
Proof.
  intros Hd Hq Hb. destruct (is_below q ((d ++ [k]) ++ y)) eqn:E; [|reflexivity].
  exfalso. apply is_below_app_cases in E. destruct E as [E|[y' [-> _]]].
  - apply is_below_app_cases in E. destruct E as [E|[y' [-> Hy]]].
    + rewrite (prefix_of_directory f q d Hd E) in Hq. discriminate.
    + destruct y' as [|b y'].
      * rewrite app_nil_r in Hq. congruence.
      * cbn in Hy. apply andb_prop in Hy. destruct Hy as [Hbk Hy].
        apply String.eqb_eq in Hbk. subst b. destruct y'; [|discriminate].
        rewrite is_below_refl in Hb. discriminate.
  - rewrite is_below_app in Hb. discriminate.
Qed.

End Prefixes.

Section MakeDirectories.

Import Posix.

Lemma lookup_root (f : node) : lookup f [] = Some f.
Proof. reflexivity. Qed.

(** [mkdir(parents=True, exist_ok=True)] succeeds when whatever exists
    along the path is a directory. *)
Lemma mkdir_parents_defined (p : path) :
  forall f,
    (forall q x, is_below q p = true -> lookup f q = Some x ->
                 is_dir_node x = true) ->
    exists f', mkdir_parents f p = inr f'.
Proof.
  induction p as [|c rest IH]; intros f H.
  - pose proof (H [] f eq_refl eq_refl) as Hf.
    destruct f; try discriminate Hf. cbn. eauto.
  - pose proof (H [] f eq_refl eq_refl) as Hf.
    destruct f as [cnt|es|]; try discriminate Hf. cbn [mkdir_parents].
    destruct (IH (match assoc c es with Some ch => ch | None => Dir [] end))
      as [child' E].
    + intros q x Hq Hx. destruct (assoc c es) as [ch|] eqn:Ec.
      * apply (H (c :: q) x).
        -- cbn. rewrite String.eqb_refl. exact Hq.
        -- rewrite lookup_child, Ec. exact Hx.
      * destruct q as [|b q]; cbv in Hx; [injection Hx as <-; reflexivity|].
        discriminate Hx.
    + cbv zeta. rewrite E. eauto.
Qed.

(** Afterwards the path and what leads to it are directories, and what
    was no directory and does not lead to the path is as before. *)
Lemma mkdir_parents_result (p : path) :
  forall f f',
    mkdir_parents f p = inr f' ->
    (forall q, is_below q p = true -> is_dir f' q = true) /\
    (forall q, is_below q p = false -> is_dir f q = false ->
               lookup f' q = lookup f q).
Proof.
  induction p as [|c rest IH]; intros f f' H.
  - cbn in H. destruct f as [cnt|es|]; try discriminate H.
    assert (f' = Dir es) by congruence. subst f'. split.
    + intros [|b q] Hq; [reflexivity | discriminate].
    + intros q Hq. reflexivity.
  - cbn [mkdir_parents] in H. destruct f as [cnt|es|]; try discriminate.
    cbv zeta in H.
    destruct (mkdir_parents (match assoc c es with Some ch => ch | None => Dir [] end)
                rest) as [e|child'] eqn:E; [discriminate|].
    injection H as <-. destruct (IH _ _ E) as [A B]. split.
    + intros [|b q] Hq; [reflexivity|].
      cbn in Hq. apply andb_prop in Hq. destruct Hq as [Hb Hq].
      apply String.eqb_eq in Hb. subst b.
      rewrite is_dir_cons, assoc_set_entry_same. apply A. exact Hq.
    + intros [|b q] Hq Hnd; [discriminate|].
      rewrite !lookup_child. destruct (String.eqb_spec b c) as [->|Hbc].
      * cbn in Hq. rewrite String.eqb_refl in Hq. cbn in Hq.
        rewrite is_dir_cons in Hnd. rewrite assoc_set_entry_same.
        destruct (assoc c es) as [ch|].
        -- apply B; assumption.
        -- rewrite B; [|exact Hq|].
           ++ destruct q; [discriminate Hq | reflexivity].
           ++ destruct q; [discriminate Hq | reflexivity].
      * rewrite (assoc_set_entry_other c b child' es Hbc). reflexivity.
Qed.

End MakeDirectories.

Section WalkOnce.

Import Posix.

(** The walk of a tree without repeated names lists no path twice. *)
Lemma walk_files_NoDup (n : node) :
  well_formed n = true -> forall root, NoDup (walk_files root n).
Proof.
  induction n as [c| |es IH] using node_tree_ind; intros Hwf root;
    try (cbn; constructor).
  cbn [walk_files].
  destruct (well_formed_dir es Hwf) as [Hnames Hall].
  assert (Hsub : forall p l,
            In p ((fix sub (l : list (string * node)) : list path :=
                     match l with
                     | [] => []
                     | (name, child) :: t =>
                         walk_files (root ++ [name]) child ++ sub t
                     end) l) ->
            exists k below, In k (map fst l) /\ below <> [] /\
                            p = root ++ k :: below).
  { intros p l. induction l as [|[k x] t IHt]; [intros []|].
    intros Hin. apply in_app_or in Hin. destruct Hin as [Hin|Hin].
    - destruct (walk_files_below x _ _ Hin) as [below [Hne ->]].
      exists k, below. split; [left; reflexivity|]. split; [exact Hne|].
      rewrite <- app_assoc. reflexivity.
    - destruct (IHt Hin) as [k' [below [Hk [Hne ->]]]].
      exists k', below. split; [right; exact Hk|]. split; [exact Hne|reflexivity]. }
  assert (Hex : forall k (l : list (string * node)),
            In k (map fst l) -> existsb (String.eqb k) (map fst l) = true).
  { intros k l Hk. apply existsb_exists. exists k. split; [exact Hk|].
    apply String.eqb_refl. }
  apply NoDup_app.
  - clear IH Hall Hsub Hwf. induction es as [|[k x] t IHt]; [constructor|].
    cbn [map fst names_distinct] in Hnames. apply andb_prop in Hnames.
    destruct Hnames as [Hk Ht]. cbn [filter snd].
    destruct (negb (is_dir_node x)); [|apply IHt; exact Ht].
    cbn [map fst]. constructor; [|apply IHt; exact Ht].
    intros Hin. apply in_map_iff in Hin. destruct Hin as [[k' x'] [E Hin]].
    cbn [fst] in E. apply app_inv_head in E. injection E as ->.
    apply filter_In in Hin. destruct Hin as [Hin _].
    rewrite (Hex k t) in Hk; [discriminate|].
    apply in_map_iff. exists (k, x'). split; [reflexivity | exact Hin].
  - clear Hwf. induction es as [|[k x] t IHt]; [constructor|].
    cbn [map fst names_distinct] in Hnames. apply andb_prop in Hnames.
    destruct Hnames as [Hk Ht].
    inversion IH as [|? ? Hx IHt']; subst. inversion Hall as [|? ? Wx Wt]; subst.
    apply NoDup_app.
    + apply Hx. exact Wx.
    + apply IHt; assumption.
    + intros p Hp Hq. destruct (Hsub p t Hq) as [k' [below [Hk' [_ E]]]].
      destruct (walk_files_below x _ _ Hp) as [below' [Hne E']].
      rewrite E' in E. rewrite <- app_assoc in E. apply app_inv_head in E.
      cbn in E. injection E as -> _.
      rewrite (Hex k' t Hk') in Hk. discriminate.
  - intros p Hp Hq. apply in_map_iff in Hp. destruct Hp as [[k x] [E _]].
    destruct (Hsub p es Hq) as [k' [below [_ [Hne E']]]].
    rewrite E' in E. cbn [fst] in E. apply app_inv_head in E.
    injection E as _ E. destruct below; [contradiction | discriminate].
Qed.

End WalkOnce.

Section OneFile.

Import Posix.

(** What the copy of one file leaves alone. *)
Lemma copy_with_progress_lookup_frame (p t : path) (dst : pane_id)
    (i n : nat) (w : World) :
  well_formed (fs w) = true ->
  well_formed (fs (fst (_copy_with_progress p t dst i n w))) = true /\
  (forall q, is_below t q = false -> is_dir (fs w) q = false ->
             lookup (fs (fst (_copy_with_progress p t dst i n w))) q
             = lookup (fs w) q) /\
  (forall q, is_dir (fs w) q = true ->
             is_dir (fs (fst (_copy_with_progress p t dst i n w))) q = true).
Proof.
  intros Hwf.
  set (J := fun f => well_formed f = true /\
     (forall q, is_below t q = false -> is_dir (fs w) q = false ->
                lookup f q = lookup (fs w) q) /\
     (forall q, is_dir (fs w) q = true -> is_dir f q = true)).
  assert (Hframe : forall g f f' t',
     (forall o v, g o = inr (Some v) -> is_dir_node v = false) ->
     (forall es, exists e, g (Some (Dir es)) = inl e) ->
     (forall o v, g o = inr (Some v) -> well_formed v = true) ->
     is_below t t' = true -> J f -> alter g f t' = inr f' -> J f').
  { intros g f f' t' G1 G2 G3 Hb [W [L D]] E.
    split; [exact (alter_well_formed g G3 t' f f' W E)|]. split.
    - intros q Hq Hnd. rewrite <- (L q Hq Hnd).
      apply (alter_lookup_frame g G1 G2 t' f f' q W E).
      + intros ->. congruence.
      + rewrite is_dir_lookup, (L q Hq Hnd), <- is_dir_lookup. exact Hnd.
    - intros q Hq. exact (alter_keeps_directory g G2 t' f f' q E (D q Hq)). }
  apply (copy_with_progress_writes_below J t).
  - intros f f' t' Hb Hf E. unfold open_wb in E.
    refine (Hframe _ f f' t' _ _ _ Hb Hf E).
    + intros [[| |]|] v H; try discriminate; injection H as <-; reflexivity.
    + intros es. eexists. reflexivity.
    + intros [[| |]|] v H; try discriminate; injection H as <-; reflexivity.
  - intros f f' t' buf Hb Hf E. unfold write in E.
    refine (Hframe _ f f' t' _ _ _ Hb Hf E).
    + intros [[| |]|] v H; try discriminate; injection H as <-; reflexivity.
    + intros es. eexists. reflexivity.
    + intros [[| |]|] v H; try discriminate; injection H as <-; reflexivity.
  - apply is_below_refl.
  - split; [exact Hwf|]. split; [reflexivity | auto].
Qed.

Lemma unlink_lookup_frame (f f' : node) (p q : path) :
  well_formed f = true -> unlink f p = inr f' -> q <> p ->
  is_dir f q = false -> lookup f' q = lookup f q.
Proof.
  intros Hwf E Hq Hnd. unfold unlink in E.
  refine (alter_lookup_frame _ _ _ p f f' q Hwf E Hq Hnd).
  - intros [[| |]|] v H; discriminate.
  - intros es. eexists. reflexivity.
Qed.

Lemma unlink_keeps_directory (f f' : node) (p q : path) :
  unlink f p = inr f' -> is_dir f q = true -> is_dir f' q = true.
Proof.
  intros E. unfold unlink in E.
  refine (alter_keeps_directory _ _ p f f' q E).
  intros es. eexists. reflexivity.
Qed.

Lemma is_below_longer (p : path) (x : string) : is_below (p ++ [x]) p = false.
Proof.
  destruct (is_below (p ++ [x]) p) eqn:E; [|reflexivity].
  destruct (is_below_split _ _ E) as [r Hr].
  apply (f_equal (@List.length string)) in Hr. rewrite !length_app in Hr.
  cbn in Hr. lia.
Qed.

Lemma is_below_trans_app (R b q : path) :
  is_below (R ++ b) q = true -> is_below R q = true.
Proof.
  intros H. destruct (is_below_split _ _ H) as [r ->].
  rewrite <- app_assoc. apply is_below_app.
Qed.

Lemma file_is_no_directory (f : node) (p : path) (c : list byte) :
  stat f p = inr (File c) -> is_dir f p = false /\ is_file f p = true.
Proof. intros H. unfold is_dir, is_file. rewrite H. split; reflexivity. Qed.

Lemma file_or_directory (f : node) (p : path) :
  is_file f p = true -> is_dir f p = true -> False.
Proof.
  unfold is_file, is_dir. destruct (stat f p) as [e|[c|es|]]; discriminate.
Qed.

End OneFile.

Lemma folder_entry (m : mode) (dst : pane_id) (d : path) (n i : nat)
    (f0 : node) (d0 below : path) (w : World) (data : list byte) :
  let R := d ++ [PurePath.name d0] in
  Posix.well_formed (fs w) = true ->
  Posix.is_dir (fs w) d = true ->
  Posix.is_dir (fs w) d0 = true ->
  d0 <> [] -> below <> [] ->
  Posix.exists_ f0 R = false ->
  Posix.stat f0 (d0 ++ below) = inr (File data) ->
  Posix.stat (fs w) (d0 ++ below) = inr (File data) ->
  mirrors f0 d0 (fs w) R ->
  exists w',
    entry m [d0] dst d n i (d0 ++ below) w = (w', Return tt) /\
    Posix.well_formed (fs w') = true /\
    mirrors f0 d0 (fs w') R /\
    Posix.stat (fs w') (R ++ below) = inr (File data) /\
    match m with
    | Copy => Posix.stat (fs w') (d0 ++ below) = inr (File data)
    | Move => Posix.exists_ (fs w') (d0 ++ below) = false
    end /\
    (forall q, is_below R q = false -> Posix.is_dir (fs w) q = false ->
               (m = Move -> q <> d0 ++ below) ->
               Posix.lookup (fs w') q = Posix.lookup (fs w) q) /\
    (forall r c, Posix.stat (fs w) (R ++ r) = inr (File c) -> r <> below ->
                 Posix.stat (fs w') (R ++ r) = inr (File c)).
Proof.
  intros R Hwf Hd Hd0 Hne0 Hneb HR Hp0 Hp Hmir.
  set (p := d0 ++ below) in *.
  set (t := R ++ below).
  set (P := R ++ removelast below).
  assert (A1 : PurePath.parent t = P).
  { unfold PurePath.parent, t, P. apply removelast_app. exact Hneb. }
  assert (A2 : rel_path (fs w) [d0] p
               = inr (PurePath.Rel (PurePath.name d0 :: below))).
  { unfold rel_path. rewrite Hd0. unfold p.
    rewrite <- (parent_name d0 Hne0) at 1. rewrite <- app_assoc.
    rewrite relative_to_app. reflexivity. }
  assert (A3 : PurePath.div d (PurePath.Rel (PurePath.name d0 :: below)) = t).
  { unfold PurePath.div, t, R. rewrite <- app_assoc. reflexivity. }
  assert (A4 : forall y, is_below y (removelast below) = true ->
                         Posix.is_dir f0 (d0 ++ y) = true).
  { intros y Hy. destruct (is_below_removelast y below Hneb Hy) as [Hb Hyb].
    destruct (is_below_split _ _ Hb) as [r Hr].
    apply (prefix_is_dir f0 (d0 ++ y) r (File data)).
    - intros ->. rewrite app_nil_r in Hr. congruence.
    - rewrite <- app_assoc, <- Hr. exact Hp0. }
  assert (A5 : is_below R p = false).
  { destruct (is_below R p) eqn:E; [|reflexivity].
    pose proof (absent_below f0 R p HR E) as N.
    apply lookup_stat in Hp0. congruence. }
  assert (A6 : p <> t).
  { intros E. rewrite E in A5. unfold t in A5. rewrite is_below_app in A5.
    discriminate. }
  assert (Hm : forall y x, is_below y (removelast below) = true ->
             Posix.lookup (fs w) (R ++ y) = Some x ->
             Posix.is_dir_node x = true).
  { intros y x Hy Hx. pose proof (Hmir y) as M. rewrite Hx in M.
    destruct x as [c|es|]; [|reflexivity|contradiction].
    destruct (file_or_directory f0 (d0 ++ y) M (A4 y Hy)). }
  assert (A7 : forall q x, is_below q P = true ->
             Posix.lookup (fs w) q = Some x -> Posix.is_dir_node x = true).
  { intros q x Hq Hx.
    assert (Hdir : is_below q d = true -> Posix.is_dir_node x = true).
    { intros Hqd. pose proof (prefix_of_directory (fs w) q d Hd Hqd) as D.
      rewrite is_dir_lookup, Hx in D. exact D. }
    apply is_below_app_cases in Hq. destruct Hq as [Hq|[y [-> Hy]]].
    - unfold R in Hq. apply is_below_app_cases in Hq.
      destruct Hq as [Hq|[y [-> Hy]]]; [exact (Hdir Hq)|].
      destruct y as [|b y].
      + apply Hdir. rewrite app_nil_r. apply is_below_refl.
      + cbn in Hy. apply andb_prop in Hy. destruct Hy as [Hb Hy].
        apply String.eqb_eq in Hb. subst b. destruct y; [|discriminate].
        apply (Hm [] x); [reflexivity|].
        unfold R. rewrite app_nil_r. exact Hx.
    - exact (Hm y x Hy Hx). }
  destruct (mkdir_parents_defined P (fs w) A7) as [f1 Em].
  destruct (mkdir_parents_result P (fs w) f1 Em) as [Ma Mb].
  pose proof (mkdir_parents_well_formed P (fs w) f1 Hwf Em) as W1.
  assert (A9 : t = P ++ [PurePath.name t]).
  { rewrite <- A1. symmetry. apply parent_name. unfold t.
    destruct R; [destruct below; [contradiction|discriminate]|discriminate]. }
  assert (Dt : Posix.is_dir (fs w) t = false).
  { destruct (Posix.is_dir (fs w) t) eqn:E; [|reflexivity].
    pose proof (Hmir below) as M. fold t in M.
    rewrite is_dir_lookup in E.
    destruct (Posix.lookup (fs w) t) as [[c|es|]|]; try discriminate E.
    destruct (file_is_no_directory f0 p data Hp0) as [N _]. unfold p in N.
    congruence. }
  assert (Lt : Posix.lookup f1 t = Posix.lookup (fs w) t).
  { apply Mb; [|exact Dt]. rewrite A9. apply is_below_longer. }
  assert (Ft : free_or_file f1 (P ++ [PurePath.name t]) = true).
  { rewrite <- A9. unfold free_or_file. rewrite Lt.
    pose proof (Hmir below) as M. fold t in M.
    rewrite is_dir_lookup in Dt.
    destruct (Posix.lookup (fs w) t) as [[c|es|]|];
      try reflexivity; [discriminate Dt | contradiction]. }
  destruct (open_wb_in_directory P (PurePath.name t) f1
              (Ma P (is_below_refl P)) Ft) as [f2 Eo].
  rewrite <- A9 in Eo.
  assert (Hp1 : Posix.stat (fs (with_fs w f1)) p = inr (File data)).
  { cbn [fs with_fs]. apply (mkdir_parents_frame P (fs w) f1 p data Em). exact Hp. }
  destruct (copy_to_other_path (with_fs w f1) p t dst i n data f2 A6 Hp1 Eo)
    as [Cret [Ct [Cp _]]].
  destruct (copy_with_progress_lookup_frame p t dst i n (with_fs w f1) W1)
    as [W2 [L2 D2]].
  cbv zeta in Cret, Ct, Cp. cbn [fs with_fs] in L2, D2.
  destruct (_copy_with_progress p t dst i n (with_fs w f1)) as [w2 o] eqn:Ec.
  cbn [fst snd] in *. subst o.
  (* the tree after the entry *)
  assert (Hfinal : exists w',
    entry m [d0] dst d n i p w = (w', Return tt) /\
    Posix.well_formed (fs w') = true /\
    Posix.stat (fs w') t = inr (File data) /\
    match m with
    | Copy => Posix.stat (fs w') p = inr (File data)
    | Move => Posix.exists_ (fs w') p = false
    end /\
    (forall q, q <> p -> Posix.is_dir (fs w2) q = false ->
               Posix.lookup (fs w') q = Posix.lookup (fs w2) q) /\
    (forall q, Posix.is_dir (fs w2) q = true -> Posix.is_dir (fs w') q = true) /\
    (m = Copy -> fs w' = fs w2)).
  { destruct m; cbn [entry].
    - exists w2. rewrite copy_entry_run, A2, A3, A1, Em, Ec.
      repeat split; auto.
    - assert (Hnep : p <> []).
      { unfold p. destruct d0; [contradiction | discriminate]. }
      destruct (unlink_file p (fs w2) data W2 Hnep Cp) as [f3 [Eu [Gone Fr]]].
      exists (with_event (with_fs w2 f3) (Unlinked p)).
      rewrite move_entry_run, A2, A3, A1, Em, Ec, Eu. cbn [fs with_event with_fs].
      split; [reflexivity|]. split; [exact (unlink_well_formed _ _ _ W2 Eu)|].
      split; [apply Fr; [congruence | exact Ct]|].
      split; [unfold Posix.exists_; rewrite Gone; reflexivity|].
      split; [|split; [|discriminate]].
      + intros q Hq Hnd. exact (unlink_lookup_frame _ _ p q W2 Eu Hq Hnd).
      + intros q Hq. exact (unlink_keeps_directory _ _ p q Eu Hq). }
  destruct Hfinal as [w' [E' [W' [T' [S' [L' [D' C']]]]]]].
  (* the general frame of the entry *)
  assert (G : forall q, is_below t q = false -> is_below q P = false ->
              (m = Move -> q <> p) -> Posix.is_dir (fs w) q = false ->
              Posix.lookup (fs w') q = Posix.lookup (fs w) q).
  { intros q Hqt HqP Hqp Hnd.
    pose proof (Mb q HqP Hnd) as E1.
    assert (N1 : Posix.is_dir f1 q = false)
      by (rewrite is_dir_lookup, E1, <- is_dir_lookup; exact Hnd).
    pose proof (L2 q Hqt N1) as E2.
    assert (N2 : Posix.is_dir (fs w2) q = false)
      by (rewrite is_dir_lookup, E2, <- is_dir_lookup; exact N1).
    rewrite <- E1, <- E2. destruct m.
    - rewrite (C' eq_refl). reflexivity.
    - apply L'; auto. }
  assert (Dk : forall q, Posix.is_dir (fs w) q = true ->
                         Posix.is_dir (fs w') q = true).
  { intros q Hq. apply D', D2.
    exact (mkdir_parents_keeps_directory P (fs w) f1 q Em Hq). }
  exists w'. split; [exact E'|]. split; [exact W'|]. split; [|split; [exact T'|]].
  - (* mirrors *)
    intros r. destruct (is_below t (R ++ r)) eqn:Bt.
    + destruct (is_below_split _ _ Bt) as [y Hy]. rewrite Hy.
      unfold Posix.lookup. rewrite stat_app, T'.
      destruct y as [|b y]; [|exact I]. cbn.
      rewrite app_nil_r in Hy. unfold t in Hy. apply app_inv_head in Hy.
      subst r. apply (file_is_no_directory f0 p data Hp0).
    + destruct (is_below (R ++ r) P) eqn:BP.
      * assert (Dq : Posix.is_dir (fs w') (R ++ r) = true)
          by (apply D', D2, Ma; exact BP).
        rewrite is_dir_lookup in Dq.
        destruct (Posix.lookup (fs w') (R ++ r)) as [[c|es|]|];
          try discriminate Dq.
        apply A4. unfold P in BP. rewrite is_below_cancel in BP. exact BP.
      * destruct (Posix.is_dir (fs w) (R ++ r)) eqn:Dr.
        -- pose proof (Dk _ Dr) as Dq. pose proof (Hmir r) as M.
           rewrite is_dir_lookup in Dq, Dr.
           destruct (Posix.lookup (fs w') (R ++ r)) as [[c|es|]|];
             try discriminate Dq.
           destruct (Posix.lookup (fs w) (R ++ r)) as [[c'|es'|]|];
             try discriminate Dr. exact M.
        -- rewrite (G (R ++ r) Bt BP); [apply Hmir| |exact Dr].
           intros _ E. rewrite <- E, is_below_app in A5. discriminate.
  - split; [exact S'|]. split.
    + intros q Hq Hnd Hqp. apply G; auto.
      * destruct (is_below t q) eqn:E; [|reflexivity].
        unfold t in E. apply is_below_trans_app in E. congruence.
      * unfold P, R. apply (not_prefix_below_entry (fs w)); assumption.
    + intros r c Hs Hr. apply lookup_stat.
      destruct (file_is_no_directory _ _ _ Hs) as [Nd _].
      pose proof (Hmir r) as M.
      rewrite (proj2 (lookup_stat _ _ _) Hs) in M.
      rewrite G; [apply lookup_stat; exact Hs | | | | exact Nd].
      * destruct (is_below t (R ++ r)) eqn:E; [|reflexivity]. exfalso.
        destruct (is_below_split _ _ E) as [y Hy]. unfold t in Hy.
        rewrite <- app_assoc in Hy. apply app_inv_head in Hy. subst r.
        destruct y as [|b y]; [apply Hr; apply app_nil_r|].
        destruct (is_file_stat _ _ M) as [c' Hc'].
        rewrite app_assoc in Hc'. fold p in Hc'.
        pose proof (prefix_is_dir f0 p (b :: y) _ ltac:(discriminate) Hc') as K.
        destruct (file_is_no_directory f0 p data Hp0) as [N _]. congruence.
      * destruct (is_below (R ++ r) P) eqn:E; [|reflexivity]. exfalso.
        unfold P in E. rewrite is_below_cancel in E.
        exact (file_or_directory f0 (d0 ++ r) M (A4 r E)).
      * intros _ E. rewrite <- E, is_below_app in A5. discriminate.
Qed.

Lemma folder_loop (m : mode) (dst : pane_id) (d : path) (n : nat)
    (f0 : node) (d0 : path) :
  let R := d ++ [PurePath.name d0] in
  d0 <> [] -> Posix.exists_ f0 R = false ->
  forall todo i w,
    Posix.well_formed (fs w) = true ->
    Posix.is_dir (fs w) d = true ->
    Posix.is_dir (fs w) d0 = true ->
    mirrors f0 d0 (fs w) R ->
    NoDup todo ->
    (forall p, In p todo ->
       exists below data,
         p = d0 ++ below /\ below <> [] /\
         Posix.stat f0 p = inr (File data) /\
         Posix.stat (fs w) p = inr (File data)) ->
    exists w',
      for_enumerate (entry m [d0] dst d n) i todo w = (w', Return tt) /\
      (forall below data,
         In (d0 ++ below) todo ->
         Posix.stat f0 (d0 ++ below) = inr (File data) ->
         Posix.stat (fs w') (R ++ below) = inr (File data) /\
         match m with
         | Copy => Posix.stat (fs w') (d0 ++ below) = inr (File data)
         | Move => Posix.exists_ (fs w') (d0 ++ below) = false
         end) /\
      (forall q, is_below R q = false -> Posix.is_dir (fs w) q = false ->
                 (m = Move -> ~ In q todo) ->
                 Posix.lookup (fs w') q = Posix.lookup (fs w) q) /\
      (forall r c, Posix.stat (fs w) (R ++ r) = inr (File c) ->
                   ~ In (d0 ++ r) todo ->
                   Posix.stat (fs w') (R ++ r) = inr (File c)).
Proof.
  intros R Hne0 HR.
  assert (Out : forall p c, Posix.stat f0 p = inr (File c) ->
                            is_below R p = false).
  { intros p c Hs. destruct (is_below R p) eqn:E; [|reflexivity].
    pose proof (absent_below f0 R p HR E) as N.
    apply lookup_stat in Hs. congruence. }
  induction todo as [|p rest IH]; intros i w Hwf Hd Hd0 Hmir Hnd Hsrc.
  { exists w. split; [reflexivity|]. split; [intros below data []|].
    split; [reflexivity | auto]. }
  destruct (Hsrc p (or_introl eq_refl)) as [below [data [Ep [Hneb [Hp0 Hp]]]]].
  subst p.
  destruct (folder_entry m dst d n i f0 d0 below w data Hwf Hd Hd0 Hne0 Hneb
              HR Hp0 Hp Hmir)
    as [w1 [E1 [W1 [M1 [T1 [S1 [L1 K1]]]]]]].
  fold R in M1, T1, L1, K1.
  inversion Hnd as [|a l Hnotin Hnd']; subst.
  assert (Keep : forall q, Posix.is_dir (fs w) q = true ->
                           Posix.is_dir (fs w1) q = true).
  { intros q Hq.
    replace w1 with (fst (for_enumerate (entry m [d0] dst d n) i
                            [d0 ++ below] w))
      by (rewrite for_enumerate_single, E1; reflexivity).
    apply transfer_loop_keeps_directory. exact Hq. }
  destruct (IH (S i) w1 W1 (Keep d Hd) (Keep d0 Hd0) M1 Hnd')
    as [w' [E' [R' [C1 C2]]]].
  { intros p' Hp'.
    destruct (Hsrc p' (or_intror Hp')) as [below' [data' [-> [Hne' [H0' H']]]]].
    exists below', data'. repeat split; auto.
    apply lookup_stat. rewrite L1.
    - apply lookup_stat. exact H'.
    - exact (Out _ _ H0').
    - apply (file_is_no_directory _ _ _ H').
    - intros _ E. apply Hnotin. rewrite <- E. exact Hp'. }
  exists w'. split.
  { rewrite for_enumerate_step by (rewrite E1; reflexivity).
    rewrite E1. exact E'. }
  assert (Nsrc : Posix.is_dir (fs w1) (d0 ++ below) = false).
  { destruct m.
    - apply (file_is_no_directory _ _ _ S1).
    - unfold Posix.exists_ in S1. unfold Posix.is_dir.
      destruct (Posix.stat (fs w1) (d0 ++ below)); [reflexivity|discriminate]. }
  split; [|split].
  - intros below0 data0 [E|Hin] H0.
    + apply app_inv_head in E. subst below0.
      assert (data0 = data) by congruence. subst data0. split.
      * apply C2; [exact T1 | exact Hnotin].
      * assert (Kp : Posix.lookup (fs w') (d0 ++ below)
                     = Posix.lookup (fs w1) (d0 ++ below)).
        { apply C1; [exact (Out _ _ Hp0) | exact Nsrc | intros _; exact Hnotin]. }
        destruct m.
        -- apply lookup_stat. rewrite Kp. apply lookup_stat. exact S1.
        -- unfold Posix.exists_, Posix.lookup in *.
           destruct (Posix.stat (fs w') (d0 ++ below)),
                    (Posix.stat (fs w1) (d0 ++ below));
             try reflexivity; try discriminate.
    + apply R'; assumption.
  - intros q Hq Hnq Hmv.
    assert (E1q : Posix.lookup (fs w1) q = Posix.lookup (fs w) q).
    { apply L1; auto. intros Hm E. apply (Hmv Hm). left. symmetry. exact E. }
    rewrite <- E1q. apply C1; auto.
    + rewrite is_dir_lookup, E1q, <- is_dir_lookup. exact Hnq.
    + intros Hm Hin. apply (Hmv Hm). right. exact Hin.
  - intros r c Hs Hnin. apply C2.
    + apply K1; [exact Hs|]. intros ->. apply Hnin. left. reflexivity.
    + intros Hin. apply Hnin. right. exact Hin.
Qed.

(** X12. A folder is transferred with all its files.  The tree has no
    repeated names, the destination pane shows an existing directory
    [d], one folder [d0] other than the root is selected, everything in
    it that is not a folder is a regular file, and [d] has no entry of
    the folder's name.  Then Copy and Move return, and every regular
    file of the folder, at whatever depth, is afterwards below [d] at
    the folder's name followed by its place in the folder, with the
    bytes it had; the original is unchanged after Copy and gone after
    Move. *)
Theorem transfer_of_a_folder (m : mode) (src dst : pane_id) (w : World)
    (d d0 : path) :
  Posix.well_formed (fs w) = true ->
  directory (pane_of w dst) = Some d ->
  Posix.is_dir (fs w) d = true ->
  selected_paths src w = [d0] ->
  Posix.is_dir (fs w) d0 = true ->
  d0 <> [] ->
  Posix.exists_ (fs w) (d ++ [PurePath.name d0]) = false ->
  (forall p, In p (plan_of src w) -> Posix.is_file (fs w) p = true) ->
  let r := run m src dst w in
  snd r = Return tt /\
  forall below data,
    Posix.stat (fs w) (d0 ++ below) = inr (File data) ->
    Posix.stat (fs (fst r)) (d ++ PurePath.name d0 :: below) = inr (File data) /\
    match m with
    | Copy => Posix.stat (fs (fst r)) (d0 ++ below) = inr (File data)
    | Move => Posix.exists_ (fs (fst r)) (d0 ++ below) = false
    end.
Proof.
  intros Hwf Hdir Hd Hsel Hd0 Hne0 HR Hfiles r. subst r.
  assert (Hne : selected_paths src w <> []) by (rewrite Hsel; discriminate).
  assert (Hplan : plan_of src w = _collect_all_files (fs w) [d0])
    by (unfold plan_of; rewrite Hsel; reflexivity).
  set (w0 := fst (_set_progress dst 0%Q (Qnat (List.length (plan_of src w))) w)).
  assert (F0 : fs w0 = fs w) by apply set_progress_fs.
  assert (Hnd : NoDup (plan_of src w)).
  { rewrite Hplan. unfold _collect_all_files. cbn [flat_map].
    rewrite app_nil_r.
    destruct (Posix.is_file (fs w) d0); [repeat constructor; intros []|].
    rewrite Hd0. unfold Posix.walk.
    destruct (Posix.stat (fs w) d0) as [e|n0] eqn:E0; [constructor|].
    apply walk_files_NoDup. exact (well_formed_stat d0 (fs w) n0 Hwf E0). }
  destruct (folder_loop m dst d (List.length (plan_of src w)) (fs w) d0 Hne0 HR
              (plan_of src w) 1 w0)
    as [w1 [El [Res _]]].
  - rewrite F0. exact Hwf.
  - rewrite F0. exact Hd.
  - rewrite F0. exact Hd0.
  - rewrite F0. intros r0.
    rewrite (absent_below (fs w) _ _ HR (is_below_app _ r0)). exact I.
  - exact Hnd.
  - intros p Hp. pose proof (Hfiles p Hp) as Hf.
    destruct (is_file_stat _ _ Hf) as [data Hs].
    rewrite Hplan in Hp.
    destruct (collect_single_dir_below (fs w) d0 p Hd0 Hp) as [below [Hb ->]].
    exists below, data. rewrite F0. auto.
  - rewrite <- Hsel in El.
    rewrite (run_after_loop m src dst w w1 d Hne Hdir El).
    split; [apply finish_returns|].
    rewrite finish_fs, reset_progress_eq, set_progress_fs.
    intros below data Hs.
    replace (d ++ PurePath.name d0 :: below)
      with ((d ++ [PurePath.name d0]) ++ below)
      by (rewrite <- app_assoc; reflexivity).
    apply Res; [|exact Hs].
    rewrite Hplan. apply (plan_characterised (fs w) [d0] (d0 ++ below) Hwf).
    exists d0, below, (File data).
    split; [left; reflexivity|]. split; [reflexivity|].
    split; [exact Hs|]. split; reflexivity.
Qed.

(** ** Where a transfer puts the files *)

Section Copies.



Variable L : list event.













End Copies.


Section RegularFilesStay.

Import Posix.








End RegularFilesStay.

Section LoopCopies.

Variable m : mode.
Variable files : list path.
Variable dst : pane_id.
Variable d : path.
Variable n : nat.
Variable L : list event.

(** Something that holds of the tree before every entry of the loop. *)
Variable K : node -> Prop.
Hypothesis K_entry :
  forall i p w, K (fs w) -> K (fs (fst (entry m files dst d n i p w))).


End LoopCopies.




(** * The properties on the example worlds *)

(** C1.  In [blocked_world] the plan has two files and the first cannot be
    written, because its destination is a folder.  The exception of the
    copy leaves [_copy_files] and [_move_files]: the second file is never
    copied, nothing is recorded or reported, the file system is as it
    was.  (The specification asks for the failure to be recorded and for
    the batch to go on.) *)
Theorem copy_failure_aborts_batch :
  plan_of LeftPane blocked_world = [["s"; "a.txt"]; ["s"; "b.txt"]]
  /\ Posix.is_file (fs blocked_world) ["s"; "b.txt"] = true
  /\ forall m,
       snd (run m LeftPane RightPane blocked_world) = Raise IsADirectoryError
       /\ Posix.exists_ (fs (fst (run m LeftPane RightPane blocked_world)))
            ["d"; "b.txt"] = false
       /\ fs (fst (run m LeftPane RightPane blocked_world)) = fs blocked_world
       /\ transfer_errors (log (fst (run m LeftPane RightPane blocked_world))) = []
       /\ log (fst (run m LeftPane RightPane blocked_world))
          = [SetProgress RightPane 0%Q (Qnat 2)].
Proof.
  split; [reflexivity|]. split; [reflexivity|].
  intros m. destruct m; vm_compute; repeat split.
Qed.

(** C2.  In [same_dir_world] both panes show [/s] and [/s/a.txt] holds two
    bytes.  Move copies the file onto itself, which empties it, and then
    unlinks it: the copy succeeded, the deletion succeeded, and the
    destination path [/s/a.txt] does not exist; the bytes are lost.  (The
    specification asks for the destination to exist with the bytes of the
    source.) *)
Theorem move_within_one_directory_loses_file :
  let r := run Move LeftPane RightPane same_dir_world in
  plan_of LeftPane same_dir_world = [["s"; "a.txt"]]
  /\ Posix.stat (fs same_dir_world) ["s"; "a.txt"] = inr (File (bytes "hi"))
  /\ snd r = Return tt
  /\ filter (fun e => is_copystat e || is_unlinked e) (log (fst r))
     = [CopyStat ["s"; "a.txt"] ["s"; "a.txt"]; Unlinked ["s"; "a.txt"]]
  /\ transfer_errors (log (fst r)) = []
  /\ Posix.exists_ (fs (fst r)) ["s"; "a.txt"] = false
  /\ fs (fst r) = Dir [("s", Dir [])].
Proof. vm_compute. repeat split. Qed.

(** C4.  In [socket_world] the selected folder [Foo] holds a regular
    file and a socket, and the plan lists both: the walk of a selected
    folder takes every entry that is no folder, while the branch of the
    same loop for the selected entries themselves asks [is_file] and
    leaves the same socket out when it is selected by itself.  The
    socket in the plan cannot be read: Copy and Move raise at it, after
    the file before it was copied.  (Expected: the plan holds exactly
    the regular files under the selected entries.) *)
Theorem plan_lists_socket :
  plan_of LeftPane socket_world
  = [["s"; "Foo"; "x.bin"]; ["s"; "Foo"; "ctl.sock"]]
  /\ Posix.is_file (fs socket_world) ["s"; "Foo"; "ctl.sock"] = false
  /\ Posix.is_dir (fs socket_world) ["s"; "Foo"; "ctl.sock"] = false
  /\ In ["s"; "Foo"; "ctl.sock"] (plan_of LeftPane socket_world)
  /\ _collect_all_files (fs socket_world) [["s"; "Foo"; "ctl.sock"]] = []
  /\ ~ (forall p, In p (plan_of LeftPane socket_world) ->
                 Posix.is_file (fs socket_world) p = true)
  /\ forall m,
       snd (run m LeftPane RightPane socket_world) = Raise OSError
       /\ filter is_copystat (log (fst (run m LeftPane RightPane socket_world)))
          = [CopyStat ["s"; "Foo"; "x.bin"] ["d"; "Foo"; "x.bin"]].
Proof.
  split; [reflexivity|]. split; [reflexivity|]. split; [reflexivity|].
  split; [vm_compute; auto|]. split; [reflexivity|]. split.
  - intros H.
    specialize (H ["s"; "Foo"; "ctl.sock"] (or_intror (or_introl eq_refl))).
    discriminate.
  - intros m. destruct m; vm_compute; split; reflexivity.
Qed.

(** C10.  In [same_dir_world] the destination [/s/a.txt] exists as a
    regular file: it is the source.  The copier opens it for writing,
    which empties it, reads nothing and returns: the copy succeeds and the
    file is empty, not the two bytes the source held.  The Copy button on
    two panes showing the same directory does exactly this.  (Expected:
    the destination holds the bytes of the source.) *)
Theorem copy_onto_itself_empties_file :
  let p := ["s"; "a.txt"] in
  let r := _copy_with_progress p p RightPane 1 1 same_dir_world in
  Posix.stat (fs same_dir_world) p = inr (File (bytes "hi"))
  /\ snd r = Return 0
  /\ Posix.stat (fs (fst r)) p = inr (File [])
  /\ snd (run Copy LeftPane RightPane same_dir_world) = Return tt
  /\ Posix.stat (fs (fst (run Copy LeftPane RightPane same_dir_world))) p
     = inr (File []).
Proof. vm_compute. repeat split. Qed.

(** C5.  In [blocked_world] the plan has two files and the copy of the
    first raises.  The exception leaves the method, as in C1: no file
    was finished, no failure was reported, the second file was never
    tried; even with the exception counted as one failure the outcome
    accounts for one entry of two.  (Expected: every entry of the plan
    is counted as succeeded or as failed.) *)
Theorem outcome_sum_fails_when_copy_raises :
  let r := run Copy LeftPane RightPane blocked_world in
  snd r = Raise IsADirectoryError
  /\ List.length (plan_of LeftPane blocked_world) = 2
  /\ completed Copy (log (fst r)) = 0
  /\ transfer_errors (log (fst r)) = []
  /\ succeeded (outcome_of Copy blocked_world r) = 0
  /\ List.length (failed (outcome_of Copy blocked_world r)) = 1
  /\ succeeded (outcome_of Copy blocked_world r)
     + List.length (failed (outcome_of Copy blocked_world r))
     <> List.length (plan_of LeftPane blocked_world).
Proof. vm_compute. repeat split. discriminate. Qed.

(** C7 fails as stated: the empty file [/s/e.txt] of [plain_world] is
    copied to [/d/e.txt] as the second of three files.  The one progress
    call of the copy reports 2 of 3 and the bar then stands at 2 of 3;
    no call reports 0 of 0 and the pair is not 0 of 0. *)
Lemma zero_length_copy_reports_files :
  let w := plain_world ["e.txt"] in
  let r := _copy_with_progress ["s"; "e.txt"] ["d"; "e.txt"] RightPane 2 3 w in
  Posix.stat (fs w) ["s"; "e.txt"] = inr (File [])
  /\ (exists copied, snd r = Return copied)
  /\ Posix.stat (fs (fst r)) ["d"; "e.txt"] = inr (File [])
  /\ filter is_progress (events_since w (fst r))
     = [SetProgress RightPane 2%Q 3%Q]
  /\ ~ In (SetProgress RightPane 0%Q 0%Q) (events_since w (fst r))
  /\ progress_pair (fst r) RightPane = (2%Q, 3%Q)
  /\ progress_pair (fst r) RightPane <> (0%Q, 0%Q).
Proof.
  cbv zeta. split; [reflexivity|]. split; [eexists; vm_compute; reflexivity|].
  vm_compute. repeat split; try discriminate.
  intros [H|[H|[]]]; discriminate.
Qed.

(** C8 fails as stated: copying the folder [Foo] of [plain_world], a plan
    of two files, the first update stores [0] of [2], the update after
    the loop stores [0] of [2], and the transfer returns with [0] of [1];
    the pair is never [0] of [0]. *)
Lemma progress_pair_is_never_zero_zero :
  let w := plain_world ["Foo/"] in
  let n := List.length (plan_of LeftPane w) in
  let w0 := fst (_set_progress RightPane 0%Q (Qnat n) w) in
  let w1 := fst (for_enumerate
                   (entry Copy (selected_paths LeftPane w) RightPane ["d"] n)
                   1 (plan_of LeftPane w) w0) in
  let w2 := fst (_reset_progress RightPane w1) in
  let r := run Copy LeftPane RightPane w in
  n = 2
  /\ snd r = Return tt
  /\ progress_pair w0 RightPane = (0%Q, 2%Q)
  /\ progress_pair w2 RightPane = (0%Q, 2%Q)
  /\ progress_pair (fst r) RightPane = (0%Q, 1%Q)
  /\ progress_pair w0 RightPane <> (0%Q, 0%Q)
  /\ progress_pair w2 RightPane <> (0%Q, 0%Q)
  /\ progress_pair (fst r) RightPane <> (0%Q, 0%Q).
Proof. vm_compute. repeat split; discriminate. Qed.

(** The scenario of the specification: [report.txt] (10 bytes) and the
    folder [data], holding [a.bin] (empty) and [sub/b.bin] (5 bytes), are
    selected in [/src] and copied to [/dst].  Several entries are
    selected, so every file goes to [/dst] under its base name. *)
Example copy_of_file_and_folder :
  let w := mkWorld
             (Dir [("src", Dir [("report.txt", File (bytes "0123456789"));
                                ("data", Dir [("a.bin", File []);
                                              ("sub", Dir [("b.bin", File (bytes "01234"))])])]);
                   ("dst", Dir [])])
             (fresh_pane (Some ["src"]) ["report.txt"; "data/"])
             (fresh_pane (Some ["dst"]) [])
             [] in
  plan_of LeftPane w
  = [["src"; "report.txt"]; ["src"; "data"; "a.bin"]; ["src"; "data"; "sub"; "b.bin"]]
  /\ snd (run Copy LeftPane RightPane w) = Return tt
  /\ Posix.stat (fs (fst (run Copy LeftPane RightPane w))) ["dst"]
     = inr (Dir [("report.txt", File (bytes "0123456789"));
                 ("a.bin", File []);
                 ("b.bin", File (bytes "01234"))]).
Proof. vm_compute. repeat split. Qed.

(** ** The theorems with hypotheses, applied *)


(** [plan_entries] on [socket_world]: the plan of the folder [Foo], and
    the plan of two plain files of [plain_fs]. *)
Lemma plan_entries_witness :
  Posix.well_formed (fs socket_world) = true
  /\ (forall p,
         In p (_collect_all_files (fs socket_world) [["s"; "Foo"]])
         <-> exists s below x,
               In s [["s"; "Foo"]] /\ p = s ++ below
               /\ Posix.stat (fs socket_world) p = inr x
               /\ Posix.is_dir_node x = false
               /\ (below = [] -> Posix.is_file_node x = true))
  /\ _collect_all_files plain_fs [["s"; "a.txt"]; ["s"; "e.txt"]]
     = [["s"; "a.txt"]; ["s"; "e.txt"]].
Proof.
  split; [reflexivity|]. split.
  - apply (plan_entries (fs socket_world) [["s"; "Foo"]]). reflexivity.
  - apply (plan_entries plain_fs [["s"; "a.txt"]; ["s"; "e.txt"]]).
    + reflexivity.
    + repeat constructor.
Defined.

(** [outcome_accounts_for_plan] on [plain_world]: moving a file and a
    folder, three files in all. *)
Lemma outcome_accounts_for_plan_witness :
  let w := plain_world ["a.txt"; "Foo/"] in
  List.length (plan_of LeftPane w) = 3
  /\ succeeded (outcome_of Move w (run Move LeftPane RightPane w))
     + List.length (failed (outcome_of Move w (run Move LeftPane RightPane w)))
     = List.length (plan_of LeftPane w).
Proof.
  split.
  - reflexivity.
  - apply (outcome_accounts_for_plan Move LeftPane RightPane
             (plain_world ["a.txt"; "Foo/"]) ["d"]).
    + reflexivity.
    + vm_compute. reflexivity.
Defined.

(** C6 on [plain_world] with nothing selected. *)
Lemma transfer_rejected_witness :
  let w := plain_world [] in
  _copy_files LeftPane RightPane w
  = (mkWorld (fs w) (left_pane w) (right_pane w)
       (log w ++ [ShowInfo "Copy" select_message]), Return tt)
  /\ _move_files LeftPane RightPane w
     = (mkWorld (fs w) (left_pane w) (right_pane w)
          (log w ++ [ShowInfo "Move" select_message]), Return tt).
Proof.
  apply (transfer_rejected LeftPane RightPane (plain_world [])).
  left. reflexivity.
Defined.

(** C7 on [plain_world]: the empty file [/s/e.txt] copied to [/d/e.txt]
    as the second of three files. *)
Lemma zero_length_copy_witness :
  let w := plain_world ["e.txt"] in
  let r := _copy_with_progress ["s"; "e.txt"] ["d"; "e.txt"] RightPane 2 3 w in
  (exists copied, snd r = Return copied)
  /\ filter is_progress (events_since w (fst r))
     = [SetProgress RightPane (Qnat 2) (Qnat 3)]
  /\ List.length (filter is_progress (events_since w (fst r))) = 1
  /\ Posix.stat (fs (fst r)) ["d"; "e.txt"] = inr (File [])
  /\ progress_pair (fst r) RightPane
     = (py_max 0%Q (py_min (Qnat 2) (py_max 1%Q (Qnat 3))), py_max 1%Q (Qnat 3))
  /\ ((1 <= 2)%nat -> (2 <= 3)%nat ->
      progress_value (pane_of (fst r) RightPane) = Qnat 2).
Proof.
  apply (zero_length_copy (plain_world ["e.txt"]) ["s"; "e.txt"] ["d"; "e.txt"]
           RightPane 2 3
           (Dir [("s", Dir [("a.txt", File (bytes "hi"));
                            ("e.txt", File []);
                            ("Foo", Dir [("x.bin", File (bytes "x"));
                                         ("sub", Dir [("y.bin", File (bytes "yy"))])])]);
                 ("d", Dir [("e.txt", File [])])])).
  - reflexivity.
  - reflexivity.
Defined.

(** C8 on [plain_world]: copying the folder [Foo]; the loop over its two
    files returns. *)
Lemma progress_reset_around_transfer_witness :
  let w := plain_world ["Foo/"] in
  let n := List.length (plan_of LeftPane w) in
  let w0 := fst (_set_progress RightPane 0%Q (Qnat n) w) in
  snd (for_enumerate (entry Copy (selected_paths LeftPane w) RightPane ["d"] n)
         1 (plan_of LeftPane w) w0) = Return tt
  /\ progress_pair w0 RightPane = (0%Q, py_max 1%Q (Qnat n))
  /\ forall w1,
       for_enumerate (entry Copy (selected_paths LeftPane w) RightPane ["d"] n)
         1 (plan_of LeftPane w) w0
       = (w1, Return tt) ->
       let w2 := fst (_reset_progress RightPane w1) in
       progress_pair w2 RightPane = (0%Q, py_max 1%Q (Qnat n))
       /\ run Copy LeftPane RightPane w = finish Copy LeftPane RightPane w2
       /\ snd (run Copy LeftPane RightPane w) = Return tt
       /\ at_rest RightPane (fst (run Copy LeftPane RightPane w)).
Proof.
  split; [vm_compute; reflexivity|].
  apply (progress_reset_around_transfer Copy LeftPane RightPane
           (plain_world ["Foo/"]) ["d"]).
  - vm_compute. discriminate.
  - reflexivity.
Defined.

(** X1 on the row of a file of 1204 bytes. *)
Lemma size_row_parses_back_witness :
  size_row "a.txt" 1204 = "a.txt - 1204 bytes"
  /\ _parse_entry_to_name (size_row "a.txt" 1204) = "a.txt".
Proof.
  split; [reflexivity|].
  apply (size_row_parses_back "a.txt" 1204). reflexivity.
Defined.

(** X2 on [plain_world]: the rows of a file and of a folder of [/s]. *)
Lemma listed_rows_select_entries_witness :
  let w := plain_world ["a.txt"; "Foo/"] in
  get_selected_paths LeftPane w = (w, Return [["s"; "a.txt"]; ["s"; "Foo"]]).
Proof.
  apply (listed_rows_select_entries LeftPane (plain_world ["a.txt"; "Foo/"])
           ["s"]
           [("a.txt", File (bytes "hi")); ("e.txt", File []);
            ("Foo", Dir [("x.bin", File (bytes "x"));
                         ("sub", Dir [("y.bin", File (bytes "yy"))])])]
           [("a.txt", File (bytes "hi"));
            ("Foo", Dir [("x.bin", File (bytes "x"));
                         ("sub", Dir [("y.bin", File (bytes "yy"))])])]).
  - reflexivity.
  - reflexivity.
  - repeat constructor; discriminate.
  - reflexivity.
Defined.

(** X3 on [album_world]: into [/s/Artist - Album] and back to [/s]. *)
Lemma open_folder_then_go_up_witness :
  let r1 := _on_double_click LeftPane album_world in
  let r2 := go_up LeftPane (fst r1) in
  snd r1 = Return tt
  /\ directory (pane_of (fst r1) LeftPane) = Some ["s"; "Artist - Album"]
  /\ snd r2 = Return tt
  /\ directory (pane_of (fst r2) LeftPane) = Some ["s"]
  /\ fs (fst r2) = fs album_world.
Proof.
  apply (open_folder_then_go_up LeftPane album_world ["s"] "Artist - Album" []).
  - reflexivity.
  - reflexivity.
  - split; [reflexivity | discriminate].
  - discriminate.
  - discriminate.
  - reflexivity.
  - reflexivity.
Defined.

(** X4 on [plain_world]: a file and a folder of [/s] are deleted. *)
Lemma delete_removes_selected_witness :
  let w := plain_world ["a.txt"; "Foo/"] in
  let r := delete_selected_with_confirm LeftPane true w in
  selected_paths LeftPane w = [["s"; "a.txt"]; ["s"; "Foo"]]
  /\ snd r = Return tt
  /\ Posix.well_formed (fs (fst r)) = true
  /\ forall p, In p (selected_paths LeftPane w) -> p <> [] ->
               Posix.exists_ (fs (fst r)) p = false.
Proof.
  split; [reflexivity|].
  apply (delete_removes_selected LeftPane (plain_world ["a.txt"; "Foo/"])).
  reflexivity.
Defined.


(** X6 on [plain_world]: the folder [/s/Foo/sub] after [Foo] was moved. *)
Lemma transfer_keeps_directories_witness :
  Posix.is_dir
    (fs (fst (run Move LeftPane RightPane (plain_world ["Foo/"]))))
    ["s"; "Foo"; "sub"] = true.
Proof.
  apply (transfer_keeps_directories Move LeftPane RightPane
           (plain_world ["Foo/"]) ["s"; "Foo"; "sub"]).
  reflexivity.
Defined.


(** X8 on [plain_world]: after [/s/a.txt] was moved to [/d]. *)
Lemma move_clears_source_selection_witness :
  let w' := fst (run Move LeftPane RightPane (plain_world ["a.txt"])) in
  selection (pane_of w' LeftPane) = []
  /\ forall m dst',
       run m LeftPane dst' w'
       = (with_event w'
            (ShowInfo (match m with Copy => "Copy" | Move => "Move" end)
               select_message),
          Return tt).
Proof.
  apply (move_clears_source_selection LeftPane RightPane
           (plain_world ["a.txt"]) ["d"]).
  - vm_compute. discriminate.
  - reflexivity.
  - vm_compute. reflexivity.
Defined.

(** X9 on [plain_world]: [/s/a.txt] and [/s/e.txt] are moved to [/d]. *)
Lemma transfer_of_plain_files_witness :
  let w := plain_world ["a.txt"; "e.txt"] in
  let r := run Move LeftPane RightPane w in
  selected_paths LeftPane w = [["s"; "a.txt"]; ["s"; "e.txt"]]
  /\ snd r = Return tt
  /\ forall p data,
       In p (selected_paths LeftPane w) ->
       Posix.stat (fs w) p = inr (File data) ->
       Posix.stat (fs (fst r)) (flat_target ["d"] p) = inr (File data)
       /\ Posix.exists_ (fs (fst r)) p = false.
Proof.
  split; [reflexivity|].
  apply (transfer_of_plain_files Move LeftPane RightPane
           (plain_world ["a.txt"; "e.txt"]) ["d"]).
  - reflexivity.
  - reflexivity.
  - reflexivity.
  - vm_compute. repeat constructor; cbn; intuition discriminate.
  - intros p H. vm_compute in H.
    destruct H as [<-|[<-|[]]]; repeat split; reflexivity.
Defined.

(** X10 on [hollow_world]: a folder that holds only a folder. *)
Lemma transfer_of_nothing_witness :
  let r := run Copy LeftPane RightPane hollow_world in
  selected_paths LeftPane hollow_world = [["s"; "Hollow"]]
  /\ snd r = Return tt /\ fs (fst r) = fs hollow_world
  /\ In (FlashSuccess RightPane) (log (fst r))
  /\ tally Copy (fst r) = tally Copy hollow_world.
Proof.
  split; [reflexivity|].
  apply (transfer_of_nothing Copy LeftPane RightPane hollow_world ["d"]).
  - vm_compute. discriminate.
  - reflexivity.
  - reflexivity.
Defined.

(** X12 on [plain_world]: the folder [/s/Foo] is copied to [/d]. *)
Lemma transfer_of_a_folder_witness :
  let w := plain_world ["Foo/"] in
  let r := run Copy LeftPane RightPane w in
  plan_of LeftPane w = [["s"; "Foo"; "x.bin"]; ["s"; "Foo"; "sub"; "y.bin"]]
  /\ snd r = Return tt
  /\ forall below data,
       Posix.stat (fs w) (["s"; "Foo"] ++ below) = inr (File data) ->
       Posix.stat (fs (fst r)) (["d"] ++ PurePath.name ["s"; "Foo"] :: below)
       = inr (File data)
       /\ Posix.stat (fs (fst r)) (["s"; "Foo"] ++ below) = inr (File data).
Proof.
  split; [reflexivity|].
  apply (transfer_of_a_folder Copy LeftPane RightPane (plain_world ["Foo/"])
           ["d"] ["s"; "Foo"]).
  - reflexivity.
  - reflexivity.
  - reflexivity.
  - reflexivity.
  - reflexivity.
  - discriminate.
  - reflexivity.
  - intros p H. vm_compute in H. destruct H as [<-|[<-|[]]]; reflexivity.
Defined.
